(** * nethelper: frame codec, client node and relay server

    A shallow embedding of [nethelper.py] (classes [Net], [NetNode] and
    [NetServer]) together with the properties its specification states.

    Conventions of the embedding.
    - Python [bytes] are [list byte]; Python [str] is [string], that is, text
      whose code points are below 256.
    - Values that travel as JSON are the inductive type [json]; floating
      point numbers are not part of it, [json_loads] reports them like a
      decoding error.
    - A Python exception is a value of [exn]; a method that mutates [self]
      and may raise is a function [state -> result A * state], the state
      component being the object as the exception leaves it.
    - [time.time()] is an integer number of milliseconds. *)

From Stdlib Require Import ZArith Lia List String Ascii.
From Stdlib Require Import Strings.Byte Numbers.DecimalString Numbers.DecimalZ
  Numbers.DecimalPos Numbers.DecimalFacts.
From stdpp Require Import base option list gmap strings countable.

Import ListNotations.
Local Open Scope string_scope.
Local Open Scope list_scope.
Local Open Scope Z_scope.

(** ** Bytes *)

Definition bytes := list byte.

#[global] Instance byte_eq_decision : EqDecision byte := Byte.byte_eq_dec.

(** [b'...'] literals with ASCII content. *)
Definition b (s : string) : bytes := list_byte_of_string s.

(** [data[i:j]] for [0 <= i <= j]. *)
Definition slice (i j : nat) (data : bytes) : bytes :=
  take (j - i)%nat (drop i data).

(** [data[i:]] *)
Definition slice_from (i : nat) (data : bytes) : bytes := drop i data.

(** ** Exceptions and results *)

Inductive exn : Type :=
| VersionError (version : bytes)   (* Exception('Error: Incompatible ...') *)
| JSONDecodeError
| UnicodeDecodeError
| KeyError
| TypeError
| AttributeError
| OverflowError
| OSError
| RecursionError.

Inductive result (A : Type) : Type :=
| Ok (a : A)
| Raise (e : exn).
Arguments Ok {A} a.
Arguments Raise {A} e.

Definition result_bind {A B} (r : result A) (k : A -> result B) : result B :=
  match r with
  | Ok a => k a
  | Raise e => Raise e
  end.

Definition of_option {A} (e : exn) (o : option A) : result A :=
  match o with
  | Some a => Ok a
  | None => Raise e
  end.

Definition of_result_option {A} (r : result A) : option A :=
  match r with
  | Ok a => Some a
  | Raise _ => None
  end.

(** State and exception monad for the methods of an object of type [S]. *)
Definition M (S A : Type) : Type := S -> result A * S.

Definition ret {S A} (a : A) : M S A := fun s => (Ok a, s).
Definition raise {S A} (e : exn) : M S A := fun s => (Raise e, s).
Definition bind {S A B} (m : M S A) (k : A -> M S B) : M S B :=
  fun s =>
    match m s with
    | (Ok a, s') => k a s'
    | (Raise e, s') => (Raise e, s')
    end.
Definition get_state {S} : M S S := fun s => (Ok s, s).
Definition modify {S} (f : S -> S) : M S unit := fun s => (Ok tt, f s).
Definition lift {S A} (r : result A) : M S A := fun s => (r, s).

Declare Scope m_scope.
Delimit Scope m_scope with M.
Notation "'do' x <- m ;; k" := (bind m (fun x => k))
  (at level 10, x name, m at level 99, k at level 200) : m_scope.
Notation "'do' ' p <- m ;; k" := (bind m (fun x => let p := x in k))
  (at level 10, p pattern, m at level 99, k at level 200) : m_scope.
Notation "m ;; k" := (bind m (fun _ => k))
  (at level 100, k at level 200, right associativity) : m_scope.

(** [m] keeps the property [I] of the object, also when it raises. *)
Definition preserves {S A} (I : S -> Prop) (m : M S A) : Prop :=
  forall s, I s -> I (m s).2.

(** [for x in xs: body(x)], stopping at the first exception. *)
Fixpoint for_each {S A} (xs : list A) (body : A -> M S unit) : M S unit :=
  match xs with
  | [] => ret tt
  | x :: xs' => bind (body x) (fun _ => for_each xs' body)
  end.

(** ** Integers and bytes *)

(** The [n] low-order bytes of [v], most significant first. *)
Fixpoint be_bytes (n : nat) (v : Z) : bytes :=
  match n with
  | O => []
  | S n' =>
      be_bytes n' (v / 256)
        ++ [default x00 (Byte.of_N (Z.to_N (v mod 256)))]
  end.

(** [v.to_bytes(n, 'big')] *)
Definition to_bytes (n : nat) (v : Z) : result bytes :=
  if decide (0 <= v < 256 ^ Z.of_nat n) then Ok (be_bytes n v)
  else Raise OverflowError.

(** [int.from_bytes(data, 'big')] *)
Definition from_bytes (data : bytes) : Z :=
  fold_left (fun acc x => acc * 256 + Z.of_N (Byte.to_N x)) data 0.

(** ** JSON values

    What [json.loads] returns and [json.dumps] accepts: [None], [bool],
    [int], [str], [list] and [dict] with [str] keys. A [dict] is kept as the
    list of its items in insertion order. *)

Unset Elimination Schemes.
Inductive json : Type :=
| JNull
| JBool (v : bool)
| JInt (n : Z)
| JStr (s : string)
| JList (items : list json)
| JDict (members : list (string * json)).
Set Elimination Schemes.

(** [d[k]] and [d[k] = v] on the items of a [dict]. *)
Fixpoint assoc_get {K A} `{EqDecision K} (k : K) (d : list (K * A)) : option A :=
  match d with
  | [] => None
  | (k', v) :: d' => if decide (k' = k) then Some v else assoc_get k d'
  end.

Fixpoint assoc_set {K A} `{EqDecision K} (k : K) (v : A) (d : list (K * A))
  : list (K * A) :=
  match d with
  | [] => [(k, v)]
  | (k', v') :: d' =>
      if decide (k' = k) then (k', v) :: d' else (k', v') :: assoc_set k v d'
  end.

(** [dict(pairs)] *)
Definition dict_of_pairs {K A} `{EqDecision K} (pairs : list (K * A))
  : list (K * A) :=
  fold_left (fun d kv => assoc_set kv.1 kv.2 d) pairs [].

(** [value[key]] for a decoded value and a [str] key. *)
Definition subscript (value : json) (key : string) : result json :=
  match value with
  | JDict d => of_option KeyError (assoc_get key d)
  | _ => Raise TypeError
  end.

(** Truth value of a decoded value, as [if value:] tests it. *)
Definition truthy (value : json) : bool :=
  match value with
  | JNull => false
  | JBool v => v
  | JInt n => negb (n =? 0)
  | JStr s => negb (String.eqb s "")
  | JList l => match l with [] => false | _ => true end
  | JDict d => match d with [] => false | _ => true end
  end.

(** *** Serialisation: [json.dumps] with its default settings *)

Definition dquote : ascii := "034"%char.
Definition backslash : ascii := "092"%char.

Definition hex_digit (n : N) : ascii :=
  match String.get (N.to_nat n) "0123456789abcdef" with
  | Some c => c
  | None => "0"%char
  end.

(** The replacement of one character: backslash, the quote and everything
    outside [' '..'~'] are escaped. *)
Definition escape_char (c : ascii) : string :=
  let n := N_of_ascii c in
  if Ascii.eqb c dquote then String backslash (String dquote "")
  else if Ascii.eqb c backslash then String backslash (String backslash "")
  else if (n =? 8)%N then String backslash "b"
  else if (n =? 12)%N then String backslash "f"
  else if (n =? 10)%N then String backslash "n"
  else if (n =? 13)%N then String backslash "r"
  else if (n =? 9)%N then String backslash "t"
  else if ((32 <=? n) && (n <=? 126))%N then String c ""
  else String backslash
         (String "u" (String "0" (String "0"
            (String (hex_digit (n / 16)) (String (hex_digit (n mod 16)) ""))))).

Fixpoint escape (s : string) : string :=
  match s with
  | "" => ""
  | String c s' => escape_char c +:+ escape s'
  end.

Definition quote (s : string) : string :=
  String dquote (escape s +:+ String dquote "").

Definition dumps_int (n : Z) : string := NilZero.string_of_int (Z.to_int n).

(** [', '.join(parts)] *)
Fixpoint join (parts : list string) : string :=
  match parts with
  | [] => ""
  | [p] => p
  | p :: ps => p +:+ ", " +:+ join ps
  end.

Fixpoint json_dumps (value : json) : string :=
  match value with
  | JNull => "null"
  | JBool true => "true"
  | JBool false => "false"
  | JInt n => dumps_int n
  | JStr s => quote s
  | JList l => "[" +:+ join (map json_dumps l) +:+ "]"
  | JDict d =>
      "{" +:+ join (map (fun kv => quote kv.1 +:+ ": " +:+ json_dumps kv.2) d)
          +:+ "}"
  end.

(** *** Parsing: [json.loads]

    The scanner of the [json] module: [scanstring] for string literals,
    [NUMBER_RE] for numbers, and the array and object loops. A number with a
    fraction or an exponent, [NaN] and [Infinity] are floats and give
    [None], like every text the module rejects. *)

Definition is_ws (c : ascii) : bool :=
  let n := N_of_ascii c in
  ((n =? 32) || (n =? 9) || (n =? 10) || (n =? 13))%N.

Fixpoint skip_ws (s : string) : string :=
  match s with
  | String c r => if is_ws c then skip_ws r else s
  | "" => ""
  end.

Definition is_digit (c : ascii) : bool :=
  let n := N_of_ascii c in ((48 <=? n) && (n <=? 57))%N.

Definition unhex (c : ascii) : option N :=
  let n := N_of_ascii c in
  if ((48 <=? n) && (n <=? 57))%N then Some (n - 48)%N
  else if ((97 <=? n) && (n <=? 102))%N then Some (n - 87)%N
  else if ((65 <=? n) && (n <=? 70))%N then Some (n - 55)%N
  else None.

(** The [BACKSLASH] table of the decoder. *)
Definition unescape (c : ascii) : option ascii :=
  if Ascii.eqb c dquote then Some dquote
  else if Ascii.eqb c backslash then Some backslash
  else if Ascii.eqb c "/" then Some "/"%char
  else if Ascii.eqb c "b" then Some "008"%char
  else if Ascii.eqb c "f" then Some "012"%char
  else if Ascii.eqb c "n" then Some "010"%char
  else if Ascii.eqb c "r" then Some "013"%char
  else if Ascii.eqb c "t" then Some "009"%char
  else None.

Definition cons_char (c : ascii) (r : option (string * string))
  : option (string * string) :=
  match r with
  | Some (str, rest) => Some (String c str, rest)
  | None => None
  end.

(** [scanstring(s, end, strict=True)], [s] starting after the opening
    quote: the literal's value and the text after the closing quote. *)
Fixpoint scanstring (s : string) : option (string * string) :=
  match s with
  | "" => None
  | String c r =>
      if Ascii.eqb c dquote then Some ("", r)
      else if Ascii.eqb c backslash then
        match r with
        | "" => None
        | String e r1 =>
            if Ascii.eqb e "u" then
              match r1 with
              | String h1 (String h2 (String h3 (String h4 r2))) =>
                  match unhex h1, unhex h2, unhex h3, unhex h4 with
                  | Some k1, Some k2, Some k3, Some k4 =>
                      let n := (((k1 * 16 + k2) * 16 + k3) * 16 + k4)%N in
                      if (n <? 256)%N
                      then cons_char (ascii_of_N n) (scanstring r2)
                      else None
                  | _, _, _, _ => None
                  end
              | _ => None
              end
            else
              match unescape e with
              | Some c' => cons_char c' (scanstring r1)
              | None => None
              end
        end
      else if (N_of_ascii c <? 32)%N then None
      else cons_char c (scanstring r)
  end.

Fixpoint span_digits (s : string) : string * string :=
  match s with
  | String c r =>
      if is_digit c
      then let '(ds, rest) := span_digits r in (String c ds, rest)
      else ("", s)
  | "" => ("", "")
  end.

(** The integer group of [NUMBER_RE]: an optional minus sign, then either a
    single 0 or a non-zero digit followed by all the digits after it. *)
Definition match_integer (s : string) : option (string * string) :=
  let '(sign, s1) :=
    match s with
    | String "-" r => ("-", r)
    | _ => ("", s)
    end in
  match s1 with
  | String "0" r => Some (sign +:+ "0", r)
  | String c _ =>
      if is_digit c
      then let '(ds, rest) := span_digits s1 in Some (sign +:+ ds, rest)
      else None
  | "" => None
  end.

(** Whether the fraction group [(\.\d+)?] or the exponent group
    [([eE][-+]?\d+)?] of [NUMBER_RE] matches at [s]. *)
Definition starts_frac_or_exp (s : string) : bool :=
  match s with
  | String c r =>
      if Ascii.eqb c "."
      then match r with String d _ => is_digit d | "" => false end
      else if Ascii.eqb c "e" || Ascii.eqb c "E"
      then match r with
           | String d r' =>
               if is_digit d then true
               else if Ascii.eqb d "+" || Ascii.eqb d "-"
               then match r' with String d' _ => is_digit d' | "" => false end
               else false
           | "" => false
           end
      else false
  | "" => false
  end.

Definition parse_number (s : string) : option (json * string) :=
  match match_integer s with
  | Some (tok, rest) =>
      if starts_frac_or_exp rest then None
      else match NilZero.int_of_string tok with
           | Some d => Some (JInt (Z.of_int d), rest)
           | None => None
           end
  | None => None
  end.

Fixpoint strip_prefix (p s : string) : option string :=
  match p, s with
  | "", _ => Some s
  | String c p', String c' s' =>
      if Ascii.eqb c c' then strip_prefix p' s' else None
  | String _ _, "" => None
  end.

(** [scan_once], with the array loop [parse_items] (at the start of an
    element) and the object loop [parse_members] (after the opening quote of
    a key). [fuel] bounds the depth of the calls. *)
Fixpoint scan_once (fuel : nat) (s : string) : option (json * string) :=
  match fuel with
  | O => None
  | S fuel' =>
      match s with
      | "" => None
      | String c r =>
          if Ascii.eqb c dquote then
            match scanstring r with
            | Some (str, rest) => Some (JStr str, rest)
            | None => None
            end
          else if Ascii.eqb c "{" then
            match skip_ws r with
            | String c1 r1 =>
                if Ascii.eqb c1 "}" then Some (JDict [], r1)
                else if Ascii.eqb c1 dquote then
                  match parse_members fuel' r1 with
                  | Some (pairs, rest) => Some (JDict (dict_of_pairs pairs), rest)
                  | None => None
                  end
                else None
            | "" => None
            end
          else if Ascii.eqb c "[" then
            match skip_ws r with
            | String c1 r1 =>
                if Ascii.eqb c1 "]" then Some (JList [], r1)
                else
                  match parse_items fuel' (String c1 r1) with
                  | Some (items, rest) => Some (JList items, rest)
                  | None => None
                  end
            | "" => None
            end
          else if Ascii.eqb c "n" then
            match strip_prefix "null" s with
            | Some rest => Some (JNull, rest)
            | None => None
            end
          else if Ascii.eqb c "t" then
            match strip_prefix "true" s with
            | Some rest => Some (JBool true, rest)
            | None => None
            end
          else if Ascii.eqb c "f" then
            match strip_prefix "false" s with
            | Some rest => Some (JBool false, rest)
            | None => None
            end
          else parse_number s
      end
  end
with parse_items (fuel : nat) (s : string) : option (list json * string) :=
  match fuel with
  | O => None
  | S fuel' =>
      match scan_once fuel' s with
      | Some (v, r) =>
          match skip_ws r with
          | String c1 r1 =>
              if Ascii.eqb c1 "]" then Some ([v], r1)
              else if Ascii.eqb c1 "," then
                match parse_items fuel' (skip_ws r1) with
                | Some (vs, rest) => Some (v :: vs, rest)
                | None => None
                end
              else None
          | "" => None
          end
      | None => None
      end
  end
with parse_members (fuel : nat) (s : string)
  : option (list (string * json) * string) :=
  match fuel with
  | O => None
  | S fuel' =>
      match scanstring s with
      | Some (key, r) =>
          match skip_ws r with
          | String c1 r1 =>
              if Ascii.eqb c1 ":" then
                match scan_once fuel' (skip_ws r1) with
                | Some (v, r2) =>
                    match skip_ws r2 with
                    | String c2 r3 =>
                        if Ascii.eqb c2 "}" then Some ([(key, v)], r3)
                        else if Ascii.eqb c2 "," then
                          match skip_ws r3 with
                          | String c3 r4 =>
                              if Ascii.eqb c3 dquote then
                                match parse_members fuel' r4 with
                                | Some (kvs, rest) => Some ((key, v) :: kvs, rest)
                                | None => None
                                end
                              else None
                          | "" => None
                          end
                        else None
                    | "" => None
                    end
                | None => None
                end
              else None
          | "" => None
          end
      | None => None
      end
  end.

(** [json.loads(s)]: one value between optional whitespace. Two levels of
    calls consume at least one character, which bounds the depth: a larger
    bound gives the same result ([json_loads_fuel]). *)
Definition json_loads (s : string) : option json :=
  match scan_once (2 * String.length s + 2) (skip_ws s) with
  | Some (v, rest) =>
      match skip_ws rest with
      | "" => Some v
      | String _ _ => None
      end
  | None => None
  end.

(** *** UTF-8 *)

Definition byte_of_N (n : N) : byte := default x00 (Byte.of_N n).

(** [bytes(s, 'utf-8')] *)
Fixpoint utf8_encode (s : string) : bytes :=
  match s with
  | "" => []
  | String c r =>
      let n := N_of_ascii c in
      if (n <? 128)%N then byte_of_N n :: utf8_encode r
      else byte_of_N (192 + n / 64) :: byte_of_N (128 + n mod 64)
             :: utf8_encode r
  end.

(** [data.decode('utf-8')], for text of code points below 256. *)
Fixpoint utf8_decode (data : bytes) : option string :=
  match data with
  | [] => Some ""
  | x :: r =>
      let n := Byte.to_N x in
      if (n <? 128)%N then String (ascii_of_N n) <$> utf8_decode r
      else if ((n =? 194) || (n =? 195))%N then
        match r with
        | y :: r' =>
            let m := Byte.to_N y in
            if ((128 <=? m) && (m <? 192))%N
            then String (ascii_of_N ((n - 192) * 64 + (m - 128)))
                   <$> utf8_decode r'
            else None
        | [] => None
        end
      else None
  end.

(** *** Keys and equality of decoded values *)

(** A decoded value used as a [dict] key: [True] and [1] are one key, as
    are [False] and [0]; a [list] or a [dict] cannot be hashed. *)
Inductive pykey : Type :=
| KNone
| KInt (n : Z)
| KStr (s : string).

#[global] Instance pykey_eq_decision : EqDecision pykey.
Proof. solve_decision. Defined.

#[global] Instance pykey_countable : Countable pykey.
Proof.
  refine (inj_countable'
    (fun k => match k with
              | KNone => inl ()
              | KInt n => inr (inl n)
              | KStr s => inr (inr s)
              end)
    (fun x => match x with
              | inl _ => KNone
              | inr (inl n) => KInt n
              | inr (inr s) => KStr s
              end) _).
  by intros [].
Defined.

Definition hash_key (value : json) : result pykey :=
  match value with
  | JNull => Ok KNone
  | JBool v => Ok (KInt (if v then 1 else 0))
  | JInt n => Ok (KInt n)
  | JStr s => Ok (KStr s)
  | JList _ | JDict _ => Raise TypeError
  end.

(** [a == b] on decoded values. *)
Fixpoint py_eq (a c : json) : bool :=
  match a, c with
  | JNull, JNull => true
  | JBool x, JBool y => Bool.eqb x y
  | JBool x, JInt n | JInt n, JBool x => n =? (if x then 1 else 0)
  | JInt n, JInt m => n =? m
  | JStr s, JStr t => String.eqb s t
  | JList l, JList l' =>
      (fix go (l l' : list json) : bool :=
         match l, l' with
         | [], [] => true
         | x :: xs, y :: ys => py_eq x y && go xs ys
         | _, _ => false
         end) l l'
  | JDict d, JDict d' =>
      (length d =? length d')%nat
      && (fix go (d : list (string * json)) : bool :=
            match d with
            | [] => true
            | (k, v) :: r =>
                match assoc_get k d' with
                | Some v' => py_eq v v'
                | None => false
                end && go r
            end) d
  | _, _ => false
  end.

(** The values [for x in value] goes through. *)
Definition iterate (value : json) : result (list json) :=
  match value with
  | JList l => Ok l
  | JDict d => Ok (map (fun kv => JStr kv.1) d)
  | JStr s => Ok (map (fun c => JStr (String c "")) (list_ascii_of_string s))
  | _ => Raise TypeError
  end.

(** * Class [Net]: the frame codec *)

Module Net.

Definition HEADER_SIZE : Z := 11.
Definition VERSION : bytes := b "020".

Definition DEFAULT_PORT : Z := 65042.

Definition FRAME_TYPE_AUTH : bytes := [x01].
Definition FRAME_TYPE_DATA : bytes := [x02].
Definition FRAME_TYPE_HEART : bytes := [x03].
Definition FRAME_TYPE_PEERS : bytes := [x04].
Definition FRAME_TYPE_REQ : bytes := [x05].
Definition FRAME_TYPE_SYSM : bytes := [x06].

Definition SYSM_TYPE_NAME : Z := 0.

Definition REQ_TYPE_DISCONNECT : Z := 0.
Definition REQ_TYPE_PEERS : Z := 1.

Definition SERVER_ADDR : bytes := [x00].
Definition UNKNOWN_ADDR : bytes := [xff].
Definition ALL_CLIENTS : bytes := [xff].

Definition _dumps (data : json) : bytes := utf8_encode (json_dumps data).

Definition _loads (data : bytes) : result json :=
  match utf8_decode data with
  | Some s => of_option JSONDecodeError (json_loads s)
  | None => Raise UnicodeDecodeError
  end.

(** The [dict] handed to [_encode_frame]. [f_data = None] is a frame
    without the key ['data']; a key bound to Python's [None] is
    [Some JNull]. [f_meta = None] is a missing key or the value [None]. *)
Record frame : Type := {
  f_dest : bytes;
  f_type : bytes;
  f_data : option json;
  f_meta : option bytes
}.

(** The [dict] built by [_decode_frame]. *)
Record d_frame : Type := {
  d_version : bytes;
  d_dest : bytes;
  d_sender : bytes;
  d_type : bytes;
  d_meta : bytes;
  d_data : bytes
}.

(** Returns the encoded bytes and [frame] as the call leaves it: a missing
    ['meta'] has been set to a zero byte. *)
Definition _construct_frame (my_addr : bytes) (frame : frame) (b_data : bytes)
  : result (bytes * Net.frame) :=
  let frame_length := HEADER_SIZE + Z.of_nat (length b_data) in
  let meta :=
    match f_meta frame with
    | Some m => m
    | None => [x00]
    end in
  let frame' :=
    {| f_dest := f_dest frame; f_type := f_type frame;
       f_data := f_data frame; f_meta := Some meta |} in
  result_bind (to_bytes 4 frame_length) (fun b_length =>
    Ok (b_length ++ VERSION ++ f_dest frame ++ my_addr ++ f_type frame
          ++ meta ++ b_data,
        frame')).

Definition _encode_frame (my_addr : bytes) (frame : frame)
  : result (bytes * Net.frame) :=
  let b_data :=
    match f_data frame with
    | Some data => _dumps data
    | None => []
    end in
  _construct_frame my_addr frame b_data.

Definition _decode_frame (frame : bytes) : result d_frame :=
  let version := slice 4 7 frame in
  if decide (version <> VERSION) then Raise (VersionError version)
  else
    Ok {| d_version := version;
          d_dest := slice 7 8 frame;
          d_sender := slice 8 9 frame;
          d_type := slice 9 10 frame;
          d_meta := slice 10 11 frame;
          d_data := slice_from 11 frame |}.

Definition _get_frame (data : bytes) : option bytes * bytes :=
  let buf_size := Z.of_nat (length data) in
  if decide (buf_size < HEADER_SIZE) then (None, data)
  else
    let frame_len := from_bytes (slice 0 4 data) in
    if decide (buf_size < frame_len) then (None, data)
    else (Some (take (Z.to_nat frame_len) data),
          drop (Z.to_nat frame_len) data).

End Net.

(** One second of [time.time()]. *)
Definition second : Z := 1000.

(** * Class [NetNode]: the client *)

Module NetNode.
Import Net.
Local Open Scope m_scope.

Definition IN_BUFFER_LIMIT : Z := 102400.
Definition OUT_BUFFER_LIMIT : Z := 102400.

(** The node's socket: whether [close()] was called, and the bytes that
    [send] has accepted so far. *)
Record socket_state : Type := {
  sock_closed : bool;
  sock_sent : bytes
}.

(** The attributes of a [NetNode]. [name] and [socket] do not exist before
    [connect]. [in_data] maps sender name and title to the list of contents;
    [out_data] and [peers] keep the insertion order of their keys. *)
Record node : Type := {
  inBuf : bytes;
  outBuf : bytes;
  heartBeatTime : Z;
  in_data : gmap pykey (gmap pykey (list json));
  out_data : list (bytes * list json);
  peers : list (pykey * bytes);
  my_addr : bytes;
  name : option json;
  socket : option socket_state
}.

Definition set_inBuf (v : bytes) (n : node) : node :=
  {| inBuf := v; outBuf := outBuf n; heartBeatTime := heartBeatTime n;
     in_data := in_data n; out_data := out_data n; peers := peers n;
     my_addr := my_addr n; name := name n; socket := socket n |}.
Definition set_outBuf (v : bytes) (n : node) : node :=
  {| inBuf := inBuf n; outBuf := v; heartBeatTime := heartBeatTime n;
     in_data := in_data n; out_data := out_data n; peers := peers n;
     my_addr := my_addr n; name := name n; socket := socket n |}.
Definition set_heartBeatTime (v : Z) (n : node) : node :=
  {| inBuf := inBuf n; outBuf := outBuf n; heartBeatTime := v;
     in_data := in_data n; out_data := out_data n; peers := peers n;
     my_addr := my_addr n; name := name n; socket := socket n |}.
Definition set_in_data (v : gmap pykey (gmap pykey (list json))) (n : node)
  : node :=
  {| inBuf := inBuf n; outBuf := outBuf n; heartBeatTime := heartBeatTime n;
     in_data := v; out_data := out_data n; peers := peers n;
     my_addr := my_addr n; name := name n; socket := socket n |}.
Definition set_out_data (v : list (bytes * list json)) (n : node) : node :=
  {| inBuf := inBuf n; outBuf := outBuf n; heartBeatTime := heartBeatTime n;
     in_data := in_data n; out_data := v; peers := peers n;
     my_addr := my_addr n; name := name n; socket := socket n |}.
Definition set_peers (v : list (pykey * bytes)) (n : node) : node :=
  {| inBuf := inBuf n; outBuf := outBuf n; heartBeatTime := heartBeatTime n;
     in_data := in_data n; out_data := out_data n; peers := v;
     my_addr := my_addr n; name := name n; socket := socket n |}.
Definition set_my_addr (v : bytes) (n : node) : node :=
  {| inBuf := inBuf n; outBuf := outBuf n; heartBeatTime := heartBeatTime n;
     in_data := in_data n; out_data := out_data n; peers := peers n;
     my_addr := v; name := name n; socket := socket n |}.
Definition set_name (v : option json) (n : node) : node :=
  {| inBuf := inBuf n; outBuf := outBuf n; heartBeatTime := heartBeatTime n;
     in_data := in_data n; out_data := out_data n; peers := peers n;
     my_addr := my_addr n; name := v; socket := socket n |}.
Definition set_socket (v : option socket_state) (n : node) : node :=
  {| inBuf := inBuf n; outBuf := outBuf n; heartBeatTime := heartBeatTime n;
     in_data := in_data n; out_data := out_data n; peers := peers n;
     my_addr := my_addr n; name := name n; socket := v |}.

(** [__init__], at time [now]. *)
Definition __init__ (now : Z) : node :=
  {| inBuf := []; outBuf := []; heartBeatTime := now;
     in_data := ∅; out_data := []; peers := [];
     my_addr := UNKNOWN_ADDR; name := None; socket := None |}.

(** The socket of a connected node; [recv] and [send] fail on a closed one. *)
Definition live_socket : M node socket_state :=
  do n <- get_state;;
  match socket n with
  | None => raise AttributeError
  | Some sk => if sock_closed sk then raise OSError else ret sk
  end.

Definition _send_bytes (data : bytes) : M node unit :=
  modify (fun n => set_outBuf (outBuf n ++ data) n).

Definition _send_frame (dest frame_type : bytes) (data : json)
    (meta : option bytes) : M node unit :=
  do n <- get_state;;
  do e_frame <- lift (_encode_frame (my_addr n)
                   {| f_dest := dest; f_type := frame_type;
                      f_data := Some data; f_meta := meta |});;
  _send_bytes e_frame.1.

Definition _send_auth (name group : json) : M node unit :=
  _send_frame SERVER_ADDR FRAME_TYPE_AUTH
    (JDict [("name", name); ("group", group)]) None.

Definition _send_data_frame (dest : bytes) (data : list json) : M node unit :=
  _send_frame dest FRAME_TYPE_DATA (JList data) None.

Definition _send_heartbeat_frame (now : Z) : M node unit :=
  do n <- get_state;;
  if decide (now > heartBeatTime n + 1 * second) then
    modify (set_heartBeatTime now);;
    _send_frame SERVER_ADDR FRAME_TYPE_HEART JNull None
  else ret tt.

(** [def _send_req(self, req_type, data)], applied to the positional
    arguments of a call: binding them fails unless there are two. *)
Definition _send_req (args : list json) : M node unit :=
  match args with
  | [req_type; data] =>
      _send_frame SERVER_ADDR FRAME_TYPE_REQ
        (JDict [("type", req_type); ("data", data)]) None
  | _ => raise TypeError
  end.

(** The [while len(self.outBuf)] loop of [process_send]. [sends] lists what
    the successive [socket.send] calls do: [Some k] accepts [k] bytes, [None]
    and the end of the list are [BlockingIOError]. *)
Fixpoint send_loop (sends : list (option nat)) : M node unit :=
  do n <- get_state;;
  match outBuf n with
  | [] => ret tt
  | _ :: _ =>
      do sk <- live_socket;;
      match sends with
      | Some sent :: sends' =>
          modify (fun n =>
            set_socket
              (Some {| sock_closed := sock_closed sk;
                       sock_sent := sock_sent sk ++ take sent (outBuf n) |})
              (set_outBuf (drop sent (outBuf n)) n));;
          send_loop sends'
      | _ => ret tt
      end
  end.

Definition process_send (now : Z) (sends : list (option nat)) : M node unit :=
  do n <- get_state;;
  for_each (map fst (out_data n)) (fun dest =>
    do n <- get_state;;
    match assoc_get dest (out_data n) with
    | Some (m :: ms) =>
        _send_data_frame dest (m :: ms);;
        modify (fun n => set_out_data (assoc_set dest [] (out_data n)) n)
    | _ => ret tt
    end);;
  do n <- get_state;;
  match outBuf n with
  | _ :: _ =>
      modify (set_heartBeatTime now);;
      send_loop sends
  | [] => _send_heartbeat_frame now
  end.

(** [connect] with [wait=False]. *)
Definition connect (name group : string) (now : Z)
    (sends : list (option nat)) : M node bool :=
  modify (set_name (Some (JStr name)));;
  modify (set_socket (Some {| sock_closed := false; sock_sent := [] |}));;
  _send_auth (JStr name) (JStr group);;
  process_send now sends;;
  ret true.

Definition available (sender title : string) (n : node) : Z :=
  match in_data n !! KStr sender with
  | None => 0
  | Some titles =>
      match titles !! KStr title with
      | None => 0
      | Some q => if decide (Z.of_nat (length q) < 1) then 0
                  else Z.of_nat (length q)
      end
  end.

(** [get_msg]; Python's [None] is [JNull]. *)
Definition get_msg (sender title : string) (clear : bool) : M node json :=
  do n <- get_state;;
  match in_data n !! KStr sender with
  | None => ret JNull
  | Some titles =>
      match titles !! KStr title with
      | None => ret JNull
      | Some [] =>
          modify (set_in_data
                    (<[KStr sender := delete (KStr title) titles]> (in_data n)));;
          ret JNull
      | Some (x :: q) =>
          if clear then
            modify (set_in_data
                      (<[KStr sender := <[KStr title := q]> titles]> (in_data n)));;
            ret x
          else ret x
      end
  end.

Definition get_all_msgs (sender title : string) (clear : bool)
  : M node (option (list json)) :=
  do n <- get_state;;
  match in_data n !! KStr sender with
  | None => ret None
  | Some titles =>
      match titles !! KStr title with
      | None => ret None
      | Some [] =>
          modify (set_in_data
                    (<[KStr sender := delete (KStr title) titles]> (in_data n)));;
          ret None
      | Some (x :: q) =>
          if clear then
            modify (set_in_data
                      (<[KStr sender := <[KStr title := []]> titles]> (in_data n)));;
            ret (Some (x :: q))
          else ret (Some (x :: q))
      end
  end.

Definition _get_peer_addr (name : string) (n : node) : option bytes :=
  match assoc_get (KStr name) (peers n) with
  | Some addr => Some addr
  | None => if decide (name = "ALL") then Some ALL_CLIENTS else None
  end.

Definition send_msg (name : string) (title content queue : json)
  : M node bool :=
  do n <- get_state;;
  match _get_peer_addr name n with
  | None => ret false
  | Some dest =>
      let data :=
        JDict [("title", title); ("content", content); ("queue", queue)] in
      let pending := default [] (assoc_get dest (out_data n)) in
      modify (set_out_data (assoc_set dest (pending ++ [data]) (out_data n)));;
      ret true
  end.

Definition get_peers (n : node) : list pykey := map fst (peers n).

Definition get_name (n : node) : result json :=
  of_option AttributeError (name n).

Definition disconnect : M node unit :=
  _send_req [JInt REQ_TYPE_DISCONNECT];;
  do n <- get_state;;
  match socket n with
  | None => raise AttributeError
  | Some sk =>
      modify (set_socket
                (Some {| sock_closed := true; sock_sent := sock_sent sk |}))
  end.

(** The name bound to [addr] in the peer map, [None] (the key [KNone])
    when there is none. *)
Definition _get_name_from_addr (addr : bytes) (n : node) : pykey :=
  match find (fun p => bool_decide (p.2 = addr)) (peers n) with
  | Some p => p.1
  | None => KNone
  end.

(** The body of the loop of [_process_dataframe]. *)
Definition store_message (sender_name : pykey) (message : json)
  : M node unit :=
  do title <- lift (subscript message "title");;
  do content <- lift (subscript message "content");;
  do queue <- lift (subscript message "queue");;
  modify (fun n =>
    match in_data n !! sender_name with
    | None => set_in_data (<[sender_name := ∅]> (in_data n)) n
    | Some _ => n
    end);;
  do k <- lift (hash_key title);;
  modify (fun n =>
    let titles := default ∅ (in_data n !! sender_name) in
    let q := default [] (titles !! k) in
    let q' := if truthy queue then q ++ [content] else [content] in
    set_in_data (<[sender_name := <[k := q']> titles]> (in_data n)) n).

Definition _process_dataframe (d : d_frame) : M node unit :=
  do n <- get_state;;
  let sender_name := _get_name_from_addr (d_sender d) n in
  do messages <- lift (_loads (d_data d));;
  do items <- lift (iterate messages);;
  for_each items (store_message sender_name).

(** [value.to_bytes(1, 'big')] on a decoded value. *)
Definition addr_to_bytes (value : json) : result bytes :=
  match value with
  | JInt a => to_bytes 1 a
  | JBool v => to_bytes 1 (if v then 1 else 0)
  | _ => Raise AttributeError
  end.

Definition _process_peersframe (d : d_frame) : M node unit :=
  do peers <- lift (_loads (d_data d));;
  modify (set_peers []);;
  do items <- lift (iterate peers);;
  for_each items (fun peer =>
    do a <- lift (subscript peer "addr");;
    do addr <- lift (addr_to_bytes a);;
    do nm <- lift (subscript peer "name");;
    do k <- lift (hash_key nm);;
    modify (fun n => set_peers (assoc_set k addr (NetNode.peers n)) n));;
  do n <- get_state;;
  do nm <- lift (of_option AttributeError (name n));;
  do k <- lift (hash_key nm);;
  do addr <- lift (of_option KeyError (assoc_get k (NetNode.peers n)));;
  modify (set_my_addr addr).

Definition _process_sysm_name (msg : json) : M node unit :=
  do nm <- lift (subscript msg "data");;
  modify (set_name (Some nm)).

Definition _process_sysmframe (d : d_frame) : M node unit :=
  do msg <- lift (_loads (d_data d));;
  do ty <- lift (subscript msg "type");;
  if py_eq ty (JInt SYSM_TYPE_NAME) then _process_sysm_name msg else ret tt.

Definition _process_frame (frame : bytes) : M node unit :=
  do d <- lift (_decode_frame frame);;
  if decide (d_type d = FRAME_TYPE_DATA) then _process_dataframe d
  else if decide (d_type d = FRAME_TYPE_PEERS) then _process_peersframe d
  else if decide (d_type d = FRAME_TYPE_SYSM) then _process_sysmframe d
  else ret tt.

(** [_process_inbuf] calls itself once per frame; [depth] is the number of
    nested calls the interpreter still allows. *)
Fixpoint _process_inbuf (depth : nat) : M node unit :=
  match depth with
  | O => raise RecursionError
  | S depth' =>
      do n <- get_state;;
      let '(frame_bytes, rest) := _get_frame (inBuf n) in
      modify (set_inBuf rest);;
      match frame_bytes with
      | None => ret tt
      | Some frame =>
          _process_frame frame;;
          do n <- get_state;;
          if decide (Z.of_nat (length (inBuf n)) > 0)
          then _process_inbuf depth'
          else ret tt
      end
  end.

(** The [while True] loop of [process_recv]. [chunks] lists what the
    successive [socket.recv(1024)] calls return; the end of the list is
    [BlockingIOError]. *)
Fixpoint recv_loop (chunks : list bytes) : M node unit :=
  match chunks with
  | [] => live_socket;; ret tt
  | received :: chunks' =>
      live_socket;;
      match received with
      | [] => ret tt
      | _ :: _ =>
          modify (fun n => set_inBuf (inBuf n ++ received) n);;
          recv_loop chunks'
      end
  end.

Definition process_recv (chunks : list bytes) (depth : nat) : M node unit :=
  recv_loop chunks;;
  _process_inbuf depth.

End NetNode.

(** * Class [NetServer]: the relay *)

Module NetServer.
Import Net.
Local Open Scope m_scope.

Definition IN_BUFFER_LIMIT : Z := 102400.
Definition OUT_BUFFER_LIMIT : Z := 102400.

Definition VERBOSITY_WARNING : Z := 1.
Definition VERBOSITY_INFO : Z := 2.

(** A client [dict]. Its socket is a number; no two clients share one. *)
Record client : Type := {
  ip : string;
  name : json;
  group : string;
  addr : bytes;
  inb : bytes;
  outb : bytes;
  sock : nat;
  watchDog : Z
}.

Definition set_name (v : json) (c : client) : client :=
  {| ip := ip c; name := v; group := group c; addr := addr c; inb := inb c;
     outb := outb c; sock := sock c; watchDog := watchDog c |}.
Definition set_group (v : string) (c : client) : client :=
  {| ip := ip c; name := name c; group := v; addr := addr c; inb := inb c;
     outb := outb c; sock := sock c; watchDog := watchDog c |}.
Definition set_addr (v : bytes) (c : client) : client :=
  {| ip := ip c; name := name c; group := group c; addr := v; inb := inb c;
     outb := outb c; sock := sock c; watchDog := watchDog c |}.
Definition set_inb (v : bytes) (c : client) : client :=
  {| ip := ip c; name := name c; group := group c; addr := addr c; inb := v;
     outb := outb c; sock := sock c; watchDog := watchDog c |}.
Definition set_outb (v : bytes) (c : client) : client :=
  {| ip := ip c; name := name c; group := group c; addr := addr c;
     inb := inb c; outb := v; sock := sock c; watchDog := watchDog c |}.
Definition set_watchDog (v : Z) (c : client) : client :=
  {| ip := ip c; name := name c; group := group c; addr := addr c;
     inb := inb c; outb := outb c; sock := sock c; watchDog := v |}.

(** The server object. The client dicts live in [heap], under the number
    of their socket; [clients] is the list [self.clients] of references to
    them, so that a dict removed from the list can still be updated by the
    call that holds it. [sel] is the set of sockets registered with the
    selector, [closed] the set of closed ones, [log] what [print] wrote. *)
Record server : Type := {
  clients : list nat;
  heap : gmap nat client;
  groups : list string;
  sel : gset nat;
  closed : gset nat;
  verbosity : Z;
  my_addr : bytes;
  log : list (Z * string);
  _RANDOM_NAMES : list string;
  next_sock : nat
}.

Definition set_clients (v : list nat) (s : server) : server :=
  {| clients := v; heap := heap s; groups := groups s; sel := sel s;
     closed := closed s; verbosity := verbosity s; my_addr := my_addr s;
     log := log s; _RANDOM_NAMES := _RANDOM_NAMES s;
     next_sock := next_sock s |}.
Definition set_heap (v : gmap nat client) (s : server) : server :=
  {| clients := clients s; heap := v; groups := groups s; sel := sel s;
     closed := closed s; verbosity := verbosity s; my_addr := my_addr s;
     log := log s; _RANDOM_NAMES := _RANDOM_NAMES s;
     next_sock := next_sock s |}.
Definition set_sockets (v w : gset nat) (s : server) : server :=
  {| clients := clients s; heap := heap s; groups := groups s; sel := v;
     closed := w; verbosity := verbosity s; my_addr := my_addr s;
     log := log s; _RANDOM_NAMES := _RANDOM_NAMES s;
     next_sock := next_sock s |}.
Definition set_log (v : list (Z * string)) (s : server) : server :=
  {| clients := clients s; heap := heap s; groups := groups s; sel := sel s;
     closed := closed s; verbosity := verbosity s; my_addr := my_addr s;
     log := v; _RANDOM_NAMES := _RANDOM_NAMES s;
     next_sock := next_sock s |}.
Definition set_next_sock (v : nat) (s : server) : server :=
  {| clients := clients s; heap := heap s; groups := groups s; sel := sel s;
     closed := closed s; verbosity := verbosity s; my_addr := my_addr s;
     log := log s; _RANDOM_NAMES := _RANDOM_NAMES s;
     next_sock := v |}.

(** The list [_RANDOM_NAMES] of the class, before [random.shuffle]. *)
Definition builtin_names : list string :=
  ["Ant"; "Bat"; "Bear"; "Beaver"; "Bee"; "Bird"; "Bison"; "Boar"; "Buffalo";
   "Camel"; "Cat"; "Cheetah"; "Chicken"; "Cobra"; "Cow"; "Crab"; "Crane";
   "Crow"; "Deer"; "Dingo"; "Dog"; "Dolphin"; "Dove"; "Duck"; "Eagle";
   "Elephant"; "Ferret"; "Fish"; "Fly"; "Fox"; "Frog"; "Gecko"; "Goat";
   "Goldfish"; "Hamster"; "Hawk"; "Hippo"; "Horse"; "Hyena"; "Kangaroo";
   "Kitten"; "Lion"; "Lizard"; "Lobster"; "Monkey"; "Moose"; "Mouse";
   "Octopus"; "Otter"; "Owl"; "Ox"; "Panda"; "Parrot"; "Peacock"; "Pig";
   "Pigeon"; "Puppy"; "Python"; "Raccoon"; "Rat"; "Raven"; "Scorpion"; "Seal";
   "Shark"; "Sheep"; "Snail"; "Snake"; "Spider"; "Squirrel"; "Tiger";
   "Turkey"; "Whale"; "Wolf"; "Zebra"].

(** [__init__] without [host] and [port]; [names] is the shuffled list of
    names and [allowed] the value later assigned to [groups]. *)
Definition __init__ (names allowed : list string) : server :=
  {| clients := []; heap := ∅; groups := allowed; sel := ∅; closed := ∅;
     verbosity := VERBOSITY_INFO; my_addr := SERVER_ADDR; log := [];
     _RANDOM_NAMES := names; next_sock := 0 |}.

Definition blank : client :=
  {| ip := ""; name := JStr ""; group := ""; addr := UNKNOWN_ADDR; inb := [];
     outb := []; sock := 0; watchDog := 0 |}.

(** The dict behind a reference, and an update of it in place. *)
Definition deref (s : server) (c : nat) : client := default blank (heap s !! c).

Definition update (c : nat) (f : client -> client) : M server unit :=
  modify (fun s => set_heap (alter f c (heap s)) s).

Definition print (level : Z) (text : string) : M server unit :=
  modify (fun s =>
    if decide (verbosity s >= level) then set_log (log s ++ [(level, text)]) s
    else s).

(** [list.remove]: the first occurrence. *)
Fixpoint list_remove (c : nat) (l : list nat) : list nat :=
  match l with
  | [] => []
  | x :: l' => if decide (x = c) then l' else x :: list_remove c l'
  end.

Definition disconnect (c : nat) : M server unit :=
  modify (fun s =>
    if decide (c ∈ sel s)
    then set_sockets (sel s ∖ {[c]}) (closed s ∪ {[c]}) s
    else s);;
  modify (fun s =>
    if decide (c ∈ clients s) then set_clients (list_remove c (clients s)) s
    else s).

Definition _accept_connection (ip : string) (now : Z) : M server string :=
  do s <- get_state;;
  let conn := next_sock s in
  let client :=
    {| ip := ip; name := JStr ""; group := ""; addr := UNKNOWN_ADDR;
       inb := []; outb := []; sock := conn; watchDog := now |} in
  modify (fun s =>
    set_next_sock (S conn)
      (set_sockets (sel s ∪ {[conn]}) (closed s)
         (set_clients (clients s ++ [conn])
            (set_heap (<[conn := client]> (heap s)) s))));;
  ret ip.

Definition _get_client_by_addr (addr : bytes) (group : string) (s : server)
  : option nat :=
  find (fun c => bool_decide (NetServer.addr (deref s c) = addr
                              /\ NetServer.group (deref s c) = group))
       (clients s).

Definition _get_client_by_name (name : json) (group : string) (s : server)
  : list nat :=
  filter (fun c => NetServer.group (deref s c) = group
                   /\ py_eq (NetServer.name (deref s c)) name = true)
         (clients s).

Definition _get_clients_by_group (group : string) (s : server) : list nat :=
  filter (fun c => NetServer.group (deref s c) = group) (clients s).

Definition _get_free_addr (group : string) (s : server) : option bytes :=
  find (fun b_addr =>
          match _get_client_by_addr b_addr group s with
          | None => true
          | Some _ => false
          end)
       (map (fun a => be_bytes 1 (Z.of_nat a)) (seq 1 254)).

Definition _get_random_name (group : string) (s : server) : option string :=
  let used_names :=
    map (fun c => NetServer.name (deref s c)) (_get_clients_by_group group s) in
  let unused name := negb (existsb (py_eq (JStr name)) used_names) in
  match find unused (_RANDOM_NAMES s) with
  | Some name => Some name
  | None =>
      find unused
        (flat_map (fun a => map (fun name => name +:+ dumps_int (Z.of_nat a))
                                (_RANDOM_NAMES s))
                  (seq 1 254))
  end.

Definition _get_peers_list (group : string) (s : server) : json :=
  JList (map (fun c =>
                JDict [("name", NetServer.name (deref s c));
                       ("addr", JInt (from_bytes (NetServer.addr (deref s c))))])
             (_get_clients_by_group group s)).

Definition _send_bytes (c : nat) (data : bytes) : M server unit :=
  update c (fun cl => set_outb (outb cl ++ data) cl).

Definition _send_peers_frame (group : string) : M server unit :=
  do s <- get_state;;
  do e_frame <- lift (_encode_frame (my_addr s)
                   {| f_dest := ALL_CLIENTS; f_type := FRAME_TYPE_PEERS;
                      f_data := Some (_get_peers_list group s);
                      f_meta := None |});;
  for_each (_get_clients_by_group group s) (fun c => _send_bytes c e_frame.1).

Definition _send_sysm_name_frame (c : nat) (name : string) : M server unit :=
  do s <- get_state;;
  do e_frame <- lift (_encode_frame (my_addr s)
                   {| f_dest := addr (deref s c); f_type := FRAME_TYPE_SYSM;
                      f_data := Some (JDict [("type", JInt SYSM_TYPE_NAME);
                                             ("msg", JNull);
                                             ("data", JStr name)]);
                      f_meta := None |});;
  _send_bytes c e_frame.1.

(** The tail of [_process_authframe], from ['Auth passed'] on. *)
Definition assign_address (c : nat) (name : json) (group : string)
  : M server unit :=
  print VERBOSITY_INFO "Auth passed";;
  do s <- get_state;;
  match _get_free_addr group s with
  | None =>
      print VERBOSITY_WARNING "No free addresses. Closing";;
      disconnect c
  | Some addr =>
      update c (set_name name);;
      update c (set_group group);;
      update c (set_addr addr);;
      _send_peers_frame group
  end.

Definition _process_authframe (c : nat) (d : d_frame) : M server unit :=
  do auth_info <- lift (_loads (d_data d));;
  do name <- lift (subscript auth_info "name");;
  do group <- lift (subscript auth_info "group");;
  do s <- get_state;;
  match group with
  | JStr group =>
      if decide (group ∈ groups s) then
        if py_eq name (JStr "") then
          match _get_random_name group s with
          | None =>
              print VERBOSITY_WARNING "Unable to find unused name. Closing";;
              disconnect c
          | Some name =>
              _send_sysm_name_frame c name;;
              assign_address c (JStr name) group
          end
        else
          match _get_client_by_name name group s with
          | _ :: _ =>
              print VERBOSITY_WARNING "Repeated name. Closing";;
              disconnect c
          | [] => assign_address c name group
          end
      else
        print VERBOSITY_WARNING "Auth failed. Closing";;
        disconnect c
  | _ =>
      print VERBOSITY_WARNING "Auth failed. Closing";;
      disconnect c
  end.

Definition _process_dataframe (c : nat) (d : d_frame) (frame : bytes)
  : M server unit :=
  do s <- get_state;;
  if decide (d_dest d = ALL_CLIENTS) then
    for_each (_get_clients_by_group (group (deref s c)) s) (fun dest_client =>
      do s <- get_state;;
      if decide (addr (deref s dest_client) <> d_sender d)
      then _send_bytes dest_client frame
      else ret tt)
  else
    match _get_client_by_addr (d_dest d) (group (deref s c)) s with
    | Some dest_client => _send_bytes dest_client frame
    | None => ret tt
    end.

Definition _process_frame (frame_bytes : bytes) (c : nat) (now : Z)
  : M server unit :=
  do d <- lift (_decode_frame frame_bytes);;
  if decide (d_type d = FRAME_TYPE_AUTH) then _process_authframe c d
  else
    do s <- get_state;;
    if decide (group (deref s c) = "") then ret tt
    else if decide (addr (deref s c) <> d_sender d) then
      print VERBOSITY_WARNING "Forged sender addr."
    else
      update c (set_watchDog now);;
      if decide (d_type d = FRAME_TYPE_DATA)
      then _process_dataframe c d frame_bytes
      else ret tt.

(** [_process_buf] calls itself once per frame; [depth] is the number of
    nested calls the interpreter still allows. *)
Fixpoint _process_buf (depth : nat) (c : nat) (now : Z) : M server unit :=
  match depth with
  | O => raise RecursionError
  | S depth' =>
      do s <- get_state;;
      let '(frame_bytes, rest) := _get_frame (inb (deref s c)) in
      update c (set_inb rest);;
      match frame_bytes with
      | None => ret tt
      | Some frame =>
          _process_frame frame c now;;
          _process_buf depth' c now
      end
  end.

(** [_service_read]; [recv] is what [sock.recv(1024)] does: [Some data], or
    [None] for an [OSError]. *)
Definition _service_read (c : nat) (recv : option bytes) (now : Z)
    (depth : nat) : M server unit :=
  match recv with
  | Some (x :: recv_data) =>
      update c (fun cl => set_inb (inb cl ++ x :: recv_data) cl);;
      do s <- get_state;;
      let buf_size := Z.of_nat (length (inb (deref s c))) in
      if decide (buf_size > IN_BUFFER_LIMIT) then
        print VERBOSITY_WARNING "IN_BUFFER_LIMIT exceeded. Closing";;
        disconnect c
      else _process_buf depth c now
  | Some [] =>
      print VERBOSITY_INFO "Client disconnected. Closing";;
      disconnect c
  | None =>
      print VERBOSITY_WARNING "Read connection error. Closing";;
      disconnect c
  end.

(** [for client in self.clients: body(client)], where [body] may remove
    elements: the loop reads position [i] of the list as it is then, and
    stops at its end. The list does not grow meanwhile, so as many steps as
    it has elements at the start are enough ([for_clients_from_enough]).
    The results of the bodies are collected. *)
Fixpoint for_clients_from {A} (steps i : nat) (body : nat -> M server (list A))
  : M server (list A) :=
  match steps with
  | O => ret []
  | S steps' =>
      do s <- get_state;;
      match clients s !! i with
      | None => ret []
      | Some c =>
          do xs <- body c;;
          do ys <- for_clients_from steps' (S i) body;;
          ret (xs ++ ys)
      end
  end.

Definition for_clients {A} (body : nat -> M server (list A))
  : M server (list A) :=
  do s <- get_state;;
  for_clients_from (length (clients s)) 0 body.

(** [_write_all]; [send c] is what [sock.send] does on the socket of [c]:
    [Some k] accepts [k] bytes, [None] is an [OSError]. *)
Definition _write_all (send : nat -> option nat) : M server unit :=
  for_clients (fun c =>
    do s <- get_state;;
    match outb (deref s c) with
    | [] => ret []
    | _ :: _ =>
        match send c with
        | Some sent =>
            update c (fun cl => set_outb (drop sent (outb cl)) cl);;
            ret []
        | None =>
            print VERBOSITY_WARNING "Write connection error. Closing";;
            disconnect c;;
            ret ([] : list unit)
        end
    end);;
  ret tt.

Definition _service_connection (c : nat) (recv : option bytes)
    (send : nat -> option nat) (now : Z) (depth : nat) : M server unit :=
  _service_read c recv now depth;;
  _write_all send.

(** [disconnect_if_timeout]: the addresses of the clients it closed. *)
Definition disconnect_if_timeout (now : Z) : M server (list string) :=
  for_clients (fun c =>
    do s <- get_state;;
    if decide (watchDog (deref s c) < now - 5 * second)
    then disconnect c;; ret [ip (deref s c)]
    else ret []).

(** What one iteration of the main loop reacts to. *)
Inductive event : Type :=
| Accept (ip : string) (now : Z)
| Service (c : nat) (recv : option bytes) (send : nat -> option nat)
    (now : Z) (depth : nat)
| Timeout (now : Z).

Definition handle (e : event) : M server unit :=
  match e with
  | Accept ip now => _accept_connection ip now;; ret tt
  | Service c recv send now depth => _service_connection c recv send now depth
  | Timeout now => disconnect_if_timeout now;; ret tt
  end.

(** The server after a sequence of events, from [s] on. An exception ends
    the process; the state it leaves is kept. *)
Definition run (evs : list event) (s : server) : server :=
  fold_left (fun s e => (handle e s).2) evs s.

End NetServer.


(** * Vocabulary of the codec properties *)

(** What may follow a value: nothing, a comma or a closing bracket. *)
Definition delimited (rest : string) : Prop :=
  match rest with
  | "" => True
  | String c _ => c = ","%char \/ c = "]"%char \/ c = "}"%char
  end.

Fixpoint json_size (v : json) : nat :=
  match v with
  | JList l =>
      S ((fix go (l : list json) : nat :=
            match l with
            | [] => O
            | x :: r => S (json_size x + go r)
            end) l)
  | JDict d =>
      S ((fix go (d : list (string * json)) : nat :=
            match d with
            | [] => O
            | kv :: r => S (json_size kv.2 + go r)
            end) d)
  | _ => 1%nat
  end.

(** A value in which no [dict] repeats a key. *)
Fixpoint wf_json (v : json) : Prop :=
  match v with
  | JList l =>
      (fix go (l : list json) : Prop :=
         match l with
         | [] => True
         | x :: r => wf_json x /\ go r
         end) l
  | JDict d =>
      NoDup (map fst d)
      /\ (fix go (d : list (string * json)) : Prop :=
            match d with
            | [] => True
            | kv :: r => wf_json kv.2 /\ go r
            end) d
  | _ => True
  end.

Definition items_size (l : list json) : nat :=
  list_sum (map (fun x => S (json_size x)) l).

Definition members_size (d : list (string * json)) : nat :=
  list_sum (map (fun kv => S (json_size kv.2)) d).

Fixpoint json_rect' (P : json -> Prop)
    (HNull : P JNull) (HBool : forall v, P (JBool v))
    (HInt : forall n, P (JInt n)) (HStr : forall s, P (JStr s))
    (HList : forall l, Forall P l -> P (JList l))
    (HDict : forall d, Forall (fun kv => P kv.2) d -> P (JDict d))
    (v : json) : P v :=
  match v with
  | JNull => HNull
  | JBool v => HBool v
  | JInt n => HInt n
  | JStr s => HStr s
  | JList l =>
      HList l
        ((fix go (l : list json) : Forall P l :=
            match l with
            | [] => @List.Forall_nil _ P
            | x :: r =>
                @List.Forall_cons _ P x r
                  (json_rect' P HNull HBool HInt HStr HList HDict x) (go r)
            end) l)
  | JDict d =>
      HDict d
        ((fix go (d : list (string * json)) : Forall (fun kv => P kv.2) d :=
            match d with
            | [] => @List.Forall_nil _ (fun kv => P kv.2)
            | kv :: r =>
                @List.Forall_cons _ (fun kv => P kv.2) kv r
                  (json_rect' P HNull HBool HInt HStr HList HDict kv.2) (go r)
            end) d)
  end.

(** The text of the elements of a list from the element [x] on, up to [rest]
    after the closing bracket; and the text of the members of a dict after
    the opening quote of the key of [kv]. *)
Fixpoint items_text (x : json) (xs : list json) (rest : string) : string :=
  json_dumps x
  +:+ match xs with
      | [] => String "]" rest
      | y :: ys => String "," (String " " (items_text y ys rest))
      end.

Fixpoint members_text (kv : string * json) (d : list (string * json))
    (rest : string) : string :=
  escape kv.1
  +:+ String dquote (String ":" (String " "
        (json_dumps kv.2
         +:+ match d with
             | [] => String "}" rest
             | kv' :: d' =>
                 String "," (String " "
                   (String dquote (members_text kv' d' rest)))
             end))).

(** What the induction hypothesis says of a value. *)
Definition parses_back (v : json) : Prop :=
  wf_json v ->
  forall fuel rest,
    (json_size v <= fuel)%nat -> delimited rest ->
    scan_once fuel (json_dumps v +:+ rest) = Some (v, rest).

(** A frame a party with address [my_addr] can send: one byte each for
    destination, own address, type and meta (when given), a payload in which
    no dict repeats a key, and a total length that fits the length field. *)
Definition valid_frame (my_addr : bytes) (f : Net.frame) : Prop :=
  length (Net.f_dest f) = 1%nat
  /\ length my_addr = 1%nat
  /\ length (Net.f_type f) = 1%nat
  /\ match Net.f_meta f with
     | Some m => length m = 1%nat
     | None => True
     end
  /\ match Net.f_data f with
     | Some v =>
         wf_json v
         /\ Net.HEADER_SIZE + Z.of_nat (length (Net._dumps v)) < 2 ^ 32
     | None => True
     end.

(** * Concrete runs *)

Module Scenario.
Import Net.

(** The bytes of a frame, empty if it cannot be encoded. *)
Definition encoded (my_addr : bytes) (f : frame) : bytes :=
  match _encode_frame my_addr f with
  | Ok r => r.1
  | Raise _ => []
  end.

Definition auth_frame (sender : bytes) (name group : string) : bytes :=
  encoded sender
    {| f_dest := SERVER_ADDR; f_type := FRAME_TYPE_AUTH;
       f_data := Some (JDict [("name", JStr name); ("group", JStr group)]);
       f_meta := None |}.

Definition heart_frame (sender : bytes) : bytes :=
  encoded sender
    {| f_dest := SERVER_ADDR; f_type := FRAME_TYPE_HEART;
       f_data := Some JNull; f_meta := None |}.

Definition envelope (title : string) (content : json) (queue : bool) : json :=
  JDict [("title", JStr title); ("content", content); ("queue", JBool queue)].

Definition data_frame (dest sender : bytes) (envelopes : list json) : bytes :=
  encoded sender
    {| f_dest := dest; f_type := FRAME_TYPE_DATA;
       f_data := Some (JList envelopes); f_meta := None |}.

(** A server for the group "g" to which "host" and "bob" have connected
    and authenticated, in this order, at time 0. *)
Definition two_peers : NetServer.server :=
  let s0 := NetServer.__init__ NetServer.builtin_names ["g"] in
  let s1 := (NetServer._accept_connection "10.0.0.1" 0 s0).2 in
  let s2 := (NetServer._accept_connection "10.0.0.2" 0 s1).2 in
  let s3 := (NetServer._service_read 0
               (Some (auth_frame UNKNOWN_ADDR "host" "g")) 0 10 s2).2 in
  (NetServer._service_read 1
     (Some (auth_frame UNKNOWN_ADDR "bob" "g")) 0 10 s3).2.

(** The same server after "host" sent a heartbeat at time 4 s. *)
Definition host_alive : NetServer.server :=
  (NetServer._service_read 0 (Some (heart_frame [x01])) (4 * second) 10
     two_peers).2.

(** An AUTH frame for an unknown group, with the sender byte 255. *)
Definition stray_auth : bytes := auth_frame UNKNOWN_ADDR "host" "nowhere".

(** The node "bob" after [connect]. *)
Definition bob : NetNode.node :=
  (NetNode.connect "bob" "g" 0 [Some 1024%nat] (NetNode.__init__ 0)).2.

(** 1024 received bytes: the first four announce a frame of 2^31 - 1
    bytes. *)
Definition flood_chunk : bytes := [x7f; xff; xff; xff] ++ repeat x00 1020.

(** "bob" once the server told it that "host" has address 1 and "bob"
    address 2. *)
Definition bob_with_host : NetNode.node :=
  NetNode.set_my_addr [x02]
    (NetNode.set_peers [(KStr "host", [x01]); (KStr "bob", [x02])] bob).

End Scenario.

(** * Vocabulary of the specification *)

Module ServerSpec.
Import NetServer.

(** A client of the list that has passed AUTH. *)
Definition authenticated (s : server) (c : nat) : Prop :=
  c ∈ clients s /\ group (deref s c) <> "".

(** Some client of the list holds address [a] in group [g]. *)
Definition held (s : server) (g : string) (a : bytes) : Prop :=
  exists c, c ∈ clients s /\ group (deref s c) = g /\ addr (deref s c) = a.

(** One byte whose value is in [1..254]. *)
Definition valid_addr (a : bytes) : Prop :=
  exists k, 1 <= k <= 254 /\ a = be_bytes 1 k.

Definition addresses_distinct (s : server) : Prop :=
  forall c c',
    authenticated s c -> authenticated s c' ->
    group (deref s c) = group (deref s c') ->
    addr (deref s c) = addr (deref s c') ->
    c = c'.

Definition addresses_valid (s : server) : Prop :=
  forall c, authenticated s c -> valid_addr (addr (deref s c)).

(** What every state of a running server satisfies: the list holds each
    client once, sockets are numbered below [next_sock], and the addresses
    of a group are valid and distinct. *)
Definition well_formed (s : server) : Prop :=
  NoDup (clients s)
  /\ (forall c, c ∈ clients s -> (c < next_sock s)%nat)
  /\ addresses_distinct s
  /\ addresses_valid s.

(** An update of a client dict that keeps group and address. *)
Definition keeps_addressing (f : client -> client) : Prop :=
  forall cl, group (f cl) = group cl /\ addr (f cl) = addr cl.

(** The frame is appended to the output buffer. *)
Definition queue_frame (frame : bytes) (cl : client) : client :=
  set_outb (outb cl ++ frame) cl.

(** The three assignments that end a successful AUTH. *)
Definition assigned (c : nat) (nm : json) (g : string) (a : bytes)
    (s : server) : server :=
  set_heap (alter (set_addr a) c
             (alter (set_group g) c (alter (set_name nm) c (heap s)))) s.



End ServerSpec.

Module NodeSpec.
Import NetNode.

(** The contents kept for a sender and a title, oldest first; none when
    the store has no entry for the pair. *)
Definition stored (sender title : pykey) (n : node) : list json :=
  match in_data n !! sender with
  | Some titles => default [] (titles !! title)
  | None => []
  end.

(** What touches the inbound store: an envelope of a DATA frame handed to
    the loop body of [_process_dataframe] for the sender name [sender], and
    the two reading methods. *)
Inductive op : Type :=
| Put (sender : pykey) (message : json)
| Get (sender title : string) (clear : bool)
| GetAll (sender title : string) (clear : bool).

Definition apply (o : op) (n : node) : node :=
  match o with
  | Put sender message => (store_message sender message n).2
  | Get sender title clear => (get_msg sender title clear n).2
  | GetAll sender title clear => (get_all_msgs sender title clear n).2
  end.

Definition run (ops : list op) (n : node) : node :=
  fold_left (fun n o => apply o n) ops n.

(** Title key, content and queue flag of an envelope that has the three
    fields and a title that can be a key. *)
Definition envelope_of (message : json) : option (pykey * json * bool) :=
  match subscript message "title", subscript message "content",
        subscript message "queue" with
  | Ok title, Ok content, Ok queue =>
      match hash_key title with
      | Ok k => Some (k, content, truthy queue)
      | Raise _ => None
      end
  | _, _, _ => None
  end.

(** The specification's rule for one pair: an envelope with [queue] set is
    appended, one without replaces what is there, a clearing [get_msg] takes
    the oldest content away and a clearing [get_all_msgs] everything. *)
Definition step (sender title : pykey) (o : op) (q : list json) : list json :=
  match o with
  | Put sender' message =>
      match envelope_of message with
      | Some (title', content, queue) =>
          if decide (sender' = sender /\ title' = title)
          then if queue then q ++ [content] else [content]
          else q
      | None => q
      end
  | Get sender' title' clear =>
      if decide (KStr sender' = sender /\ KStr title' = title)
      then if clear then tail q else q
      else q
  | GetAll sender' title' clear =>
      if decide (KStr sender' = sender /\ KStr title' = title)
      then if clear then [] else q
      else q
  end.

(** [o] is an envelope for the pair. *)
Definition puts (sender title : pykey) (o : op) : Prop :=
  exists message content queue,
    o = Put sender message
    /\ envelope_of message = Some (title, content, queue).

(** [o] reads the pair. *)
Definition reads (sender title : pykey) (o : op) : Prop :=
  exists s t clear,
    KStr s = sender /\ KStr t = title
    /\ (o = Get s t clear \/ o = GetAll s t clear).

End NodeSpec.

(** * Vocabulary of the further properties *)

Module StreamSpec.
Import Net NetNode.

(** The method neither reads nor writes the input buffer. *)
Definition ignores_inBuf {A} (m : M node A) : Prop :=
  forall data n, m (set_inBuf data n) = ((m n).1, set_inBuf data (m n).2).

(** A frame whose first four bytes give its own length, header included. *)
Definition framed (frame : bytes) : Prop :=
  (11 <= length frame)%nat
  /\ from_bytes (slice 0 4 frame) = Z.of_nat (length frame).

(** A buffer in which [_get_frame] finds no frame yet. *)
Definition incomplete (tail : bytes) : Prop := _get_frame tail = (None, tail).

End StreamSpec.

Module SendSpec.
Import Net NetNode.

(** The value fits a frame: its length field can hold the total length. *)
Definition fits (v : json) : Prop :=
  HEADER_SIZE + Z.of_nat (length (_dumps v)) < 2 ^ 32.

(** The DATA frame a node with address [sender] makes of the envelopes that
    wait for one destination; nothing when none waits. *)
Definition batch (sender : bytes) (p : bytes * list json) : bytes :=
  match p.2 with
  | [] => []
  | _ :: _ => Scenario.data_frame p.1 sender p.2
  end.

(** [out_data] with every list emptied. *)
Definition cleared (pending : list (bytes * list json))
  : list (bytes * list json) :=
  map (fun p => (p.1, [])) pending.

(** The number of bytes the successive [socket.send] calls accept, up to
    the first that would block. *)
Fixpoint accepted (sends : list (option nat)) : nat :=
  match sends with
  | Some k :: sends' => (k + accepted sends')%nat
  | _ => O
  end.

End SendSpec.

Module DeliverySpec.
Import NetServer.

(** The key under which a node files a client of the PEERS frame. *)
Definition peer_key (cl : client) : pykey :=
  match hash_key (name cl) with
  | Ok k => k
  | Raise _ => KNone
  end.

(** The peer map a PEERS frame for the group [g] stands for. *)
Definition peer_map (g : string) (s : server) : list (pykey * bytes) :=
  dict_of_pairs
    (map (fun c => (peer_key (deref s c), addr (deref s c)))
       (_get_clients_by_group g s)).

(** The PEERS frame the server makes for the group [g]. *)
Definition peers_frame (g : string) (s : server) : bytes :=
  Scenario.encoded (my_addr s)
    {| Net.f_dest := Net.ALL_CLIENTS; Net.f_type := Net.FRAME_TYPE_PEERS;
       Net.f_data := Some (_get_peers_list g s); Net.f_meta := None |}.

(** The SYSM frame that tells a client with address [dest] its name. *)
Definition sysm_name_frame (sender dest : bytes) (nm : string) : bytes :=
  Scenario.encoded sender
    {| Net.f_dest := dest; Net.f_type := Net.FRAME_TYPE_SYSM;
       Net.f_data := Some (JDict [("type", JInt Net.SYSM_TYPE_NAME);
                                  ("msg", JNull); ("data", JStr nm)]);
       Net.f_meta := None |}.

End DeliverySpec.

Module RelaySpec.
Import NetServer.

(** An update of a client dict that leaves its watchdog time alone. *)
Definition keeps_watchdog (f : client -> client) : Prop :=
  forall cl, watchDog (f cl) = watchDog cl.

(** The AUTH request for the name [nm] and the group [g] is turned down
    whatever addresses are free: [g] is not the name of an allowed group,
    or [nm] is not the empty string and a client of the list has it in the
    group [g] already. *)
Definition refused (s : server) (nm g : json) : Prop :=
  match g with
  | JStr group =>
      group ∉ groups s
      \/ (py_eq nm (JStr "") = false
          /\ exists c', c' ∈ clients s
                        /\ NetServer.group (deref s c') = group
                        /\ py_eq (name (deref s c')) nm = true)
  | _ => True
  end.

End RelaySpec.

(** * Properties *)

(** ** Reasoning about methods *)

Section Preservation.
Context {S : Type}.
Implicit Types I : S -> Prop.

Lemma preserves_ret {A} I (a : A) : preserves I (ret a).
Proof. by intros s Hs. Qed.

Lemma preserves_raise {A} I e : preserves I (raise e : M S A).
Proof. by intros s Hs. Qed.

Lemma preserves_lift {A} I (r : result A) : preserves I (lift r).
Proof. by intros s Hs. Qed.

Lemma preserves_get_state I : preserves I get_state.
Proof. by intros s Hs. Qed.

Lemma preserves_modify I (f : S -> S) :
  (forall s, I s -> I (f s)) -> preserves I (modify f).
Proof. intros Hf s Hs. by apply Hf. Qed.

Lemma preserves_bind {A B} I (m : M S A) (k : A -> M S B) :
  preserves I m -> (forall a, preserves I (k a)) -> preserves I (bind m k).
Proof.
  intros Hm Hk s Hs. unfold bind. specialize (Hm s Hs).
  destruct (m s) as [[a|e] s']; simpl in *; [by apply Hk | done].
Qed.

(** The continuation may rely on the state it was handed. *)
Lemma preserves_bind_get {B} (I : S -> Prop) (k : S -> M S B) :
  (forall s, I s -> I (k s s).2) -> preserves I (bind get_state k).
Proof. intros Hk s Hs. by apply Hk. Qed.

Lemma preserves_for_each {A} I (xs : list A) (body : A -> M S unit) :
  (forall x, preserves I (body x)) -> preserves I (for_each xs body).
Proof.
  intros Hb. induction xs as [|x xs IH]; simpl.
  - apply preserves_ret.
  - apply preserves_bind; auto.
Qed.
End Preservation.

(** Breaks a method into its statements. *)
Ltac preserves_step :=
  lazymatch goal with
  | |- preserves _ (bind _ _) => apply preserves_bind; [|intros ?]
  | |- preserves _ (ret _) => apply preserves_ret
  | |- preserves _ (raise _) => apply preserves_raise
  | |- preserves _ (lift _) => apply preserves_lift
  | |- preserves _ get_state => apply preserves_get_state
  | |- preserves _ (for_each _ _) => apply preserves_for_each; intros ?
  | |- preserves _ (modify _) =>
      apply preserves_modify; intros ? ?; simpl; repeat case_match; done
  | |- preserves _ (match ?x with _ => _ end) => destruct x
  | |- preserves _ (if ?x then _ else _) => destruct x
  | |- preserves _ (let '(_, _) := ?x in _) => destruct x
  end.

Ltac preserves_auto := repeat preserves_step.

Section CodecFacts.

(** ** JSON text *)

Lemma append_cons (c : ascii) (s t : string) :
  String c s +:+ t = String c (s +:+ t).
Proof. reflexivity. Qed.

Lemma append_assoc (s t u : string) : (s +:+ t) +:+ u = s +:+ (t +:+ u).
Proof.
  induction s as [|c s IH]; [done|]. by rewrite !append_cons, IH.
Qed.

Lemma append_nil_r (s : string) : s +:+ "" = s.
Proof. induction s as [|c s IH]; [done|]. by rewrite append_cons, IH. Qed.

(** *** UTF-8 *)

Lemma utf8_char (c : ascii) (r : string) :
  utf8_decode (utf8_encode (String c r))
  = String c <$> utf8_decode (utf8_encode r).
Proof. destruct c as [[] [] [] [] [] [] [] []]; reflexivity. Qed.

Lemma utf8_round_trip (s : string) : utf8_decode (utf8_encode s) = Some s.
Proof.
  induction s as [|c s IH]; [done|]. by rewrite utf8_char, IH.
Qed.

(** *** String literals *)

Lemma scanstring_escape_char (c : ascii) (tail : string) :
  scanstring (escape_char c +:+ tail) = cons_char c (scanstring tail).
Proof. destruct c as [[] [] [] [] [] [] [] []]; reflexivity. Qed.

Lemma scanstring_escape (s rest : string) :
  scanstring (escape s +:+ String dquote rest) = Some (s, rest).
Proof.
  induction s as [|c s IH]; [done|].
  cbn [escape]. by rewrite append_assoc, scanstring_escape_char, IH.
Qed.

(** *** Numbers *)

Lemma delimited_no_digit rest :
  delimited rest ->
  match rest with String c _ => is_digit c = false | "" => True end.
Proof. destruct rest as [|c r]; [done|]. by intros [->|[->| ->]]. Qed.

Lemma delimited_no_frac rest : delimited rest -> starts_frac_or_exp rest = false.
Proof. destruct rest as [|c r]; [done|]. by intros [->|[->| ->]]. Qed.

Lemma delimited_skip_ws rest : delimited rest -> skip_ws rest = rest.
Proof. destruct rest as [|c r]; [done|]. by intros [->|[->| ->]]. Qed.

Lemma span_digits_uint (u : Decimal.uint) (rest : string) :
  match rest with String c _ => is_digit c = false | "" => True end ->
  span_digits (NilEmpty.string_of_uint u +:+ rest)
  = (NilEmpty.string_of_uint u, rest).
Proof.
  intros Hrest. induction u as [|u IH|u IH|u IH|u IH|u IH|u IH|u IH|u IH|u IH|u IH];
    cbn [NilEmpty.string_of_uint];
    [|rewrite append_cons; cbn [span_digits]; rewrite IH; reflexivity ..].
  destruct rest as [|c r]; [done|]. change ("" +:+ String c r) with (String c r).
  cbn [span_digits]. by rewrite Hrest.
Qed.

Lemma unorm_D0 (d d' : Decimal.uint) :
  Decimal.unorm d = Decimal.D0 d' -> d' = Decimal.Nil.
Proof.
  induction d; simpl; try discriminate; [|done].
  by intros [= <-].
Qed.

(** The decimal digits of a positive number do not start with 0. *)
Lemma to_uint_head (p : positive) :
  match Pos.to_uint p with
  | Decimal.Nil | Decimal.D0 _ => False
  | _ => True
  end.
Proof.
  pose proof (DecimalPos.Unsigned.to_of (Pos.to_uint p)) as H.
  rewrite DecimalPos.Unsigned.of_to in H. simpl in H.
  pose proof (DecimalPos.Unsigned.to_uint_nonzero p) as Hnz.
  destruct (Pos.to_uint p) as [|d| | | | | | | | |] eqn:Hp; try done.
  simpl in H. symmetry in H. apply unorm_D0 in H as ->. by apply Hnz.
Qed.

Lemma match_integer_digits (u : Decimal.uint) (sign rest : string) :
  match u with Decimal.Nil | Decimal.D0 _ => False | _ => True end ->
  match rest with String c _ => is_digit c = false | "" => True end ->
  (let s1 := NilEmpty.string_of_uint u +:+ rest in
   match s1 with
   | String "0" r => Some (sign +:+ "0", r)
   | String c _ =>
       if is_digit c
       then let '(ds, rest) := span_digits s1 in Some (sign +:+ ds, rest)
       else None
   | "" => None
   end) = Some (sign +:+ NilEmpty.string_of_uint u, rest).
Proof.
  intros Hu Hrest. cbv zeta.
  pose proof (span_digits_uint u rest Hrest) as Hspan.
  destruct u; try done; cbn [NilEmpty.string_of_uint] in *;
    rewrite append_cons in *; cbv beta iota;
    change (is_digit _) with true; cbv iota; by rewrite Hspan.
Qed.

Lemma match_integer_dumps (n : Z) (rest : string) :
  match rest with String c _ => is_digit c = false | "" => True end ->
  match_integer (dumps_int n +:+ rest) = Some (dumps_int n, rest).
Proof.
  intros Hrest. unfold dumps_int, match_integer.
  destruct n as [|p|p]; cbn [Z.to_int NilZero.string_of_int].
  - reflexivity.
  - pose proof (to_uint_head p) as Hp.
    assert (Hs : NilZero.string_of_uint (Pos.to_uint p)
                 = NilEmpty.string_of_uint (Pos.to_uint p))
      by (by destruct (Pos.to_uint p)).
    rewrite Hs.
    assert (Hminus : forall r,
      NilEmpty.string_of_uint (Pos.to_uint p) +:+ rest <> String "-" r).
    { intros r. destruct (Pos.to_uint p); try done;
        cbn [NilEmpty.string_of_uint]; rewrite append_cons; discriminate. }
    pose proof (match_integer_digits (Pos.to_uint p) "" rest Hp Hrest) as H.
    cbv zeta in H.
    destruct (NilEmpty.string_of_uint (Pos.to_uint p) +:+ rest) as [|c r] eqn:Hd.
    + done.
    + destruct (Ascii.eqb_spec c "-") as [->|Hc]; [by destruct (Hminus r)|].
      destruct c as [[] [] [] [] [] [] [] []]; try done; exact H.
  - pose proof (to_uint_head p) as Hp.
    assert (Hs : NilZero.string_of_uint (Pos.to_uint p)
                 = NilEmpty.string_of_uint (Pos.to_uint p))
      by (by destruct (Pos.to_uint p)).
    rewrite Hs, append_cons.
    exact (match_integer_digits (Pos.to_uint p) "-" rest Hp Hrest).
Qed.

Lemma dumps_int_parse (n : Z) :
  NilZero.int_of_string (dumps_int n) = Some (Z.to_int n).
Proof.
  unfold dumps_int. apply NilZero.isi; destruct n as [|p|p]; simpl; try done;
    intros [= H]; by apply (DecimalPos.Unsigned.to_uint_nonnil p).
Qed.

Lemma parse_number_dumps (n : Z) (rest : string) :
  delimited rest ->
  parse_number (dumps_int n +:+ rest) = Some (JInt n, rest).
Proof.
  intros Hrest. unfold parse_number.
  rewrite match_integer_dumps by (by apply delimited_no_digit).
  rewrite delimited_no_frac by done.
  by rewrite dumps_int_parse, DecimalZ.of_to.
Qed.

(** *** Values *)

Lemma json_size_list l : json_size (JList l) = S (items_size l).
Proof.
  unfold items_size. simpl. f_equal.
  induction l as [|x l IH]; simpl; [done | by rewrite IH].
Qed.

Lemma json_size_dict d : json_size (JDict d) = S (members_size d).
Proof.
  unfold members_size. simpl. f_equal.
  induction d as [|x d IH]; simpl; [done | by rewrite IH].
Qed.

Lemma wf_json_list l : wf_json (JList l) <-> Forall wf_json l.
Proof.
  simpl. induction l as [|x l IH]; [by split; [constructor|]|].
  rewrite list.Forall_cons, <- IH. done.
Qed.

Lemma wf_json_dict d :
  wf_json (JDict d) <-> NoDup (map fst d) /\ Forall (fun kv => wf_json kv.2) d.
Proof.
  simpl. apply and_iff_compat_l.
  induction d as [|x d IH]; [by split; [constructor|]|].
  rewrite list.Forall_cons, <- IH. done.
Qed.

Lemma digit_or_minus_start (c : ascii) :
  is_digit c = true \/ c = "-"%char ->
  is_ws c = false /\ Ascii.eqb c "]" = false.
Proof.
  intros [H| ->]; [|done].
  destruct c as [[] [] [] [] [] [] [] []]; done.
Qed.

Lemma dumps_int_head (n : Z) :
  exists c r, dumps_int n = String c r
              /\ (is_digit c = true \/ c = "-"%char).
Proof.
  unfold dumps_int. destruct n as [|p|p]; cbn [Z.to_int NilZero.string_of_int].
  - exists "0"%char, "". by split; [|left].
  - pose proof (to_uint_head p) as Hp.
    destruct (Pos.to_uint p); try done; eexists _, _;
      (split; [reflexivity | by left]).
  - eexists _, _. split; [reflexivity | by right].
Qed.

(** A serialised value starts with a character that is neither white
    space nor a closing bracket. *)
Lemma dumps_head (v : json) :
  exists c r, json_dumps v = String c r
              /\ is_ws c = false /\ Ascii.eqb c "]" = false.
Proof.
  destruct v as [|[]|n|s|l|d]; try (by eexists _, _).
  destruct (dumps_int_head n) as (c & r & Heq & Hc).
  exists c, r. split; [done|]. by apply digit_or_minus_start.
Qed.

Lemma skip_ws_dumps (v : json) (rest : string) :
  skip_ws (json_dumps v +:+ rest) = json_dumps v +:+ rest.
Proof.
  destruct (dumps_head v) as (c & r & -> & Hws & _).
  rewrite append_cons. cbn [skip_ws]. by rewrite Hws.
Qed.

Lemma scan_once_number (fuel : nat) (c : ascii) (r : string) :
  is_digit c = true \/ c = "-"%char ->
  scan_once (S fuel) (String c r) = parse_number (String c r).
Proof.
  intros [H| ->]; [|done].
  destruct c as [[] [] [] [] [] [] [] []]; done.
Qed.

Lemma scan_once_atoms (v : json) (fuel : nat) (rest : string) :
  match v with JList _ | JDict _ => False | _ => True end ->
  delimited rest ->
  scan_once (S fuel) (json_dumps v +:+ rest) = Some (v, rest).
Proof.
  intros Hv Hrest. destruct v as [|[]|n|s|l|d]; try done.
  - destruct (dumps_int_head n) as (c & r & Heq & Hc).
    pose proof (parse_number_dumps n rest Hrest) as Hn.
    cbn [json_dumps]. rewrite Heq, append_cons in *.
    by rewrite scan_once_number.
  - cbn [json_dumps]. unfold quote. rewrite append_cons, append_assoc.
    change (String dquote "" +:+ rest) with (String dquote rest).
    cbn [scan_once]. change (Ascii.eqb dquote dquote) with true. cbv iota.
    by rewrite scanstring_escape.
Qed.

Lemma join_items x xs rest :
  join (map json_dumps (x :: xs)) +:+ String "]" rest = items_text x xs rest.
Proof.
  revert x. induction xs as [|y ys IH]; intros x; [done|].
  change (join (map json_dumps (x :: y :: ys)))
    with (json_dumps x +:+ ", " +:+ join (map json_dumps (y :: ys))).
  rewrite !append_assoc, IH. reflexivity.
Qed.

Lemma join_members kv d rest :
  join (map (fun kv => quote kv.1 +:+ ": " +:+ json_dumps kv.2) (kv :: d))
    +:+ String "}" rest
  = String dquote (members_text kv d rest).
Proof.
  revert kv. induction d as [|kv' d IH]; intros kv.
  - cbn [map join members_text]. unfold quote.
    rewrite !append_cons, !append_assoc. reflexivity.
  - change (join (map (fun kv => quote kv.1 +:+ ": " +:+ json_dumps kv.2)
                    (kv :: kv' :: d)))
      with ((quote kv.1 +:+ ": " +:+ json_dumps kv.2) +:+ ", "
            +:+ join (map (fun kv => quote kv.1 +:+ ": " +:+ json_dumps kv.2)
                       (kv' :: d))).
    rewrite !append_assoc, IH. cbn [members_text]. unfold quote.
    rewrite !append_cons, !append_assoc. reflexivity.
Qed.

Lemma items_size_cons x xs :
  items_size (x :: xs) = S (json_size x + items_size xs).
Proof. reflexivity. Qed.

Lemma members_size_cons kv d :
  members_size (kv :: d) = S (json_size kv.2 + members_size d).
Proof. reflexivity. Qed.

Lemma skip_ws_space (r : string) : skip_ws (String " " r) = skip_ws r.
Proof. reflexivity. Qed.

Lemma skip_ws_items x xs rest :
  skip_ws (items_text x xs rest) = items_text x xs rest.
Proof. destruct xs; cbn [items_text]; apply skip_ws_dumps. Qed.

Lemma parse_items_text x xs :
  Forall parses_back (x :: xs) -> Forall wf_json (x :: xs) ->
  forall fuel rest,
    (items_size (x :: xs) <= fuel)%nat ->
    parse_items fuel (items_text x xs rest) = Some (x :: xs, rest).
Proof.
  revert x. induction xs as [|y ys IH]; intros x HP Hwf fuel rest Hfuel;
    apply list.Forall_cons in HP as [Hx HP];
    apply list.Forall_cons in Hwf as [Hwx Hwf];
    rewrite items_size_cons in Hfuel;
    (destruct fuel as [|fuel]; [lia|]);
    cbn [parse_items items_text].
  - rewrite (Hx Hwx fuel (String "]" rest)); [done | lia | by right; left].
  - rewrite (Hx Hwx fuel); [| lia | by left].
    change (skip_ws (String "," ?r)) with (String "," r). cbv iota.
    change (Ascii.eqb "," "]") with false.
    change (Ascii.eqb "," ",") with true. cbv iota.
    rewrite skip_ws_space, skip_ws_items.
    rewrite (IH y HP Hwf fuel rest); [done | lia].
Qed.

Lemma parse_members_text kv d :
  Forall (fun kv => parses_back kv.2) (kv :: d) ->
  Forall (fun kv => wf_json kv.2) (kv :: d) ->
  forall fuel rest,
    (members_size (kv :: d) <= fuel)%nat ->
    parse_members fuel (members_text kv d rest) = Some (kv :: d, rest).
Proof.
  revert kv. induction d as [|kv' d IH]; intros [k v] HP Hwf fuel rest Hfuel;
    apply list.Forall_cons in HP as [Hx HP];
    apply list.Forall_cons in Hwf as [Hwx Hwf];
    rewrite members_size_cons in Hfuel; simpl in Hx, Hwx, Hfuel;
    (destruct fuel as [|fuel]; [lia|]);
    cbn [parse_members members_text fst snd];
    rewrite scanstring_escape;
    change (skip_ws (String ":" ?r)) with (String ":" r); cbv iota;
    change (Ascii.eqb ":" ":") with true; cbv iota;
    rewrite skip_ws_space, skip_ws_dumps.
  - rewrite (Hx Hwx fuel (String "}" rest)); [done | lia | by right; right].
  - rewrite (Hx Hwx fuel); [| lia | by left].
    change (skip_ws (String "," ?r)) with (String "," r). cbv iota.
    change (Ascii.eqb "," "}") with false.
    change (Ascii.eqb "," ",") with true. cbv iota.
    rewrite skip_ws_space.
    change (skip_ws (String dquote ?r)) with (String dquote r). cbv iota.
    change (Ascii.eqb dquote dquote) with true. cbv iota.
    rewrite (IH kv' HP Hwf fuel rest); [done | lia].
Qed.

Lemma assoc_set_fresh {A} (k : string) (v : A) (d : list (string * A)) :
  k ∉ map fst d -> assoc_set k v d = d ++ [(k, v)].
Proof.
  induction d as [|[k' v'] d IH]; [done|]. cbn [map fst assoc_set].
  intros Hk. apply not_elem_of_cons in Hk as [Hne Hk].
  destruct (decide (k' = k)); [congruence|]. by rewrite IH.
Qed.

Lemma dict_of_pairs_acc {A} (d acc : list (string * A)) :
  NoDup (map fst (acc ++ d)) ->
  fold_left (fun d kv => assoc_set kv.1 kv.2 d) d acc = acc ++ d.
Proof.
  revert acc. induction d as [|[k v] d IH]; intros acc Hnd; cbn [fold_left].
  - by rewrite app_nil_r.
  - rewrite assoc_set_fresh.
    + rewrite IH; rewrite <- app_assoc; [done|]. exact Hnd.
    + rewrite map_app in Hnd. apply list.NoDup_app in Hnd as (_ & Hdis & _).
      intros Hin. apply (Hdis k Hin). cbn [map fst]. apply elem_of_cons. by left.
Qed.

Lemma dict_of_pairs_nodup {A} (d : list (string * A)) :
  NoDup (map fst d) -> dict_of_pairs d = d.
Proof. intros Hnd. unfold dict_of_pairs. by rewrite dict_of_pairs_acc. Qed.

(** Parsing the text of a value gives the value back. *)
Lemma scan_once_dumps (v : json) : parses_back v.
Proof.
  induction v as [| | | |l IH|d IH] using json_rect';
    intros Hwf fuel rest Hfuel Hrest;
    try (destruct fuel as [|fuel]; [simpl in Hfuel; lia|];
         by apply scan_once_atoms).
  - rewrite json_size_list in Hfuel. destruct fuel as [|fuel]; [lia|].
    apply wf_json_list in Hwf.
    destruct l as [|x xs]; [done|].
    cbn [json_dumps]. rewrite !append_assoc.
    change ("]" +:+ rest) with (String "]" rest). rewrite join_items.
    change ("[" +:+ ?t) with (String "[" t).
    cbn [scan_once]. change (Ascii.eqb "[" dquote) with false.
    change (Ascii.eqb "[" "{") with false.
    change (Ascii.eqb "[" "[") with true. cbv iota.
    rewrite skip_ws_items.
    destruct (dumps_head x) as (c & r & Hc & _ & Hclose).
    assert (Hhead : exists r', items_text x xs rest = String c r').
    { destruct xs; cbn [items_text]; rewrite Hc, append_cons; by eexists. }
    destruct Hhead as [r' Hr']. rewrite Hr', Hclose, <- Hr'.
    rewrite (parse_items_text x xs IH Hwf fuel rest); [done | lia].
  - rewrite json_size_dict in Hfuel. destruct fuel as [|fuel]; [lia|].
    apply wf_json_dict in Hwf as [Hnd Hwf].
    destruct d as [|kv d]; [done|].
    cbn [json_dumps]. rewrite !append_assoc.
    change ("}" +:+ rest) with (String "}" rest). rewrite join_members.
    change ("{" +:+ ?t) with (String "{" t).
    cbn [scan_once]. change (Ascii.eqb "{" dquote) with false.
    change (Ascii.eqb "{" "{") with true. cbv iota.
    change (skip_ws (String dquote ?r)) with (String dquote r). cbv iota.
    change (Ascii.eqb dquote "}") with false.
    change (Ascii.eqb dquote dquote) with true. cbv iota.
    rewrite (parse_members_text kv d IH Hwf fuel rest); [|lia].
    by rewrite dict_of_pairs_nodup.
Qed.

(** *** The depth bound of [json_loads] is enough *)

Lemma length_append (s t : string) :
  String.length (s +:+ t) = (String.length s + String.length t)%nat.
Proof.
  induction s as [|c s IH]; [done|]. rewrite append_cons. simpl. by rewrite IH.
Qed.

Lemma sum_le_join {A} (w : A -> nat) (t : A -> string) (l : list A) :
  Forall (fun x => (w x <= 2 * String.length (t x) + 1)%nat) l ->
  (list_sum (map w l) <= 2 * String.length (join (map t l)) + 1)%nat.
Proof.
  induction 1 as [|x l Hx Hl IH]; [simpl; lia|].
  destruct l as [|y l]; [simpl in *; lia|].
  change (join (map t (x :: y :: l)))
    with (t x +:+ ", " +:+ join (map t (y :: l))).
  change (list_sum (map w (x :: y :: l)))
    with (w x + list_sum (map w (y :: l)))%nat.
  rewrite !length_append. change (String.length ", ") with 2%nat. lia.
Qed.

Lemma json_size_bound (v : json) :
  (json_size v <= 2 * String.length (json_dumps v))%nat.
Proof.
  induction v as [| | | |l IH|d IH] using json_rect'.
  - simpl. lia.
  - destruct v; simpl; lia.
  - destruct (dumps_int_head n) as (c & r & Heq & _).
    cbn [json_dumps json_size]. rewrite Heq. simpl. lia.
  - cbn [json_dumps json_size]. unfold quote. simpl. lia.
  - rewrite json_size_list. cbn [json_dumps]. rewrite !length_append.
    change (String.length "[") with 1%nat.
    change (String.length "]") with 1%nat.
    pose proof (sum_le_join (fun x => S (json_size x)) json_dumps l) as H.
    unfold items_size. cut (list_sum (map (fun x => S (json_size x)) l)
      <= 2 * String.length (join (map json_dumps l)) + 1)%nat; [lia|].
    apply H. eapply list.Forall_impl; [exact IH|]. simpl. intros x Hx. lia.
  - rewrite json_size_dict. cbn [json_dumps]. rewrite !length_append.
    change (String.length "{") with 1%nat.
    change (String.length "}") with 1%nat.
    pose proof (sum_le_join (fun kv : string * json => S (json_size kv.2))
                  (fun kv => quote kv.1 +:+ ": " +:+ json_dumps kv.2) d) as H.
    unfold members_size.
    cut (list_sum (map (fun kv : string * json => S (json_size kv.2)) d)
      <= 2 * String.length
               (join (map (fun kv => quote kv.1 +:+ ": " +:+ json_dumps kv.2) d))
         + 1)%nat; [lia|].
    apply H. eapply list.Forall_impl; [exact IH|]. simpl. intros x Hx.
    rewrite !length_append. lia.
Qed.

(** [json.loads(json.dumps(v))] is [v]. *)
Lemma json_loads_dumps (v : json) :
  wf_json v -> json_loads (json_dumps v) = Some v.
Proof.
  intros Hwf. unfold json_loads.
  pose proof (skip_ws_dumps v "") as Hskip. rewrite append_nil_r in Hskip.
  rewrite Hskip.
  pose proof (scan_once_dumps v Hwf
                (2 * String.length (json_dumps v) + 2)%nat "") as Hscan.
  rewrite append_nil_r in Hscan. rewrite Hscan; [done| |done].
  pose proof (json_size_bound v). lia.
Qed.

Lemma loads_dumps (v : json) : wf_json v -> Net._loads (Net._dumps v) = Ok v.
Proof.
  intros Hwf. unfold Net._loads, Net._dumps.
  by rewrite utf8_round_trip, json_loads_dumps.
Qed.

(** ** Frames *)

Lemma byte_of_to (k : Z) :
  0 <= k < 256 -> Z.of_N (Byte.to_N (byte_of_N (Z.to_N k))) = k.
Proof.
  intros Hk. unfold byte_of_N.
  destruct (Byte.of_N (Z.to_N k)) as [x|] eqn:Hx.
  - apply Byte.to_of_N in Hx. simpl. rewrite Hx. lia.
  - apply Byte.of_N_None_iff in Hx. lia.
Qed.

Lemma from_bytes_snoc (l : bytes) (x : byte) :
  from_bytes (l ++ [x]) = from_bytes l * 256 + Z.of_N (Byte.to_N x).
Proof. unfold from_bytes. by rewrite fold_left_app. Qed.

Lemma from_bytes_be_bytes (n : nat) (v : Z) :
  from_bytes (be_bytes n v) = v mod 256 ^ Z.of_nat n.
Proof.
  revert v. induction n as [|n IH]; intros v.
  - simpl. by rewrite Z.mod_1_r.
  - cbn [be_bytes]. rewrite from_bytes_snoc, IH.
    change (default x00 (Byte.of_N ?k)) with (byte_of_N k).
    rewrite byte_of_to by (apply Z.mod_pos_bound; lia).
    rewrite Nat2Z.inj_succ, Z.pow_succ_r by lia.
    rewrite (Z.rem_mul_r v 256 (256 ^ Z.of_nat n)) by lia. lia.
Qed.

Lemma length_be_bytes (n : nat) (v : Z) : length (be_bytes n v) = n.
Proof.
  revert v. induction n as [|n IH]; intros v; [done|].
  cbn [be_bytes]. rewrite length_app, IH. simpl. lia.
Qed.


(** *** The depth bound of [json_loads] is enough for every text *)

Lemma skip_ws_length (s : string) :
  (String.length (skip_ws s) <= String.length s)%nat.
Proof.
  induction s as [|c s IH]; [done|]. cbn [skip_ws].
  destruct (is_ws c); simpl; lia.
Qed.

Lemma cons_char_Some c x str r :
  cons_char c x = Some (str, r) -> exists str', x = Some (str', r).
Proof. destruct x as [[str' r']|]; [|done]. intros [= _ ->]. by eexists. Qed.

Lemma scanstring_length (n : nat) (s str r : string) :
  (String.length s <= n)%nat ->
  scanstring s = Some (str, r) ->
  (String.length r < String.length s)%nat.
Proof.
  revert s str r. induction n as [|n IH]; intros s str r Hn;
    destruct s as [|c s]; try done; [simpl in Hn; lia|].
  cbn [scanstring]. simpl in Hn.
  destruct (Ascii.eqb c dquote); [intros [= _ ->]; simpl; lia|].
  destruct (Ascii.eqb c backslash).
  - destruct s as [|e s1]; [done|]. destruct (Ascii.eqb e "u").
    + destruct s1 as [|h1 [|h2 [|h3 [|h4 r2]]]]; try done.
      destruct (unhex h1), (unhex h2), (unhex h3), (unhex h4); try done.
      destruct (_ <? 256)%N; [|done].
      intros H. apply cons_char_Some in H as [str' H].
      apply IH in H; simpl in *; lia.
    + destruct (unescape e); [|done].
      intros H. apply cons_char_Some in H as [str' H].
      apply IH in H; simpl in *; lia.
  - destruct (N_of_ascii c <? 32)%N; [done|].
    intros H. apply cons_char_Some in H as [str' H].
    apply IH in H; simpl in *; lia.
Qed.

Lemma span_digits_length (s ds r : string) :
  span_digits s = (ds, r) ->
  (String.length ds + String.length r = String.length s)%nat.
Proof.
  revert ds r. induction s as [|c s IH]; intros ds r; cbn [span_digits].
  - by intros [= <- <-].
  - destruct (is_digit c).
    + destruct (span_digits s) as [ds' r']. intros [= <- <-].
      specialize (IH ds' r' eq_refl). simpl. lia.
    + by intros [= <- <-].
Qed.

Lemma match_integer_length (s tok r : string) :
  match_integer s = Some (tok, r) ->
  (String.length r < String.length s)%nat.
Proof.
  unfold match_integer.
  assert (H : forall sign s1,
    match s1 with
    | String "0" r0 => Some (sign +:+ "0", r0)
    | String c _ =>
        if is_digit c
        then let '(ds, rest) := span_digits s1 in Some (sign +:+ ds, rest)
        else None
    | "" => None
    end = Some (tok, r) -> (String.length r < String.length s1)%nat).
  { intros sign s1. destruct s1 as [|c s1]; [done|].
    destruct (Ascii.eqb_spec c "0") as [->|Hc].
    - intros [= _ ->]. simpl. lia.
    - intros H.
      assert (H' : (if is_digit c
                    then let '(ds, rest) := span_digits (String c s1) in
                         Some (sign +:+ ds, rest)
                    else None) = Some (tok, r)).
      { destruct c as [[] [] [] [] [] [] [] []]; try done. }
      clear H. destruct (is_digit c) eqn:Hd; [|done].
      destruct (span_digits (String c s1)) as [ds rest] eqn:Hs.
      injection H' as _ ->. pose proof (span_digits_length _ _ _ Hs) as Hl.
      cbn [span_digits] in Hs. rewrite Hd in Hs.
      destruct (span_digits s1). injection Hs as <- _. simpl in *. lia. }
  destruct s as [|c s]; [done|].
  destruct (Ascii.eqb_spec c "-") as [->|Hc].
  - intros Hm. apply H in Hm. simpl. lia.
  - intros Hm. apply (H ""). destruct c as [[] [] [] [] [] [] [] []]; done.
Qed.

Lemma parse_number_length (s : string) (v : json) (r : string) :
  parse_number s = Some (v, r) -> (String.length r < String.length s)%nat.
Proof.
  unfold parse_number.
  destruct (match_integer s) as [[tok rest]|] eqn:Hm; [|done].
  apply match_integer_length in Hm.
  destruct (starts_frac_or_exp rest); [done|].
  destruct (NilZero.int_of_string tok); [|done]. by intros [= _ <-].
Qed.

Lemma strip_prefix_length (p s r : string) :
  strip_prefix p s = Some r ->
  (String.length r + String.length p = String.length s)%nat.
Proof.
  revert s. induction p as [|c p IH]; intros s; cbn [strip_prefix].
  - intros [= ->]. simpl. lia.
  - destruct s as [|c' s]; [done|]. destruct (Ascii.eqb c c'); [|done].
    intros H. apply IH in H. simpl. lia.
Qed.

(** Every successful call consumes at least one character. *)
Lemma scan_progress (fuel : nat) :
  (forall s v r, scan_once fuel s = Some (v, r) ->
                 (String.length r < String.length s)%nat)
  /\ (forall s vs r, parse_items fuel s = Some (vs, r) ->
                     (String.length r < String.length s)%nat)
  /\ (forall s kvs r, parse_members fuel s = Some (kvs, r) ->
                      (String.length r < String.length s)%nat).
Proof.
  induction fuel as [|fuel (IH1 & IH2 & IH3)]; [done|].
  split; [|split].
  - intros s v r. cbn [scan_once]. destruct s as [|c s0]; [done|].
    destruct (Ascii.eqb c dquote).
    { destruct (scanstring s0) as [[str rest]|] eqn:Hs; [|done].
      intros [= _ <-]. apply (scanstring_length (String.length s0)) in Hs;
        simpl; lia. }
    destruct (Ascii.eqb c "{").
    { pose proof (skip_ws_length s0) as Hw.
      destruct (skip_ws s0) as [|c1 r1]; [done|].
      destruct (Ascii.eqb c1 "}"); [intros [= _ <-]; simpl in *; lia|].
      destruct (Ascii.eqb c1 dquote); [|done].
      destruct (parse_members fuel r1) as [[pairs rest]|] eqn:Hm; [|done].
      intros [= _ <-]. apply IH3 in Hm. simpl in *. lia. }
    destruct (Ascii.eqb c "[").
    { pose proof (skip_ws_length s0) as Hw.
      destruct (skip_ws s0) as [|c1 r1]; [done|].
      destruct (Ascii.eqb c1 "]"); [intros [= _ <-]; simpl in *; lia|].
      destruct (parse_items fuel (String c1 r1)) as [[items rest]|] eqn:Hm;
        [|done].
      intros [= _ <-]. apply IH2 in Hm. simpl in *. lia. }
    destruct (Ascii.eqb c "n").
    { destruct (strip_prefix _ _) as [rest|] eqn:Hp; [|done].
      intros [= _ <-]. apply strip_prefix_length in Hp. simpl in *. lia. }
    destruct (Ascii.eqb c "t").
    { destruct (strip_prefix _ _) as [rest|] eqn:Hp; [|done].
      intros [= _ <-]. apply strip_prefix_length in Hp. simpl in *. lia. }
    destruct (Ascii.eqb c "f").
    { destruct (strip_prefix _ _) as [rest|] eqn:Hp; [|done].
      intros [= _ <-]. apply strip_prefix_length in Hp. simpl in *. lia. }
    apply parse_number_length.
  - intros s vs r. cbn [parse_items].
    destruct (scan_once fuel s) as [[v r0]|] eqn:Hv; [|done].
    apply IH1 in Hv. pose proof (skip_ws_length r0) as Hw.
    destruct (skip_ws r0) as [|c1 r1]; [done|].
    destruct (Ascii.eqb c1 "]"); [intros [= _ <-]; simpl in *; lia|].
    destruct (Ascii.eqb c1 ","); [|done].
    destruct (parse_items fuel (skip_ws r1)) as [[vs' rest]|] eqn:Hm; [|done].
    intros [= _ <-]. apply IH2 in Hm. pose proof (skip_ws_length r1).
    simpl in *. lia.
  - intros s kvs r. cbn [parse_members].
    destruct (scanstring s) as [[key r0]|] eqn:Hk; [|done].
    apply (scanstring_length (String.length s)) in Hk; [|lia].
    pose proof (skip_ws_length r0) as Hw.
    destruct (skip_ws r0) as [|c1 r1]; [done|].
    destruct (Ascii.eqb c1 ":"); [|done].
    pose proof (skip_ws_length r1) as Hw1.
    destruct (scan_once fuel (skip_ws r1)) as [[v r2]|] eqn:Hv; [|done].
    apply IH1 in Hv. pose proof (skip_ws_length r2) as Hw2.
    destruct (skip_ws r2) as [|c2 r3]; [done|].
    destruct (Ascii.eqb c2 "}"); [intros [= _ <-]; simpl in *; lia|].
    destruct (Ascii.eqb c2 ","); [|done].
    pose proof (skip_ws_length r3) as Hw3.
    destruct (skip_ws r3) as [|c3 r4]; [done|].
    destruct (Ascii.eqb c3 dquote); [|done].
    destruct (parse_members fuel r4) as [[kvs' rest]|] eqn:Hm; [|done].
    intros [= _ <-]. apply IH3 in Hm. simpl in *. lia.
Qed.

(** From the bound on, one more level of calls changes nothing. *)
Lemma scan_fuel_enough (fuel : nat) :
  (forall s, (2 * String.length s + 2 <= fuel)%nat ->
             scan_once (S fuel) s = scan_once fuel s)
  /\ (forall s, (2 * String.length s + 3 <= fuel)%nat ->
                parse_items (S fuel) s = parse_items fuel s)
  /\ (forall s, (2 * String.length s + 3 <= fuel)%nat ->
                parse_members (S fuel) s = parse_members fuel s).
Proof.
  induction fuel as [|fuel (IH1 & IH2 & IH3)];
    [repeat split; intros s Hs; lia|].
  pose proof (scan_progress fuel) as (P1 & P2 & P3).
  split; [|split]; intros s Hs;
    generalize (eq_refl (S fuel)); generalize (S fuel) at 1 3; intros g Hg.
  - cbn [scan_once]. destruct s as [|c s0]; [done|].
    pose proof (skip_ws_length s0) as Hw.
    destruct (Ascii.eqb c dquote); [done|].
    destruct (Ascii.eqb c "{").
    { destruct (skip_ws s0) as [|c1 r1]; [done|].
      destruct (Ascii.eqb c1 "}"); [done|].
      destruct (Ascii.eqb c1 dquote); [|done].
      rewrite Hg, IH3; [done|]. simpl in *. lia. }
    destruct (Ascii.eqb c "["); [|done].
    destruct (skip_ws s0) as [|c1 r1]; [done|].
    destruct (Ascii.eqb c1 "]"); [done|].
    rewrite Hg, IH2; [done|]. simpl in *. lia.
  - cbn [parse_items]. rewrite Hg, IH1 by lia.
    destruct (scan_once fuel s) as [[v r0]|] eqn:Hv; [|done].
    apply P1 in Hv. pose proof (skip_ws_length r0) as Hw.
    destruct (skip_ws r0) as [|c1 r1]; [done|].
    destruct (Ascii.eqb c1 "]"); [done|].
    destruct (Ascii.eqb c1 ","); [|done].
    pose proof (skip_ws_length r1) as Hw1.
    rewrite IH2; [done|]. simpl in *. lia.
  - cbn [parse_members].
    destruct (scanstring s) as [[key r0]|] eqn:Hk; [|done].
    apply (scanstring_length (String.length s)) in Hk; [|lia].
    pose proof (skip_ws_length r0) as Hw.
    destruct (skip_ws r0) as [|c1 r1]; [done|].
    destruct (Ascii.eqb c1 ":"); [|done].
    pose proof (skip_ws_length r1) as Hw1.
    rewrite Hg, IH1 by (simpl in *; lia).
    destruct (scan_once fuel (skip_ws r1)) as [[v r2]|] eqn:Hv; [|done].
    apply P1 in Hv. pose proof (skip_ws_length r2) as Hw2.
    destruct (skip_ws r2) as [|c2 r3]; [done|].
    destruct (Ascii.eqb c2 "}"); [done|].
    destruct (Ascii.eqb c2 ","); [|done].
    pose proof (skip_ws_length r3) as Hw3.
    destruct (skip_ws r3) as [|c3 r4]; [done|].
    destruct (Ascii.eqb c3 dquote); [|done].
    rewrite IH3; [done|]. simpl in *. lia.
Qed.

(** [json_loads] gives the same result with any larger bound. *)
Lemma json_loads_fuel (s : string) (extra : nat) :
  match scan_once (2 * String.length s + 2 + extra) (skip_ws s) with
  | Some (v, rest) =>
      match skip_ws rest with
      | "" => Some v
      | String _ _ => None
      end
  | None => None
  end = json_loads s.
Proof.
  unfold json_loads. induction extra as [|extra IH].
  - by rewrite Nat.add_0_r.
  - rewrite <- IH, Nat.add_succ_r.
    rewrite (proj1 (scan_fuel_enough _)); [done|].
    pose proof (skip_ws_length s). lia.
Qed.
End CodecFacts.


(** ** The client node *)

Section NodeFacts.
Import NetNode.

(** C10. [send_msg] to a name that is neither "ALL" nor in the peer map
    returns [False], raises nothing and leaves the node as it is: the
    pending envelopes, the output buffer and the socket are untouched. *)
Theorem send_msg_unknown_name (n : node) (name : string)
    (title content queue : json) :
  name <> "ALL" ->
  assoc_get (KStr name) (peers n) = None ->
  send_msg name title content queue n = (Ok false, n).
Proof.
  intros Hall Hpeer. unfold send_msg, bind, get_state, _get_peer_addr.
  rewrite Hpeer. by destruct (decide (name = "ALL")).
Qed.

(** C9. [disconnect] raises [TypeError] at the call of [_send_req], which
    lacks its second argument: no request is put in the output buffer and
    the socket is not closed. *)
Theorem disconnect_raises (n : node) : disconnect n = (Raise TypeError, n).
Proof. reflexivity. Qed.

(** C5. The HEART frame that [_send_heartbeat_frame] emits carries the
    four bytes [null] after its header, and its length field is 15. *)
Theorem heartbeat_frame_payload (n : node) (now : Z) :
  now > heartBeatTime n + 1 * second ->
  _send_heartbeat_frame now n =
    (Ok tt,
     set_outBuf
       (outBuf n ++ [x00; x00; x00; x0f] ++ Net.VERSION ++ Net.SERVER_ADDR
          ++ my_addr n ++ Net.FRAME_TYPE_HEART ++ [x00] ++ b "null")
       (set_heartBeatTime now n)).
Proof.
  intros Hnow. unfold _send_heartbeat_frame, bind, get_state.
  destruct (decide _) as [_|]; [|done]. reflexivity.
Qed.

(** *** Nothing on the receiving path closes the socket *)

Lemma live_socket_keeps (I : node -> Prop) : preserves I live_socket.
Proof. unfold live_socket. apply preserves_bind_get. intros s Hs.
  destruct (socket s) as [sk|]; [destruct (sock_closed sk)|]; done. Qed.

Lemma recv_loop_socket chunks x :
  preserves (fun n => socket n = x) (recv_loop chunks).
Proof.
  induction chunks as [|received chunks IH]; simpl.
  - preserves_auto. apply live_socket_keeps.
  - preserves_auto; try apply live_socket_keeps. apply IH.
Qed.

Lemma _process_frame_socket frame x :
  preserves (fun n => socket n = x) (_process_frame frame).
Proof.
  unfold _process_frame, _process_dataframe, _process_peersframe,
    _process_sysmframe, _process_sysm_name, store_message.
  preserves_auto.
Qed.

Lemma _process_inbuf_socket depth x :
  preserves (fun n => socket n = x) (_process_inbuf depth).
Proof.
  induction depth as [|depth IH]; simpl; [apply preserves_raise|].
  apply preserves_bind_get. intros s Hs.
  destruct (Net._get_frame (inBuf s)) as [[frame|] rest]; [|done].
  revert s Hs. change (preserves (fun n => socket n = x)
    (modify (set_inBuf rest);;
     (_process_frame frame;;
      do n <- get_state;;
      if decide (Z.of_nat (length (inBuf n)) > 0)
      then _process_inbuf depth else ret tt))%M).
  preserves_auto; [apply _process_frame_socket | apply IH].
Qed.

(** [process_recv] never closes the socket, whatever it receives. *)
Lemma process_recv_socket (chunks : list bytes) (depth : nat) (n : node) :
  socket (process_recv chunks depth n).2 = socket n.
Proof.
  assert (H : preserves (fun m => socket m = socket n)
                (process_recv chunks depth)).
  { unfold process_recv. preserves_auto;
      [apply recv_loop_socket | apply _process_inbuf_socket]. }
  by apply H.
Qed.

(** C7, client side. A node that has received 101 times 1024 bytes of an
    unfinished frame holds 103424 bytes in its input buffer, above
    [IN_BUFFER_LIMIT]; [process_recv] returns normally and the socket is
    still open. *)
Theorem node_keeps_reading_past_limit :
  let r := process_recv (repeat Scenario.flood_chunk 101) 100 Scenario.bob in
  r.1 = Ok tt
  /\ Z.of_nat (length (inBuf r.2)) = 103424
  /\ Z.of_nat (length (inBuf r.2)) > IN_BUFFER_LIMIT
  /\ (sock_closed <$> socket r.2) = Some false.
Proof. vm_compute. repeat split; congruence. Qed.
End NodeFacts.

Lemma send_msg_unknown_name_witness :
  NetNode.send_msg "carol" (JStr "x") (JInt 1) (JBool false)
    Scenario.bob_with_host
  = (Ok false, Scenario.bob_with_host).
Proof. apply send_msg_unknown_name; [discriminate | reflexivity]. Defined.

Lemma heartbeat_frame_payload_witness :
  NetNode.outBuf (NetNode._send_heartbeat_frame 2000 (NetNode.__init__ 0)).2
  = [x00; x00; x00; x0f; x30; x32; x30; x00; xff; x03; x00;
     x6e; x75; x6c; x6c].
Proof.
  rewrite (heartbeat_frame_payload (NetNode.__init__ 0) 2000); [reflexivity|].
  unfold second. simpl. lia.
Defined.

Section StoreFacts.
Import NetNode.
Import NodeSpec.

(** *** The inbound message store *)

(** The state [store_message] leaves, by cases on the envelope. *)
Lemma store_message_state sender message n :
  (store_message sender message n).2 =
    match subscript message "title", subscript message "content",
          subscript message "queue" with
    | Ok title, Ok content, Ok queue =>
        let n1 :=
          match in_data n !! sender with
          | None => set_in_data (<[sender := ∅]> (in_data n)) n
          | Some _ => n
          end in
        match hash_key title with
        | Ok k =>
            let titles := default ∅ (in_data n1 !! sender) in
            let q := default [] (titles !! k) in
            let q' := if truthy queue then q ++ [content] else [content] in
            set_in_data (<[sender := <[k := q']> titles]> (in_data n1)) n1
        | Raise _ => n1
        end
    | _, _, _ => n
    end.
Proof.
  unfold store_message, bind, lift, modify.
  destruct (subscript message "title") as [title|]; [|done].
  destruct (subscript message "content") as [content|]; [|done].
  destruct (subscript message "queue") as [queue|]; [|done].
  simpl. by destruct (hash_key title).
Qed.

Lemma stored_put sender title sender' message n :
  stored sender title (apply (Put sender' message) n)
  = step sender title (Put sender' message) (stored sender title n).
Proof.
  unfold apply, step, envelope_of. rewrite store_message_state.
  destruct (subscript message "title") as [t|]; [|done].
  destruct (subscript message "content") as [content|]; [|done].
  destruct (subscript message "queue") as [queue|]; [|done].
  cbv zeta. unfold stored.
  destruct (hash_key t) as [k|e].
  - destruct (in_data n !! sender') as [titles|] eqn:Hs; simpl.
    + rewrite Hs. simpl.
      destruct (decide (sender' = sender /\ k = title)) as [[? ?]|Hne];
        [subst sender title|].
      * rewrite lookup_insert_eq, Hs. simpl. by rewrite lookup_insert_eq.
      * destruct (decide (sender' = sender)) as [<-|Hne'].
        -- rewrite lookup_insert_eq, Hs. simpl.
           rewrite lookup_insert_ne; [done|]. intros ->. by apply Hne.
        -- by rewrite lookup_insert_ne.
    + rewrite lookup_insert_eq. simpl.
      destruct (decide (sender' = sender /\ k = title)) as [[? ?]|Hne];
        [subst sender title|].
      * rewrite lookup_insert_eq, Hs. simpl. rewrite lookup_insert_eq.
        simpl. by rewrite lookup_empty.
      * destruct (decide (sender' = sender)) as [<-|Hne'].
        -- rewrite lookup_insert_eq, Hs. simpl.
           rewrite lookup_insert_ne; [|intros ->; by apply Hne].
           by rewrite lookup_empty.
        -- by rewrite !lookup_insert_ne.
  - destruct (in_data n !! sender') as [titles|] eqn:Hs; simpl; [done|].
    destruct (decide (sender' = sender)) as [<-|Hne'].
    + by rewrite lookup_insert_eq, Hs.
    + by rewrite lookup_insert_ne.
Qed.

Lemma stored_get sender title s t clear n :
  stored sender title (apply (Get s t clear) n)
  = step sender title (Get s t clear) (stored sender title n).
Proof.
  unfold apply, step, get_msg, bind, get_state, modify, ret, stored.
  destruct (in_data n !! KStr s) as [titles|] eqn:Hs; simpl.
  2:{ destruct (decide (KStr s = sender /\ KStr t = title)) as [[? ?]|?];
        [subst sender title|];
        [|done]. rewrite Hs. by destruct clear. }
  destruct (titles !! KStr t) as [[|x q]|] eqn:Ht; simpl.
  - destruct (decide (KStr s = sender /\ KStr t = title)) as [[? ?]|Hne];
        [subst sender title|].
    + rewrite lookup_insert_eq, Hs. simpl. rewrite lookup_delete_eq, Ht.
      by destruct clear.
    + destruct (decide (KStr s = sender)) as [<-|Hne'].
      * rewrite lookup_insert_eq, Hs. simpl.
        rewrite lookup_delete_ne; [done|]. intros Heq. by apply Hne.
      * by rewrite lookup_insert_ne.
  - destruct clear; simpl.
    + destruct (decide (KStr s = sender /\ KStr t = title)) as [[? ?]|Hne];
        [subst sender title|].
      * rewrite lookup_insert_eq, Hs. simpl. by rewrite lookup_insert_eq, Ht.
      * destruct (decide (KStr s = sender)) as [<-|Hne'].
        -- rewrite lookup_insert_eq, Hs. simpl.
           rewrite lookup_insert_ne; [done|]. intros Heq. by apply Hne.
        -- by rewrite lookup_insert_ne.
    + by destruct (decide _).
  - destruct (decide (KStr s = sender /\ KStr t = title)) as [[? ?]|?];
        [subst sender title|];
      [|done]. rewrite Hs. simpl. rewrite Ht. by destruct clear.
Qed.

Lemma stored_get_all sender title s t clear n :
  stored sender title (apply (GetAll s t clear) n)
  = step sender title (GetAll s t clear) (stored sender title n).
Proof.
  unfold apply, step, get_all_msgs, bind, get_state, modify, ret, stored.
  destruct (in_data n !! KStr s) as [titles|] eqn:Hs; simpl.
  2:{ destruct (decide (KStr s = sender /\ KStr t = title)) as [[? ?]|?];
        [subst sender title|];
        [|done]. rewrite Hs. by destruct clear. }
  destruct (titles !! KStr t) as [[|x q]|] eqn:Ht; simpl.
  - destruct (decide (KStr s = sender /\ KStr t = title)) as [[? ?]|Hne];
        [subst sender title|].
    + rewrite lookup_insert_eq, Hs. simpl. rewrite lookup_delete_eq, Ht.
      by destruct clear.
    + destruct (decide (KStr s = sender)) as [<-|Hne'].
      * rewrite lookup_insert_eq, Hs. simpl.
        rewrite lookup_delete_ne; [done|]. intros Heq. by apply Hne.
      * by rewrite lookup_insert_ne.
  - destruct clear; simpl.
    + destruct (decide (KStr s = sender /\ KStr t = title)) as [[? ?]|Hne];
        [subst sender title|].
      * rewrite lookup_insert_eq. simpl. by rewrite lookup_insert_eq.
      * destruct (decide (KStr s = sender)) as [<-|Hne'].
        -- rewrite lookup_insert_eq, Hs. simpl.
           rewrite lookup_insert_ne; [done|]. intros Heq. by apply Hne.
        -- by rewrite lookup_insert_ne.
    + by destruct (decide _).
  - destruct (decide (KStr s = sender /\ KStr t = title)) as [[? ?]|?];
        [subst sender title|];
      [|done]. rewrite Hs. simpl. rewrite Ht. by destruct clear.
Qed.

(** The store refines the per-pair rule, operation by operation. *)
Lemma stored_apply sender title o n :
  stored sender title (apply o n) = step sender title o (stored sender title n).
Proof.
  destruct o; [apply stored_put | apply stored_get | apply stored_get_all].
Qed.

Lemma stored_run sender title ops n :
  stored sender title (run ops n)
  = fold_left (fun q o => step sender title o q) ops (stored sender title n).
Proof.
  revert n. induction ops as [|o ops IH]; intros n; simpl; [done|].
  unfold run in IH. by rewrite IH, stored_apply.
Qed.

(** Operations that bring no envelope for the pair can only take contents
    away from the front. *)
Lemma fold_step_no_put sender title ops q :
  Forall (fun o => ~ puts sender title o) ops ->
  exists j, fold_left (fun q o => step sender title o q) ops q = drop j q.
Proof.
  intros Hops. revert q. induction Hops as [|o ops Ho Hops IH]; intros q.
  - by exists 0%nat.
  - cbn [fold_left].
    assert (Hstep : step sender title o q = q
                    \/ step sender title o q = tail q
                    \/ step sender title o q = []).
    { destruct o as [sender' message|s t clear|s t clear]; simpl.
      - destruct (envelope_of message) as [[[k c] qu]|] eqn:Henv; [|by left].
        destruct (decide (sender' = sender /\ k = title)) as [[-> ->]|];
          [|by left].
        destruct Ho. by exists message, c, qu.
      - destruct (decide _); [|by left]. destruct clear; auto.
      - destruct (decide _); [|by left]. destruct clear; auto. }
    destruct Hstep as [->| [->| ->]].
    + apply IH.
    + destruct (IH (tail q)) as [j ->]. exists (S j).
      destruct q as [|x q]; simpl; [by rewrite drop_nil | done].
    + destruct (IH []) as [j ->]. exists (length q).
      by rewrite drop_nil, drop_all.
Qed.

Lemma fold_step_untouched sender title ops q :
  Forall (fun o => ~ puts sender title o) ops ->
  Forall (fun o => ~ reads sender title o) ops ->
  fold_left (fun q o => step sender title o q) ops q = q.
Proof.
  intros Hp Hr. revert q.
  induction ops as [|o ops IH]; intros q; [done|].
  apply list.Forall_cons in Hp as [Ho Hp].
  apply list.Forall_cons in Hr as [Ho' Hr].
  cbn [fold_left]. rewrite <- (IH Hp Hr q) at 2. f_equal.
  destruct o as [sender' message|s t clear|s t clear]; simpl.
  - destruct (envelope_of message) as [[[k c] qu]|] eqn:Henv; [|done].
    destruct (decide (sender' = sender /\ k = title)) as [[-> ->]|]; [|done].
    destruct Ho. by exists message, c, qu.
  - destruct (decide _) as [[? ?]|]; [|done].
    destruct Ho'. exists s, t, clear. auto.
  - destruct (decide _) as [[? ?]|]; [|done].
    destruct Ho'. exists s, t, clear. auto.
Qed.

Lemma fold_step_queue sender title messages contents q :
  Forall2 (fun m c => envelope_of m = Some (title, c, true)) messages contents ->
  fold_left (fun q o => step sender title o q) (map (Put sender) messages) q
  = q ++ contents.
Proof.
  intros H. revert q. induction H as [|m c ms cs Hm _ IH]; intros q; simpl.
  - by rewrite app_nil_r.
  - rewrite Hm. destruct (decide (sender = sender /\ title = title)) as [_|Hno];
      [|by destruct Hno].
    by rewrite IH, <- app_assoc.
Qed.

(** A DATA frame amounts to the envelopes it carries, up to the one at which
    an exception stops the loop. *)
Lemma for_each_store_message sender items n :
  exists j,
    (for_each items (store_message sender) n).2
    = run (map (Put sender) (take j items)) n.
Proof.
  revert n. induction items as [|m items IH]; intros n.
  - by exists 0%nat.
  - cbn [for_each]. unfold bind.
    destruct (store_message sender m n) as [[[]|e] n1] eqn:Hm.
    + destruct (IH n1) as [j Hj]. exists (S j). simpl. by rewrite Hm.
    + exists 1%nat. simpl. by rewrite Hm.
Qed.

Lemma process_dataframe_puts d n messages items :
  Net._loads (Net.d_data d) = Ok messages ->
  iterate messages = Ok items ->
  exists j,
    (_process_dataframe d n).2
    = run (map (Put (_get_name_from_addr (Net.d_sender d) n)) (take j items)) n.
Proof.
  intros Hm Hi. unfold _process_dataframe, bind, get_state, lift.
  rewrite Hm, Hi. apply for_each_store_message.
Qed.

Lemma get_msg_oldest s t x q n :
  stored (KStr s) (KStr t) n = x :: q -> (get_msg s t true n).1 = Ok x.
Proof.
  unfold stored, get_msg, bind, get_state.
  destruct (in_data n !! KStr s) as [titles|]; [|done].
  destruct (titles !! KStr t) as [[|y q']|]; simpl; try done.
  by intros [= -> _].
Qed.

(** C2. For every sender name and title, the contents the node keeps are
    those the rule [step] gives for the envelopes and reads so far. So,
    once an envelope without [queue] has arrived for the pair and no other
    envelope for it since, the store holds its content alone, or nothing
    after a read; envelopes with [queue] are appended in arrival order and
    [get_msg] hands out the oldest. A DATA frame amounts to its envelopes in
    order. Receiving [{title: x, content: 1, queue: false}] and then
    [{title: x, content: 2, queue: false}] from "host" leaves the single
    value 2. *)
Theorem inbound_store_invariant :
  (forall ops n sender title,
     stored sender title (run ops n)
     = fold_left (fun q o => step sender title o q) ops
         (stored sender title n))
  /\ (forall ops1 ops2 n sender message title content,
        envelope_of message = Some (title, content, false) ->
        Forall (fun o => ~ puts sender title o) ops2 ->
        let q :=
          stored sender title (run (ops1 ++ Put sender message :: ops2) n) in
        (q = [content] \/ q = [])
        /\ (Forall (fun o => ~ reads sender title o) ops2 -> q = [content]))
  /\ (forall n sender title messages contents,
        Forall2 (fun m c => envelope_of m = Some (title, c, true))
          messages contents ->
        stored sender title (run (map (Put sender) messages) n)
        = stored sender title n ++ contents)
  /\ (forall s t x q n,
        stored (KStr s) (KStr t) n = x :: q ->
        (get_msg s t true n).1 = Ok x
        /\ stored (KStr s) (KStr t) (get_msg s t true n).2 = q)
  /\ (forall d n messages items,
        Net._loads (Net.d_data d) = Ok messages ->
        iterate messages = Ok items ->
        exists j,
          (_process_dataframe d n).2
          = run (map (Put (_get_name_from_addr (Net.d_sender d) n))
                   (take j items)) n)
  /\ (let r :=
        process_recv
          [Scenario.data_frame [x02] [x01]
             [Scenario.envelope "x" (JInt 1) false]
           ++ Scenario.data_frame [x02] [x01]
                [Scenario.envelope "x" (JInt 2) false]]
          10 Scenario.bob_with_host in
      r.1 = Ok tt
      /\ stored (KStr "host") (KStr "x") r.2 = [JInt 2]
      /\ available "host" "x" r.2 = 1).
Proof.
  split; [intros; apply stored_run|].
  split.
  { intros ops1 ops2 n sender message title content Henv Hops2 q. subst q.
    rewrite stored_run, fold_left_app. cbn [fold_left].
    set (q0 := fold_left _ ops1 _).
    assert (Hput : step sender title (Put sender message) q0 = [content]).
    { simpl. rewrite Henv.
      by destruct (decide (sender = sender /\ title = title)) as [_|[]]. }
    rewrite Hput. split.
    - destruct (fold_step_no_put sender title ops2 [content] Hops2) as [j ->].
      destruct j; [by left | right; apply drop_nil].
    - intros Hr. by apply fold_step_untouched. }
  split.
  { intros n sender title messages contents H.
    rewrite stored_run. by apply fold_step_queue. }
  split.
  { intros s t x q n Hq. split; [by eapply get_msg_oldest|].
    change (get_msg s t true n).2 with (apply (Get s t true) n).
    rewrite stored_apply, Hq. simpl.
    by destruct (decide (KStr s = KStr s /\ KStr t = KStr t)) as [_|[]]. }
  split; [apply process_dataframe_puts|].
  vm_compute. repeat split; reflexivity.
Qed.
End StoreFacts.

Lemma inbound_store_invariant_witness :
  NodeSpec.stored (KStr "host") (KStr "x")
    (NodeSpec.run
       ([NodeSpec.Put (KStr "host") (Scenario.envelope "x" (JInt 1) false)]
        ++ NodeSpec.Put (KStr "host") (Scenario.envelope "x" (JInt 2) false)
        :: [NodeSpec.Get "host" "y" true])
       Scenario.bob_with_host)
  = [JInt 2].
Proof.
  destruct (proj1 (proj2 inbound_store_invariant)
              [NodeSpec.Put (KStr "host") (Scenario.envelope "x" (JInt 1) false)]
              [NodeSpec.Get "host" "y" true]
              Scenario.bob_with_host (KStr "host")
              (Scenario.envelope "x" (JInt 2) false) (KStr "x") (JInt 2))
    as [_ H].
  - reflexivity.
  - constructor; [|constructor]. intros (m & c & q & Heq & _). discriminate.
  - apply H. constructor; [|constructor].
    intros (s & t & clear & _ & Ht & [Heq|Heq]); [|discriminate].
    injection Heq as <- <- <-. discriminate.
Defined.

(** ** The relay server *)

Section ServerFacts.
Import NetServer.

Lemma preserves_for_clients_from {A} (I : server -> Prop) steps i
    (body : nat -> M server (list A)) :
  (forall c, preserves I (body c)) ->
  preserves I (for_clients_from steps i body).
Proof.
  intros Hb. revert i. induction steps as [|steps IH]; intros i; simpl.
  - apply preserves_ret.
  - apply preserves_bind_get. intros s Hs.
    destruct (clients s !! i) as [c|]; [|done].
    revert s Hs. change (preserves I
      (do xs <- body c;;
       do ys <- for_clients_from steps (S i) body;; ret (xs ++ ys))%M).
    preserves_auto; auto.
Qed.

Lemma preserves_for_clients {A} (I : server -> Prop)
    (body : nat -> M server (list A)) :
  (forall c, preserves I (body c)) -> preserves I (for_clients body).
Proof.
  intros Hb. unfold for_clients. apply preserves_bind_get. intros s Hs.
  by apply preserves_for_clients_from.
Qed.

(** *** [disconnect] *)

Lemma list_remove_notin c l : c ∉ l -> list_remove c l = l.
Proof.
  induction l as [|x l IH]; simpl; [done|]. intros Hc.
  apply not_elem_of_cons in Hc as [Hx Hl].
  destruct (decide (x = c)); [congruence|]. by rewrite IH.
Qed.

Lemma elem_of_list_remove c x l :
  x ∈ list_remove c l -> x ∈ l.
Proof.
  induction l as [|y l IH]; simpl; [done|].
  destruct (decide (y = c)); rewrite ?elem_of_cons; [by right|].
  intros [Heq|Hin]; [by left | right; auto].
Qed.

Lemma list_remove_NoDup c l : NoDup l -> NoDup (list_remove c l).
Proof.
  intros Hnd. induction Hnd as [|y l Hy Hl IH]; simpl; [constructor|].
  destruct (decide (y = c)); [done|]. constructor; [|done].
  intros Hin. by apply Hy, (elem_of_list_remove c).
Qed.

Lemma list_remove_gone c l : NoDup l -> c ∉ list_remove c l.
Proof.
  intros Hnd. induction Hnd as [|y l Hy Hl IH]; simpl;
    [by apply not_elem_of_nil|].
  destruct (decide (y = c)) as [->|Hne]; [done|].
  apply not_elem_of_cons. split; [congruence | done].
Qed.

Lemma elem_of_list_remove_ne c x l :
  x <> c -> x ∈ l -> x ∈ list_remove c l.
Proof.
  intros Hne. induction l as [|y l IH]; simpl; [done|].
  rewrite elem_of_cons. intros [Heq|Hin].
  - subst y. destruct (decide (x = c)); [done|]. apply elem_of_cons. by left.
  - destruct (decide (y = c)); [done|]. apply elem_of_cons. right. auto.
Qed.

Lemma disconnect_spec c s :
  disconnect c s =
    (Ok tt,
     set_clients (list_remove c (clients s))
       (if decide (c ∈ sel s)
        then set_sockets (sel s ∖ {[c]}) (closed s ∪ {[c]}) s else s)).
Proof.
  unfold disconnect, bind, modify. simpl.
  destruct (decide (c ∈ sel s)); simpl;
    (destruct (decide (c ∈ clients s)) as [|Hc];
     [done | rewrite (list_remove_notin _ _ Hc); by destruct s]).
Qed.

Lemma disconnect_heap c s : heap (disconnect c s).2 = heap s.
Proof. rewrite disconnect_spec. simpl. by destruct (decide _). Qed.

Lemma disconnect_clients c s :
  clients (disconnect c s).2 = list_remove c (clients s).
Proof. by rewrite disconnect_spec. Qed.

Lemma print_spec level text s :
  print level text s =
    (Ok tt, if decide (verbosity s >= level)
            then set_log (log s ++ [(level, text)]) s else s).
Proof. reflexivity. Qed.

(** C7, server side: when the bytes just read take a client's input
    buffer above [IN_BUFFER_LIMIT], [_service_read] removes the client from
    the list, unregisters its socket and closes it. *)
Lemma service_read_overflow_disconnects (s : server) (c : nat) (cl : client)
    (recv_data : bytes) (now : Z) (depth : nat) :
  heap s !! c = Some cl ->
  recv_data <> [] ->
  Z.of_nat (length (inb cl ++ recv_data)) > IN_BUFFER_LIMIT ->
  NoDup (clients s) ->
  c ∈ sel s ->
  let r := _service_read c (Some recv_data) now depth s in
  r.1 = Ok tt /\ (c ∉ clients r.2) /\ (c ∉ sel r.2) /\ (c ∈ closed r.2).
Proof.
  intros Hc Hne Hbig Hnd Hsel. destruct recv_data as [|x recv_data]; [done|].
  unfold _service_read, bind, update, modify, get_state.
  cbv beta iota zeta.
  assert (Hin : inb (deref (set_heap
            (alter (fun cl0 => set_inb (inb cl0 ++ x :: recv_data) cl0) c
               (heap s)) s) c) = inb cl ++ x :: recv_data).
  { unfold deref. simpl. by rewrite lookup_alter_eq, Hc. }
  rewrite Hin. destruct (decide _) as [_|Hno]; [|done].
  rewrite print_spec. cbv beta iota zeta. rewrite disconnect_spec.
  destruct (decide (verbosity _ >= _)); simpl;
    (destruct (decide (c ∈ sel s)); [|done]; simpl;
     split; [done|]; split; [by apply list_remove_gone|]; split;
     [rewrite elem_of_difference, elem_of_singleton; tauto
     |apply elem_of_union; right; by apply elem_of_singleton]).
Qed.

(** *** No method but those that send touches the client dicts *)

Lemma disconnect_if_timeout_heap now s :
  heap (disconnect_if_timeout now s).2 = heap s.
Proof.
  assert (H : preserves (fun s' => heap s' = heap s)
                (disconnect_if_timeout now)).
  { unfold disconnect_if_timeout. apply preserves_for_clients. intros c.
    apply preserves_bind_get. intros s' Hs'.
    destruct (decide _); [|done]. unfold bind.
    rewrite disconnect_spec. simpl. by destruct (decide _). }
  by apply H.
Qed.

Lemma service_read_closed_heap c now depth s :
  heap (_service_read c (Some []) now depth s).2 = heap s
  /\ heap (_service_read c None now depth s).2 = heap s.
Proof.
  unfold _service_read, bind. rewrite !print_spec.
  split; destruct (decide _); cbv beta iota zeta; by rewrite disconnect_heap.
Qed.

(** C8. "host" (address 1) and "bob" (address 2) are the members of
    group "g", and "bob" has been silent for more than five seconds.
    [disconnect_if_timeout] removes "bob" from the list, and nothing is
    added to the output buffer of "host": no PEERS frame announces the
    change. *)
Theorem eviction_sends_no_peers_frame :
  let s := Scenario.host_alive in
  let r := disconnect_if_timeout (6 * second) s in
  clients s = [0; 1]%nat
  /\ r.1 = Ok ["10.0.0.2"]
  /\ clients r.2 = [0]%nat
  /\ outb (deref r.2 0) = outb (deref s 0)
  /\ heap r.2 = heap s.
Proof. vm_compute. repeat split; reflexivity. Qed.

(** *** Relaying DATA frames *)

Import ServerSpec.

Lemma set_heap_same s : set_heap (heap s) s = s.
Proof. by destruct s. Qed.

Lemma _send_bytes_spec c data s :
  _send_bytes c data s
  = (Ok tt, set_heap (alter (queue_frame data) c (heap s)) s).
Proof. reflexivity. Qed.

Lemma deref_alter_ne f c c' s :
  c <> c' -> deref (set_heap (alter f c (heap s)) s) c' = deref s c'.
Proof. intros Hne. unfold deref. simpl. by rewrite lookup_alter_ne. Qed.

Lemma deref_alter_keeps f c c' s :
  keeps_addressing f ->
  group (deref (set_heap (alter f c (heap s)) s) c') = group (deref s c')
  /\ addr (deref (set_heap (alter f c (heap s)) s) c') = addr (deref s c').
Proof.
  intros Hf. destruct (decide (c = c')) as [->|Hne].
  - unfold deref. simpl. rewrite lookup_alter_eq.
    destruct (heap s !! c') as [cl|]; simpl; [apply Hf | done].
  - by rewrite deref_alter_ne.
Qed.

Lemma queue_frame_keeps frame : keeps_addressing (queue_frame frame).
Proof. by intros cl. Qed.

(** The loop of the broadcast branch. *)
Lemma broadcast_loop (sender frame : bytes) (l : list nat) :
  NoDup l ->
  forall s, exists h',
    for_each l (fun dest_client =>
      do s <- get_state;;
      if decide (addr (deref s dest_client) <> sender)
      then _send_bytes dest_client frame
      else ret tt)%M s = (Ok tt, set_heap h' s)
    /\ forall c',
         h' !! c' =
           if decide (c' ∈ l /\ addr (deref s c') <> sender)
           then queue_frame frame <$> heap s !! c'
           else heap s !! c'.
Proof.
  intros Hnd. induction Hnd as [|x l Hx Hnd IH]; intros s.
  - exists (heap s). split; [by rewrite set_heap_same|].
    intros c'. case_decide as Hd; [|done].
    destruct Hd as [Hin _]. by apply elem_of_nil in Hin.
  - cbn [for_each]. unfold bind at 1. unfold bind at 1, get_state at 1.
    cbv beta iota zeta.
    destruct (decide (addr (deref s x) <> sender)) as [Hx'|Hx'].
    + rewrite _send_bytes_spec.
      destruct (IH (set_heap (alter (queue_frame frame) x (heap s)) s))
        as (h' & Hrun & Hh').
      exists h'. split; [by rewrite Hrun|].
      intros c'. rewrite Hh'.
      destruct (deref_alter_keeps (queue_frame frame) x c' s
                  (queue_frame_keeps frame)) as [_ ->].
      cbn [heap set_heap].
      destruct (decide (x = c')) as [<-|Hne].
      * rewrite lookup_alter_eq.
        destruct (decide (x ∈ l /\ addr (deref s x) <> sender))
          as [[? _]|_]; [done|].
        destruct (decide (x ∈ x :: l /\ addr (deref s x) <> sender))
          as [_|Hno]; [done|].
        destruct Hno. split; [apply elem_of_cons; by left | done].
      * rewrite lookup_alter_ne by done.
        destruct (decide (c' ∈ l /\ addr (deref s c') <> sender))
          as [[Hin Ha]|Hno];
          destruct (decide (c' ∈ x :: l /\ addr (deref s c') <> sender))
            as [[Hin' Ha']|Hno'];
          try done.
        -- destruct Hno'. split; [apply elem_of_cons; by right | done].
        -- destruct Hno. split; [|done].
           apply elem_of_cons in Hin' as [?|?]; [congruence | done].
    + destruct (IH s) as (h' & Hrun & Hh').
      exists h'. split; [exact Hrun|].
      intros c'. rewrite Hh'.
      destruct (decide (c' ∈ l /\ addr (deref s c') <> sender))
        as [[Hin Ha]|Hno];
        destruct (decide (c' ∈ x :: l /\ addr (deref s c') <> sender))
          as [[Hin' Ha']|Hno'];
        try done.
      * destruct Hno'. split; [apply elem_of_cons; by right | done].
      * destruct Hno. split; [|done].
        apply elem_of_cons in Hin' as [->|?]; [|done].
        by apply dec_stable in Hx'.
Qed.

Lemma find_Some_first {A} (f : A -> bool) (l : list A) (x : A) :
  find f l = Some x ->
  exists l1 l2, l = l1 ++ x :: l2 /\ f x = true
                /\ forall y, y ∈ l1 -> f y = false.
Proof.
  induction l as [|y l IH]; simpl; [done|].
  destruct (f y) eqn:Hy.
  - intros [= ->]. exists [], l. repeat split; [done|].
    intros z Hz. by apply elem_of_nil in Hz.
  - intros Hfind. destruct (IH Hfind) as (l1 & l2 & -> & Hx & Hl1).
    exists (y :: l1), l2. repeat split; [done|].
    intros z Hz. apply elem_of_cons in Hz as [->|Hz]; auto.
Qed.

Lemma find_None_all {A} (f : A -> bool) (l : list A) :
  find f l = None <-> forall y, y ∈ l -> f y = false.
Proof.
  induction l as [|y l IH]; simpl.
  - split; [|done]. intros _ z Hz. by apply elem_of_nil in Hz.
  - destruct (f y) eqn:Hy.
    + split; [done|]. intros H. specialize (H y).
      rewrite Hy in H. discriminate H. apply elem_of_cons. by left.
    + rewrite IH. split.
      * intros H z Hz. apply elem_of_cons in Hz as [->|Hz]; auto.
      * intros H z Hz. apply H, elem_of_cons. by right.
Qed.

Lemma _get_client_by_addr_None a g s :
  _get_client_by_addr a g s = None <-> ~ held s g a.
Proof.
  unfold _get_client_by_addr, held. rewrite find_None_all. split.
  - intros H (c & Hc & Hg & Ha). specialize (H c Hc).
    apply bool_decide_eq_false in H. by apply H.
  - intros H c Hc. apply bool_decide_eq_false. intros [Ha Hg].
    apply H. by exists c.
Qed.

Lemma _get_client_by_addr_Some a g s c :
  _get_client_by_addr a g s = Some c ->
  c ∈ clients s /\ group (deref s c) = g /\ addr (deref s c) = a.
Proof.
  unfold _get_client_by_addr. intros H.
  apply find_Some_first in H as (l1 & l2 & Hl & Hc & _).
  apply bool_decide_eq_true in Hc as [Ha Hg]. rewrite Hl.
  split; [|done]. apply elem_of_app. right. apply elem_of_cons. by left.
Qed.

Lemma elem_of_clients_by_group g s c :
  c ∈ _get_clients_by_group g s <-> c ∈ clients s /\ group (deref s c) = g.
Proof. unfold _get_clients_by_group. rewrite list_elem_of_filter. tauto. Qed.

(** C3. A DATA frame accepted from an authenticated client [c] (its
    sender byte is the address of [c]) is relayed as follows. With
    destination 255 the frame bytes are appended, unchanged, to the output
    buffer of every client of the list that is in the group of [c] and is
    not [c] itself, and to no other buffer. With another destination they
    are appended to the buffer of the client of that group that holds the
    address, of which there is at most one, and to no other; when nobody
    holds it the server is left exactly as it was. Nothing is raised, and
    only output buffers change. *)
Theorem relay_data_frame (s : server) (c : nat) (d : Net.d_frame)
    (frame : bytes) :
  well_formed s ->
  authenticated s c ->
  Net.d_sender d = addr (deref s c) ->
  exists h',
    _process_dataframe c d frame s = (Ok tt, set_heap h' s)
    /\ (Net.d_dest d = Net.ALL_CLIENTS ->
        forall c',
          h' !! c' =
            if decide (c' ∈ clients s
                       /\ group (deref s c') = group (deref s c)
                       /\ c' <> c)
            then queue_frame frame <$> heap s !! c'
            else heap s !! c')
    /\ (Net.d_dest d <> Net.ALL_CLIENTS ->
        (forall c',
           h' !! c' =
             if decide (c' ∈ clients s
                        /\ group (deref s c') = group (deref s c)
                        /\ addr (deref s c') = Net.d_dest d)
             then queue_frame frame <$> heap s !! c'
             else heap s !! c')
        /\ (forall c1 c2,
              c1 ∈ clients s -> c2 ∈ clients s ->
              group (deref s c1) = group (deref s c) ->
              group (deref s c2) = group (deref s c) ->
              addr (deref s c1) = Net.d_dest d ->
              addr (deref s c2) = Net.d_dest d ->
              c1 = c2)
        /\ (~ held s (group (deref s c)) (Net.d_dest d) -> h' = heap s)).
Proof.
  intros (Hnd & _ & Hdist & _) [Hc Hg] Hsender.
  unfold _process_dataframe, bind at 1, get_state at 1.
  cbv beta iota zeta.
  destruct (decide (Net.d_dest d = Net.ALL_CLIENTS)) as [Hall|Hall].
  - destruct (broadcast_loop (Net.d_sender d) frame
                (_get_clients_by_group (group (deref s c)) s)
                (list.NoDup_filter _ _ Hnd) s) as (h' & Hrun & Hh').
    exists h'. split; [done|]. split; [|done]. intros _ c'.
    rewrite Hh'.
    destruct (decide (c' ∈ _get_clients_by_group (group (deref s c)) s
                      /\ addr (deref s c') <> Net.d_sender d))
      as [[Hin Ha]|Hno];
      destruct (decide (c' ∈ clients s
                        /\ group (deref s c') = group (deref s c)
                        /\ c' <> c))
        as [(Hin' & Hg'' & Hne)|Hno']; try done.
    + apply elem_of_clients_by_group in Hin as [Hin Hg'].
      destruct Hno'. repeat split; try done. intros ->. by rewrite Hsender in Ha.
    + destruct Hno. split; [by apply elem_of_clients_by_group|].
      rewrite Hsender. intros Ha. apply Hne.
      apply Hdist; try done. split; [done | by rewrite Hg''].
  - assert (Huniq : forall c1 c2,
              c1 ∈ clients s -> c2 ∈ clients s ->
              group (deref s c1) = group (deref s c) ->
              group (deref s c2) = group (deref s c) ->
              addr (deref s c1) = Net.d_dest d ->
              addr (deref s c2) = Net.d_dest d -> c1 = c2).
    { intros c1 c2 H1 H2 Hg1 Hg2 Ha1 Ha2.
      apply Hdist; [split; [done | by rewrite Hg1]
                   |split; [done | by rewrite Hg2]
                   |congruence|congruence]. }
    destruct (_get_client_by_addr _ _ s) as [dest_client|] eqn:Hfind.
    + apply _get_client_by_addr_Some in Hfind as (Hin & Hg' & Ha).
      rewrite _send_bytes_spec. eexists. split; [reflexivity|].
      split; [done|]. intros _. split; [|split; [done|]].
      * intros c'. destruct (decide (dest_client = c')) as [<-|Hne].
        -- rewrite lookup_alter_eq.
           case_decide as Hno; [done|]. by destruct Hno.
        -- rewrite lookup_alter_ne by done.
           case_decide as Hyes; [|done].
           destruct Hyes as (Hin' & Hg'' & Ha').
           destruct Hne. by apply Huniq.
      * intros Hheld. destruct Hheld. by exists dest_client.
    + exists (heap s). unfold ret. rewrite set_heap_same.
      split; [done|]. split; [done|]. intros _.
      apply _get_client_by_addr_None in Hfind.
      split; [|split; [done|done]].
      intros c'. case_decide as Hyes; [|done].
      destruct Hyes as (Hin' & Hg'' & Ha').
      destruct Hfind. by exists c'.
Qed.

(** How [_process_frame] reaches the relay: the frame of an authenticated
    client with the right sender byte refreshes the watchdog and, if its
    type is DATA, is relayed. *)
Lemma process_frame_accepts_data s c frame now d :
  Net._decode_frame frame = Ok d ->
  Net.d_type d = Net.FRAME_TYPE_DATA ->
  group (deref s c) <> "" ->
  Net.d_sender d = addr (deref s c) ->
  _process_frame frame c now s
  = _process_dataframe c d frame
      (set_heap (alter (set_watchDog now) c (heap s)) s).
Proof.
  intros Hd Hty Hg Hs. unfold _process_frame, bind at 1, lift at 1.
  rewrite Hd. cbv beta iota zeta. rewrite Hty.
  destruct (decide (Net.FRAME_TYPE_DATA = Net.FRAME_TYPE_AUTH)); [done|].
  unfold bind at 1, get_state at 1. cbv beta iota zeta.
  destruct (decide (group _ = "")); [done|].
  destruct (decide (addr _ <> _)) as [Hne|_]; [by destruct Hne|].
  unfold bind at 1, update at 1, modify at 1. cbv beta iota zeta.
  by destruct (decide (Net.FRAME_TYPE_DATA = Net.FRAME_TYPE_DATA)).
Qed.

(** *** The state of a running server is well formed *)

Lemma well_formed_same_addressing s s' :
  well_formed s ->
  clients s' = clients s ->
  next_sock s' = next_sock s ->
  (forall c, group (deref s' c) = group (deref s c)
             /\ addr (deref s' c) = addr (deref s c)) ->
  well_formed s'.
Proof.
  intros (Hnd & Hlt & Hdist & Hval) Hcl Hns Hsame.
  unfold well_formed, addresses_distinct, addresses_valid, authenticated.
  rewrite Hcl, Hns. split; [done|]. split; [done|]. split.
  - intros c c' [Hc Hg] [Hc' Hg'] Hgg Haa.
    destruct (Hsame c) as [Hg1 Ha1], (Hsame c') as [Hg2 Ha2].
    apply Hdist; [split; [done|congruence] | split; [done|congruence]
                 | congruence | congruence].
  - intros c [Hc Hg]. destruct (Hsame c) as [Hg1 Ha1]. rewrite Ha1.
    apply Hval. split; [done | congruence].
Qed.

Lemma preserves_update_keeps c f :
  keeps_addressing f -> preserves well_formed (update c f).
Proof.
  intros Hf s Hs. apply (well_formed_same_addressing s); try done.
  intros c'. by apply deref_alter_keeps.
Qed.

Lemma preserves_print level text : preserves well_formed (print level text).
Proof.
  intros s Hs. rewrite print_spec. simpl.
  destruct (decide _); [|done].
  by apply (well_formed_same_addressing s).
Qed.

Lemma preserves_disconnect c : preserves well_formed (disconnect c).
Proof.
  intros s (Hnd & Hlt & Hdist & Hval). rewrite disconnect_spec.
  assert (Hd : forall c',
    deref (set_clients (list_remove c (clients s))
             (if decide (c ∈ sel s)
              then set_sockets (sel s ∖ {[c]}) (closed s ∪ {[c]}) s
              else s)) c' = deref s c').
  { intros c'. unfold deref. by destruct (decide _). }
  assert (Hn : next_sock (if decide (c ∈ sel s)
              then set_sockets (sel s ∖ {[c]}) (closed s ∪ {[c]}) s
              else s) = next_sock s) by (by destruct (decide _)).
  unfold well_formed, addresses_distinct, addresses_valid, authenticated.
  cbn [snd clients set_clients next_sock]. rewrite Hn.
  split; [by apply list_remove_NoDup|]. split; [|split].
  - intros c' Hc'. by apply Hlt, (elem_of_list_remove c).
  - intros c1 c2 [H1 Hg1] [H2 Hg2]. rewrite !Hd in *. intros Hgg Haa.
    apply Hdist; try done; split; try done; by apply (elem_of_list_remove c).
  - intros c1 [H1 Hg1]. rewrite !Hd in *.
    apply Hval. split; [by apply (elem_of_list_remove c) | done].
Qed.

Lemma preserves_accept ip now :
  preserves well_formed (_accept_connection ip now).
Proof.
  intros s (Hnd & Hlt & Hdist & Hval).
  unfold _accept_connection, bind, get_state, modify, ret. simpl.
  set (new := {| ip := ip; name := JStr ""; group := ""; addr := Net.UNKNOWN_ADDR;
                 inb := []; outb := []; sock := next_sock s; watchDog := now |}).
  assert (Hfresh : next_sock s ∉ clients s).
  { intros Hin. apply Hlt in Hin. lia. }
  assert (Hd : forall c', c' <> next_sock s ->
    deref (set_next_sock (S (next_sock s))
      (set_sockets (sel s ∪ {[next_sock s]}) (closed s)
         (set_clients (clients s ++ [next_sock s])
            (set_heap (<[next_sock s:=new]> (heap s)) s)))) c' = deref s c').
  { intros c' Hne. unfold deref. simpl. by rewrite lookup_insert_ne. }
  assert (Hnew : group (deref (set_next_sock (S (next_sock s))
      (set_sockets (sel s ∪ {[next_sock s]}) (closed s)
         (set_clients (clients s ++ [next_sock s])
            (set_heap (<[next_sock s:=new]> (heap s)) s)))) (next_sock s)) = "").
  { unfold deref. simpl. by rewrite lookup_insert_eq. }
  unfold well_formed, addresses_distinct, addresses_valid, authenticated.
  cbn [clients set_next_sock set_sockets set_clients next_sock].
  split; [|split; [|split]].
  - apply list.NoDup_app. split; [done|]. split; [|apply list.NoDup_singleton].
    intros x Hx Hx'. apply list_elem_of_singleton in Hx' as ->. done.
  - intros c Hc. apply elem_of_app in Hc as [Hc|Hc].
    + apply Hlt in Hc. lia.
    + apply list_elem_of_singleton in Hc as ->. lia.
  - intros c1 c2 [H1 Hg1] [H2 Hg2].
    destruct (decide (c1 = next_sock s)) as [->|Hne1]; [by rewrite Hnew in Hg1|].
    destruct (decide (c2 = next_sock s)) as [->|Hne2]; [by rewrite Hnew in Hg2|].
    rewrite !Hd in * by done. intros Hgg Haa.
    apply elem_of_app in H1 as [H1|H1];
      [|apply list_elem_of_singleton in H1; done].
    apply elem_of_app in H2 as [H2|H2];
      [|apply list_elem_of_singleton in H2; done].
    by apply Hdist.
  - intros c1 [H1 Hg1].
    destruct (decide (c1 = next_sock s)) as [->|Hne1]; [by rewrite Hnew in Hg1|].
    rewrite !Hd in * by done.
    apply elem_of_app in H1 as [H1|H1];
      [|apply list_elem_of_singleton in H1; done].
    by apply Hval.
Qed.

(** *** [_get_free_addr] *)

Lemma find_map_seq {A} (p : A -> bool) (F : nat -> A) (len start : nat) :
  match find p (map F (seq start len)) with
  | Some x =>
      exists k, (start <= k < start + len)%nat /\ x = F k /\ p (F k) = true
                /\ forall j, (start <= j < k)%nat -> p (F j) = false
  | None => forall j, (start <= j < start + len)%nat -> p (F j) = false
  end.
Proof.
  revert start. induction len as [|len IH]; intros start; simpl.
  - intros j Hj. lia.
  - destruct (p (F start)) eqn:Hp.
    + exists start. split; [lia|]. split; [done|]. split; [done|].
      intros j Hj. lia.
    + specialize (IH (S start)).
      destruct (find p (map F (seq (S start) len))) as [x|].
      * destruct IH as (k & Hk & Hx & Hpk & Hlow).
        exists k. split; [lia|]. split; [done|]. split; [done|].
        intros j Hj. destruct (decide (j = start)) as [->|]; [done|].
        apply Hlow. lia.
      * intros j Hj. destruct (decide (j = start)) as [->|]; [done|].
        apply IH. lia.
Qed.

Lemma free_test_true a g s :
  match _get_client_by_addr a g s with None => true | Some _ => false end
  = true <-> ~ held s g a.
Proof.
  rewrite <- _get_client_by_addr_None.
  by destruct (_get_client_by_addr a g s).
Qed.

Lemma free_test_false a g s :
  match _get_client_by_addr a g s with None => true | Some _ => false end
  = false -> held s g a.
Proof.
  destruct (_get_client_by_addr a g s) as [c|] eqn:Hc; [|done].
  intros _. apply _get_client_by_addr_Some in Hc. by exists c.
Qed.

(** [_get_free_addr] returns the lowest address of [1..254] that nobody
    of the group holds, and [None] exactly when all of them are held. *)
Lemma _get_free_addr_spec g s :
  match _get_free_addr g s with
  | Some a =>
      exists k, 1 <= k <= 254 /\ a = be_bytes 1 k /\ ~ held s g a
                /\ forall j, 1 <= j < k -> held s g (be_bytes 1 j)
  | None => forall j, 1 <= j <= 254 -> held s g (be_bytes 1 j)
  end.
Proof.
  unfold _get_free_addr.
  pose proof (find_map_seq
    (fun b_addr => match _get_client_by_addr b_addr g s with
                   | None => true | Some _ => false end)
    (fun a => be_bytes 1 (Z.of_nat a)) 254 1) as H.
  destruct (find _ _) as [a|].
  - destruct H as (k & Hk & -> & Hfree & Hlow).
    exists (Z.of_nat k). split; [lia|]. split; [done|].
    split; [by apply free_test_true|].
    intros j Hj. rewrite <- (Z2Nat.id j) by lia.
    apply free_test_false, Hlow. lia.
  - intros j Hj. rewrite <- (Z2Nat.id j) by lia.
    apply free_test_false, H. lia.
Qed.




(** *** Assigning name, group and address *)

Lemma deref_assigned c nm g a s c' :
  deref (assigned c nm g a s) c' =
    if decide (c' = c)
    then match heap s !! c with
         | Some cl => set_addr a (set_group g (set_name nm cl))
         | None => blank
         end
    else deref s c'.
Proof.
  unfold deref, assigned. simpl. destruct (decide (c' = c)) as [->|Hne].
  - rewrite !lookup_alter_eq. by destruct (heap s !! c).
  - by rewrite !lookup_alter_ne.
Qed.

Lemma well_formed_assigned c nm g a s :
  well_formed s -> valid_addr a -> ~ held s g a ->
  well_formed (assigned c nm g a s).
Proof.
  intros (Hnd & Hlt & Hdist & Hval) Ha Hfree.
  unfold well_formed, addresses_distinct, addresses_valid, authenticated.
  change (clients (assigned c nm g a s)) with (clients s).
  change (next_sock (assigned c nm g a s)) with (next_sock s).
  split; [done|]. split; [done|]. split.
  - intros c1 c2 [H1 Hg1] [H2 Hg2]. rewrite !deref_assigned in *.
    destruct (decide (c1 = c)) as [->|Hne1];
      destruct (decide (c2 = c)) as [->|Hne2]; try done.
    + destruct (heap s !! c) as [cl|]; [|done]. simpl in *.
      intros Hgg Haa. destruct Hfree. by exists c2.
    + destruct (heap s !! c) as [cl|]; [|done]. simpl in *.
      intros Hgg Haa. destruct Hfree. by exists c1.
    + intros Hgg Haa. by apply Hdist.
  - intros c1 [H1 Hg1]. rewrite !deref_assigned in *.
    destruct (decide (c1 = c)) as [->|Hne1].
    + destruct (heap s !! c) as [cl|]; [done|]. by destruct Hg1.
    + by apply Hval.
Qed.

(** *** Every method keeps the state well formed *)

Lemma preserves_send_bytes (I : server -> Prop) c data :
  (forall f, keeps_addressing f -> preserves I (update c f)) ->
  preserves I (_send_bytes c data).
Proof. intros H. apply H. by intros cl. Qed.

Ltac wf_step :=
  first
    [ apply preserves_print
    | apply preserves_disconnect
    | apply preserves_update_keeps; by intros ?
    | apply preserves_send_bytes; apply preserves_update_keeps
    | preserves_step ].

Lemma preserves_send_peers_frame g :
  preserves well_formed (_send_peers_frame g).
Proof. unfold _send_peers_frame. repeat wf_step. Qed.

Lemma preserves_send_sysm_name_frame c nm :
  preserves well_formed (_send_sysm_name_frame c nm).
Proof. unfold _send_sysm_name_frame. repeat wf_step. Qed.

Lemma assign_block c nm g a s :
  (update c (set_name nm);; update c (set_group g);;
   update c (set_addr a);; _send_peers_frame g)%M s
  = _send_peers_frame g (assigned c nm g a s).
Proof. reflexivity. Qed.

Lemma preserves_assign_address c nm g :
  preserves well_formed (assign_address c nm g).
Proof.
  unfold assign_address.
  apply preserves_bind; [apply preserves_print | intros _].
  apply preserves_bind_get. intros s Hs.
  pose proof (_get_free_addr_spec g s) as Hfree.
  destruct (_get_free_addr g s) as [a|].
  - rewrite assign_block. apply preserves_send_peers_frame.
    destruct Hfree as (k & Hk & Ha & Hnot & _).
    apply well_formed_assigned; [done | by exists k | done].
  - revert s Hs Hfree. intros s Hs _. revert s Hs.
    change (preserves well_formed
      (print VERBOSITY_WARNING "No free addresses. Closing";; disconnect c)%M).
    repeat wf_step.
Qed.

Lemma preserves_process_authframe c d :
  preserves well_formed (_process_authframe c d).
Proof.
  unfold _process_authframe.
  repeat first
    [ apply preserves_assign_address
    | apply preserves_send_sysm_name_frame
    | wf_step ].
Qed.

Lemma preserves_process_dataframe c d frame :
  preserves well_formed (_process_dataframe c d frame).
Proof. unfold _process_dataframe. repeat wf_step. Qed.

Lemma preserves_process_frame frame c now :
  preserves well_formed (_process_frame frame c now).
Proof.
  unfold _process_frame.
  repeat first
    [ apply preserves_process_authframe
    | apply preserves_process_dataframe
    | wf_step ].
Qed.

Lemma preserves_process_buf depth c now :
  preserves well_formed (_process_buf depth c now).
Proof.
  induction depth as [|depth IH]; simpl; [apply preserves_raise|].
  apply preserves_bind_get. intros s Hs.
  destruct (Net._get_frame (inb (deref s c))) as [[frame|] rest].
  - revert s Hs. change (preserves well_formed
      (update c (set_inb rest);;
       (_process_frame frame c now;; _process_buf depth c now))%M).
    repeat first [ apply preserves_process_frame | apply IH | wf_step ].
  - revert s Hs. change (preserves well_formed
      (update c (set_inb rest);; ret tt)%M).
    repeat wf_step.
Qed.

Lemma preserves_service_read c recv now depth :
  preserves well_formed (_service_read c recv now depth).
Proof.
  unfold _service_read.
  repeat first [ apply preserves_process_buf | wf_step ].
Qed.




Lemma well_formed_init names allowed : well_formed (__init__ names allowed).
Proof.
  unfold well_formed, addresses_distinct, addresses_valid, authenticated.
  simpl. split; [constructor|].
  split; [intros c Hc; by apply elem_of_nil in Hc|].
  split; [intros c c' [Hc _]; by apply elem_of_nil in Hc|].
  intros c [Hc _]; by apply elem_of_nil in Hc.
Qed.


(** *** What an AUTH frame does to the client that sent it *)
















Lemma well_formed_two_peers : well_formed Scenario.two_peers.
Proof.
  unfold Scenario.two_peers.
  repeat first [ apply preserves_service_read | apply preserves_accept ].
  apply well_formed_init.
Qed.

(** C6, for frames other than AUTH. Such a frame, sent by an authenticated
    client with a sender byte different from its address, only leaves a
    warning in the log: nothing is relayed, the client dicts, the client
    list and the sockets are unchanged, so the client stays connected. *)
Theorem forged_sender_dropped (s : server) (c : nat) (frame : bytes)
    (now : Z) (d : Net.d_frame) :
  Net._decode_frame frame = Ok d ->
  Net.d_type d <> Net.FRAME_TYPE_AUTH ->
  group (deref s c) <> "" ->
  addr (deref s c) <> Net.d_sender d ->
  exists s',
    _process_frame frame c now s = (Ok tt, s')
    /\ s' = (if decide (verbosity s >= VERBOSITY_WARNING)
             then set_log (log s ++ [(VERBOSITY_WARNING, "Forged sender addr.")]) s
             else s)
    /\ clients s' = clients s /\ heap s' = heap s
    /\ sel s' = sel s /\ closed s' = closed s.
Proof.
  intros Hd Hty Hgrp Haddr. eexists. split; [|split; [reflexivity|]].
  - unfold _process_frame, bind, lift, get_state. rewrite Hd.
    destruct (decide (Net.d_type d = _)); [done|].
    destruct (decide (group _ = "")); [done|].
    destruct (decide (addr _ <> _)); [|done]. apply print_spec.
  - by destruct (decide _).
Qed.

(** C6, the case that fails: "host" holds address 1 and sends an AUTH
    frame whose sender byte is 255 and whose group is not allowed. The
    frame reaches [_process_authframe] before the sender is checked, and
    the server disconnects "host". *)
Lemma forged_auth_frame_disconnects :
  let s := Scenario.two_peers in
  let r := _process_frame Scenario.stray_auth 0 0 s in
  (Net.d_sender <$> of_result_option (Net._decode_frame Scenario.stray_auth))
    = Some [xff]
  /\ clients s = [0; 1]%nat
  /\ group (deref s 0) = "g"
  /\ addr (deref s 0) = [x01]
  /\ clients r.2 = [1]%nat
  /\ closed r.2 = {[ 0%nat ]}.
Proof. vm_compute. repeat split; reflexivity. Qed.
(** *** The loops over the client list run to their end *)

(** When the body never makes the list longer, more steps than the list has
    elements change nothing. *)
Lemma for_clients_from_enough {A} (body : nat -> M server (list A)) :
  (forall c s, (length (clients (body c s).2) <= length (clients s))%nat) ->
  forall steps i s,
    (length (clients s) <= i + steps)%nat ->
    for_clients_from (S steps) i body s = for_clients_from steps i body s.
Proof.
  intros Hbody steps. induction steps as [|steps IH]; intros i s Hlen.
  - cbn [for_clients_from]. unfold bind, get_state.
    rewrite lookup_ge_None_2; [done | lia].
  - change (for_clients_from (S (S steps)) i body s)
      with (match clients s !! i with
            | None => ret []
            | Some c =>
                (do xs <- body c;;
                 do ys <- for_clients_from (S steps) (S i) body;;
                 ret (xs ++ ys))%M
            end s).
    change (for_clients_from (S steps) i body s)
      with (match clients s !! i with
            | None => ret []
            | Some c =>
                (do xs <- body c;;
                 do ys <- for_clients_from steps (S i) body;;
                 ret (xs ++ ys))%M
            end s).
    destruct (clients s !! i) as [c|]; [|done].
    unfold bind at 1 3. pose proof (Hbody c s) as Hc.
    destruct (body c s) as [[xs|e] s1]; [|done]. simpl in Hc.
    unfold bind at 1 2. rewrite IH; [done | lia].
Qed.

Lemma disconnect_shrinks c s :
  (length (clients (disconnect c s).2) <= length (clients s))%nat.
Proof.
  rewrite disconnect_clients. induction (clients s) as [|x l IH]; simpl; [done|].
  destruct (decide (x = c)); simpl; lia.
Qed.

Lemma print_clients level text s :
  clients (print level text s).2 = clients s.
Proof. rewrite print_spec. simpl. by destruct (decide _). Qed.

(** [_write_all] and [disconnect_if_timeout] do the same with any larger
    number of steps. *)
Lemma disconnect_if_timeout_steps now s extra :
  for_clients_from (length (clients s) + extra) 0
    (fun c =>
       do s <- get_state;;
       if decide (watchDog (deref s c) < now - 5 * second)
       then disconnect c;; ret [ip (deref s c)]
       else ret [])%M s
  = disconnect_if_timeout now s.
Proof.
  unfold disconnect_if_timeout, for_clients, bind at 3, get_state at 2.
  induction extra as [|extra IH]; [by rewrite Nat.add_0_r|].
  rewrite Nat.add_succ_r, for_clients_from_enough; [done| |lia].
  intros c s'. unfold bind at 1, get_state at 1. cbv beta iota zeta.
  destruct (decide _); [|done]. unfold bind.
  pose proof (disconnect_shrinks c s') as H.
  by destruct (disconnect c s') as [[[]|e] s1].
Qed.

Lemma write_all_steps send s extra :
  (for_clients_from (length (clients s) + extra) 0
     (fun c =>
        do s <- get_state;;
        match outb (deref s c) with
        | [] => ret []
        | _ :: _ =>
            match send c with
            | Some sent =>
                update c (fun cl => set_outb (drop sent (outb cl)) cl);;
                ret []
            | None =>
                print VERBOSITY_WARNING "Write connection error. Closing";;
                disconnect c;;
                ret ([] : list unit)
            end
        end);; ret tt)%M s
  = _write_all send s.
Proof.
  unfold _write_all, for_clients, bind at 5, get_state at 2.
  induction extra as [|extra IH]; [by rewrite Nat.add_0_r|].
  rewrite <- IH. unfold bind at 1 5.
  rewrite Nat.add_succ_r, for_clients_from_enough; [done| |lia].
  intros c s'. unfold bind at 1, get_state at 1. cbv beta iota zeta.
  destruct (outb (deref s' c)); [done|].
  destruct (send c); [done|].
  unfold bind at 1. rewrite print_spec. cbv beta iota zeta.
  unfold bind.
  match goal with
  | |- context [disconnect c ?s0] =>
      pose proof (disconnect_shrinks c s0) as H;
      destruct (disconnect c s0) as [[[]|e] s1]; simpl in H |- *;
      by destruct (decide _)
  end.
Qed.
End ServerFacts.

Lemma forged_sender_dropped_witness :
  exists s',
    NetServer._process_frame
      (Scenario.data_frame [x02] [x09] [Scenario.envelope "x" (JInt 1) false])
      0 1 Scenario.two_peers = (Ok tt, s')
    /\ NetServer.clients s' = NetServer.clients Scenario.two_peers
    /\ NetServer.heap s' = NetServer.heap Scenario.two_peers.
Proof.
  destruct (forged_sender_dropped Scenario.two_peers 0
              (Scenario.data_frame [x02] [x09]
                 [Scenario.envelope "x" (JInt 1) false]) 1
              {| Net.d_version := Net.VERSION; Net.d_dest := [x02];
                 Net.d_sender := [x09]; Net.d_type := Net.FRAME_TYPE_DATA;
                 Net.d_meta := [x00];
                 Net.d_data :=
                   Net._dumps (JList [Scenario.envelope "x" (JInt 1) false]) |})
    as (s' & H1 & _ & H2 & H3 & _).
  - vm_compute. reflexivity.
  - vm_compute. discriminate.
  - vm_compute. discriminate.
  - vm_compute. discriminate.
  - exists s'. auto.
Defined.

Lemma relay_data_frame_witness :
  exists h',
    NetServer._process_dataframe 0
      {| Net.d_version := Net.VERSION; Net.d_dest := Net.ALL_CLIENTS;
         Net.d_sender := [x01]; Net.d_type := Net.FRAME_TYPE_DATA;
         Net.d_meta := [x00];
         Net.d_data :=
           Net._dumps (JList [Scenario.envelope "x" (JInt 1) false]) |}
      (Scenario.data_frame Net.ALL_CLIENTS [x01]
         [Scenario.envelope "x" (JInt 1) false])
      Scenario.two_peers
    = (Ok tt, NetServer.set_heap h' Scenario.two_peers).
Proof.
  destruct (relay_data_frame Scenario.two_peers 0
              {| Net.d_version := Net.VERSION; Net.d_dest := Net.ALL_CLIENTS;
                 Net.d_sender := [x01]; Net.d_type := Net.FRAME_TYPE_DATA;
                 Net.d_meta := [x00];
                 Net.d_data :=
                   Net._dumps (JList [Scenario.envelope "x" (JInt 1) false]) |}
              (Scenario.data_frame Net.ALL_CLIENTS [x01]
                 [Scenario.envelope "x" (JInt 1) false]))
    as (h' & H & _).
  - apply well_formed_two_peers.
  - split; [|vm_compute; discriminate].
    replace (NetServer.clients Scenario.two_peers) with [0; 1]%nat
      by (vm_compute; reflexivity).
    apply elem_of_cons. by left.
  - vm_compute. reflexivity.
  - by exists h'.
Defined.

(** * Framing: [_get_frame] on a stream of bytes *)

Section FramingFacts.
Import Net.

Lemma from_bytes_nonneg (data : bytes) : 0 <= from_bytes data.
Proof.
  induction data as [|x data IH] using rev_ind; [done|].
  rewrite from_bytes_snoc. lia.
Qed.

Lemma slice_header_app (data more : bytes) :
  (4 <= length data)%nat -> slice 0 4 (data ++ more) = slice 0 4 data.
Proof. intros H. unfold slice. rewrite !drop_0. by apply take_app_le. Qed.

(** The bytes [_construct_frame] puts together. *)
Lemma encode_frame_bytes (my_addr : bytes) (f : frame) (bs : bytes) (f' : frame) :
  _encode_frame my_addr f = Ok (bs, f') ->
  let data := match f_data f with Some v => _dumps v | None => [] end in
  let total := HEADER_SIZE + Z.of_nat (length data) in
  total < 2 ^ 32
  /\ bs = be_bytes 4 total ++ VERSION ++ f_dest f ++ my_addr ++ f_type f
          ++ default [x00] (f_meta f) ++ data.
Proof.
  intros H data total. revert H.
  unfold _encode_frame, _construct_frame, to_bytes.
  fold data. fold total. intros H.
  destruct (decide (0 <= total < 256 ^ Z.of_nat 4)) as [Hr|]; [|done].
  simpl in H. injection H as <- <-. split; [apply Hr|].
  by destruct (f_meta f).
Qed.

Lemma encoded_length (my_addr : bytes) (f : frame) (bs : bytes) (f' : frame) :
  valid_frame my_addr f ->
  _encode_frame my_addr f = Ok (bs, f') ->
  (11 <= length bs)%nat
  /\ from_bytes (slice 0 4 bs) = Z.of_nat (length bs).
Proof.
  intros (Hd & Ha & Ht & Hm & _) He.
  destruct (encode_frame_bytes _ _ _ _ He) as [Hlt ->].
  set (data := match f_data f with Some v => _dumps v | None => [] end) in *.
  assert (Hmeta : length (default [x00] (f_meta f)) = 1%nat).
  { destruct (f_meta f); [apply Hm|done]. }
  assert (Hlen : length (be_bytes 4 (HEADER_SIZE + Z.of_nat (length data))
                    ++ VERSION ++ f_dest f ++ my_addr ++ f_type f
                    ++ default [x00] (f_meta f) ++ data)
                 = (11 + length data)%nat).
  { rewrite !length_app, length_be_bytes, Hd, Ha, Ht, Hmeta. simpl. lia. }
  rewrite Hlen. split; [lia|].
  unfold slice. rewrite drop_0.
  rewrite take_app_length' by (by rewrite length_be_bytes).
  rewrite from_bytes_be_bytes. unfold HEADER_SIZE in *.
  rewrite Z.mod_small; lia.
Qed.

(** What [_decode_frame] makes of the bytes of a valid frame. *)
Lemma decode_encoded (my_addr : bytes) (f : frame) :
  valid_frame my_addr f ->
  (exists f', _encode_frame my_addr f = Ok (Scenario.encoded my_addr f, f'))
  /\ _decode_frame (Scenario.encoded my_addr f)
     = Ok {| d_version := VERSION; d_dest := f_dest f; d_sender := my_addr;
             d_type := f_type f; d_meta := default [x00] (f_meta f);
             d_data := match f_data f with
                       | Some v => _dumps v
                       | None => []
                       end |}.
Proof.
  intros (Hdest & Haddr & Htype & Hmeta & Hdata).
  destruct f as [dest type data meta]. simpl in *.
  destruct dest as [|x1 [|]]; try done.
  destruct my_addr as [|x2 [|]]; try done.
  destruct type as [|x3 [|]]; try done.
  set (b_data := match data with Some v => _dumps v | None => [] end).
  set (m := default [x00] meta).
  assert (Hm : exists x4, m = [x4]).
  { subst m. destruct meta as [[|x4 [|]]|]; try done; by eexists. }
  destruct Hm as [x4 Hm].
  assert (Hlen : 0 <= HEADER_SIZE + Z.of_nat (length b_data) < 2 ^ 32).
  { subst b_data. unfold HEADER_SIZE in *.
    destruct data as [v|]; [destruct Hdata; lia | simpl; lia]. }
  pose proof (length_be_bytes 4 (HEADER_SIZE + Z.of_nat (length b_data)))
    as Hlb.
  unfold Scenario.encoded, _encode_frame, _construct_frame, to_bytes.
  cbv zeta. cbn [f_dest f_type f_data f_meta].
  fold b_data. change (match meta with Some m0 => m0 | None => [x00] end)
    with m. rewrite Hm.
  destruct (decide _) as [_|Hno];
    [|destruct Hno; change (256 ^ Z.of_nat 4) with (2 ^ 32); lia].
  destruct (be_bytes 4 (HEADER_SIZE + Z.of_nat (length b_data)))
    as [|a1 [|a2 [|a3 [|a4 [|]]]]]; try done.
  cbn [result_bind fst]. split; [by eexists|].
  unfold _decode_frame. simpl.
  by destruct (decide (VERSION <> VERSION)).
Qed.

Lemma get_frame_app (data more frame rest : bytes) :
  _get_frame data = (Some frame, rest) ->
  _get_frame (data ++ more) = (Some frame, rest ++ more).
Proof.
  unfold _get_frame, HEADER_SIZE. intros H.
  destruct (decide (Z.of_nat (length data) < 11)); [done|].
  destruct (decide (Z.of_nat (length data) < from_bytes (slice 0 4 data)));
    [done|].
  injection H as <- <-.
  rewrite slice_header_app by lia. rewrite length_app.
  rewrite !decide_False by lia.
  by rewrite take_app_le, drop_app_le by lia.
Qed.

Lemma get_frame_split (data : bytes) :
  match _get_frame data with
  | (Some frame, rest) =>
      frame ++ rest = data
      /\ Z.of_nat (length frame) = from_bytes (slice 0 4 data)
  | (None, rest) =>
      rest = data
      /\ (Z.of_nat (length data) < HEADER_SIZE
          \/ Z.of_nat (length data) < from_bytes (slice 0 4 data))
  end.
Proof.
  unfold _get_frame.
  destruct (decide (Z.of_nat (length data) < HEADER_SIZE)); [by auto|].
  destruct (decide (Z.of_nat (length data) < from_bytes (slice 0 4 data)));
    [by auto|].
  split; [apply take_drop|].
  pose proof (from_bytes_nonneg (slice 0 4 data)).
  rewrite length_take. lia.
Qed.

(** X1. Once [_get_frame] finds a frame in a buffer, it finds the same frame
    when more bytes have arrived behind it; the new bytes stay in the
    remainder. *)
Theorem get_frame_more_bytes (data more frame rest : bytes) :
  _get_frame data = (Some frame, rest) ->
  _get_frame (data ++ more) = (Some frame, rest ++ more).
Proof. apply get_frame_app. Qed.

(** X2. [_get_frame] cuts an encoded frame off the front of a buffer, whatever
    follows it, and finds no frame in a buffer that holds only a proper
    prefix of it. *)
Theorem get_frame_encoded (my_addr : bytes) (f : frame) (bs : bytes)
    (f' : frame) :
  valid_frame my_addr f ->
  _encode_frame my_addr f = Ok (bs, f') ->
  (forall rest, _get_frame (bs ++ rest) = (Some bs, rest))
  /\ (forall k, (k < length bs)%nat ->
                _get_frame (take k bs) = (None, take k bs)).
Proof.
  intros Hv He. destruct (encoded_length _ _ _ _ Hv He) as [H11 Hlen].
  split.
  - intros rest. rewrite <- (app_nil_l rest) at 2.
    rewrite <- (drop_all bs). apply get_frame_app.
    unfold _get_frame, HEADER_SIZE. rewrite Hlen, !decide_False by lia.
    rewrite Nat2Z.id. by rewrite firstn_all.
  - intros k Hk. unfold _get_frame, HEADER_SIZE.
    destruct (decide (Z.of_nat (length (take k bs)) < 11)); [done|].
    rewrite length_take in *.
    assert (slice 0 4 (take k bs) = slice 0 4 bs) as ->.
    { unfold slice. rewrite !drop_0, take_take. f_equal. lia. }
    rewrite Hlen. by rewrite decide_True by lia.
Qed.

(** X3. Whatever the buffer holds, [_get_frame] loses and reorders nothing:
    frame and remainder together are the buffer, the frame has the length
    the first four bytes announce, and without a frame the buffer is
    returned as it is. *)
Theorem get_frame_conserves (data : bytes) :
  match _get_frame data with
  | (Some frame, rest) =>
      frame ++ rest = data
      /\ Z.of_nat (length frame) = from_bytes (slice 0 4 data)
  | (None, rest) =>
      rest = data
      /\ (Z.of_nat (length data) < HEADER_SIZE
          \/ Z.of_nat (length data) < from_bytes (slice 0 4 data))
  end.
Proof. apply get_frame_split. Qed.

End FramingFacts.

Lemma get_frame_more_bytes_witness :
  Net._get_frame (Scenario.heart_frame [x01] ++ [x00; x00; x00])
  = (Some (Scenario.heart_frame [x01]), [] ++ [x00; x00; x00]).
Proof. apply get_frame_more_bytes. vm_compute. reflexivity. Defined.

Lemma get_frame_encoded_witness :
  (forall rest,
     Net._get_frame (Scenario.heart_frame [x01] ++ rest)
     = (Some (Scenario.heart_frame [x01]), rest))
  /\ (forall k, (k < length (Scenario.heart_frame [x01]))%nat ->
                Net._get_frame (take k (Scenario.heart_frame [x01]))
                = (None, take k (Scenario.heart_frame [x01]))).
Proof.
  apply (get_frame_encoded [x01]
           {| Net.f_dest := Net.SERVER_ADDR; Net.f_type := Net.FRAME_TYPE_HEART;
              Net.f_data := Some JNull; Net.f_meta := None |}
           (Scenario.heart_frame [x01])
           {| Net.f_dest := Net.SERVER_ADDR; Net.f_type := Net.FRAME_TYPE_HEART;
              Net.f_data := Some JNull; Net.f_meta := Some [x00] |}).
  - unfold valid_frame. simpl. repeat split; try done.
  - vm_compute. reflexivity.
Defined.
(** * The node's input stream *)

Section StreamFacts.
Import Net NetNode StreamSpec.

Lemma ignores_ret {A} (a : A) : ignores_inBuf (ret a).
Proof. by intros data n. Qed.

Lemma ignores_raise {A} e : ignores_inBuf (raise e : M node A).
Proof. by intros data n. Qed.

Lemma ignores_lift {A} (r : result A) : ignores_inBuf (lift r).
Proof. by intros data n. Qed.

Lemma ignores_modify (f : node -> node) :
  (forall data n, f (set_inBuf data n) = set_inBuf data (f n)) ->
  ignores_inBuf (modify f).
Proof. intros H data n. unfold modify. simpl. by rewrite H. Qed.

Lemma ignores_bind {A B} (m : M node A) (k : A -> M node B) :
  ignores_inBuf m -> (forall a, ignores_inBuf (k a)) ->
  ignores_inBuf (bind m k).
Proof.
  intros Hm Hk data n. unfold bind. rewrite Hm.
  destruct (m n) as [[a|e] n']; simpl; [apply Hk|done].
Qed.

Lemma ignores_bind_get {B} (k : node -> M node B) :
  (forall data n n', k (set_inBuf data n) n' = k n n') ->
  (forall n, ignores_inBuf (k n)) ->
  ignores_inBuf (bind get_state k).
Proof.
  intros H1 H2 data n. unfold bind, get_state. rewrite H1. apply H2.
Qed.

Lemma ignores_for_each {A} (xs : list A) (body : A -> M node unit) :
  (forall x, ignores_inBuf (body x)) -> ignores_inBuf (for_each xs body).
Proof.
  intros H. induction xs as [|x xs IH]; [apply ignores_ret|].
  apply ignores_bind; [apply H|]. intros _. apply IH.
Qed.

Ltac ignores_step :=
  lazymatch goal with
  | |- ignores_inBuf (bind get_state _) =>
      apply ignores_bind_get; [by intros ? ? ?|intros ?]
  | |- ignores_inBuf (bind _ _) => apply ignores_bind; [|intros ?]
  | |- ignores_inBuf (ret _) => apply ignores_ret
  | |- ignores_inBuf (raise _) => apply ignores_raise
  | |- ignores_inBuf (lift _) => apply ignores_lift
  | |- ignores_inBuf (for_each _ _) => apply ignores_for_each; intros ?
  | |- ignores_inBuf (modify _) =>
      apply ignores_modify; intros ? ?; simpl; repeat case_match; done
  | |- ignores_inBuf (match ?x with _ => _ end) => destruct x
  | |- ignores_inBuf (if ?x then _ else _) => destruct x
  end.

Lemma ignores_process_frame (frame : bytes) :
  ignores_inBuf (_process_frame frame).
Proof.
  unfold _process_frame, _process_dataframe, _process_peersframe,
    _process_sysmframe, _process_sysm_name, store_message.
  repeat ignores_step.
Qed.

Lemma set_inBuf_same (n : node) : set_inBuf (inBuf n) n = n.
Proof. by destruct n. Qed.

(** One call of [_process_inbuf], in terms of the frame it finds. *)
Lemma process_inbuf_S (depth : nat) (n : node) :
  _process_inbuf (S depth) n =
    match _get_frame (inBuf n) with
    | (None, rest) => (Ok tt, set_inBuf rest n)
    | (Some frame, rest) =>
        match _process_frame frame n with
        | (Ok _, n') =>
            if decide (Z.of_nat (length rest) > 0)
            then _process_inbuf depth (set_inBuf rest n')
            else (Ok tt, set_inBuf rest n')
        | (Raise e, n') => (Raise e, set_inBuf rest n')
        end
    end.
Proof.
  cbn [_process_inbuf]. unfold bind at 1. unfold get_state at 1.
  destruct (_get_frame (inBuf n)) as [[frame|] rest]; [|done].
  unfold bind at 1. unfold modify at 1. unfold bind at 1.
  rewrite ignores_process_frame.
  destruct (_process_frame frame n) as [[[]|e] n']; [|done].
  cbn [fst snd]. unfold bind at 1. unfold get_state at 1.
  cbn [inBuf set_inBuf]. by destruct (decide _).
Qed.

Lemma process_inbuf_deeper (depth : nat) :
  forall n n' depth',
    _process_inbuf depth n = (Ok tt, n') -> (depth <= depth')%nat ->
    _process_inbuf depth' n = (Ok tt, n').
Proof.
  induction depth as [|depth IH]; intros n n' depth' H Hd; [done|].
  destruct depth' as [|depth']; [lia|].
  rewrite process_inbuf_S in *.
  destruct (_get_frame (inBuf n)) as [[frame|] rest]; [|done].
  destruct (_process_frame frame n) as [[[]|e] m]; [|done].
  destruct (decide _); [|done]. apply IH; [done|lia].
Qed.

Lemma get_frame_framed (frame rest : bytes) :
  framed frame -> _get_frame (frame ++ rest) = (Some frame, rest).
Proof.
  intros [H11 Hlen]. rewrite <- (app_nil_l rest) at 2.
  rewrite <- (drop_all frame). apply get_frame_app.
  unfold _get_frame, HEADER_SIZE. rewrite Hlen, !decide_False by lia.
  rewrite Nat2Z.id. by rewrite firstn_all.
Qed.

Lemma process_inbuf_frames_eq (frames : list bytes) (tail : bytes) :
  Forall framed frames -> incomplete tail ->
  forall depth n,
    (length frames < depth)%nat ->
    exists rest,
      _process_inbuf depth (set_inBuf (concat frames ++ tail) n)
      = ((for_each frames _process_frame n).1,
         set_inBuf rest (for_each frames _process_frame n).2)
      /\ ((for_each frames _process_frame n).1 = Ok tt -> rest = tail).
Proof.
  intros Hf Ht.
  induction Hf as [|frame frames Hframe Hf IH]; intros depth n Hd;
    (destruct depth as [|depth]; [simpl in Hd; lia|]);
    rewrite process_inbuf_S; cbn [inBuf set_inBuf].
  - simpl. rewrite Ht. by exists tail.
  - cbn [concat]. rewrite <- app_assoc. rewrite get_frame_framed by done.
    rewrite ignores_process_frame. cbn [for_each]. unfold bind.
    destruct (_process_frame frame n) as [[[]|e] m]; cbn [fst snd].
    + change (set_inBuf ?x (set_inBuf ?y ?n)) with (set_inBuf x n).
      destruct (decide _) as [Hpos|Hzero].
      * apply IH. simpl in Hd. lia.
      * assert (concat frames ++ tail = []) as Hnil
          by (apply length_zero_iff_nil; lia).
        rewrite Hnil. apply app_eq_nil in Hnil as [Hc ->].
        assert (frames = []) as ->.
        { destruct Hf as [|f fs [Hf11 _] _]; [done|].
          simpl in Hc. apply app_eq_nil in Hc as [-> _]. simpl in Hf11. lia. }
        by exists [].
    + by eexists.
Qed.

(** X4. A buffer that holds complete frames and then an incomplete rest:
    [_process_inbuf] hands the frames to [_process_frame] one after the
    other, in their order, up to the first that raises, and what that one
    raises is raised; when none does, the incomplete rest is what stays in
    the buffer. *)
Theorem process_inbuf_frames (frames : list bytes) (tail : bytes)
    (depth : nat) (n : node) :
  Forall framed frames -> incomplete tail -> (length frames < depth)%nat ->
  let r := _process_inbuf depth (set_inBuf (concat frames ++ tail) n) in
  let r0 := for_each frames _process_frame n in
  r.1 = r0.1
  /\ exists rest, r.2 = set_inBuf rest r0.2 /\ (r0.1 = Ok tt -> rest = tail).
Proof.
  intros Hf Ht Hd.
  destruct (process_inbuf_frames_eq frames tail Hf Ht depth n Hd)
    as (rest & Heq & Hrest).
  cbv zeta. rewrite Heq. split; [done|]. by exists rest.
Qed.

Lemma recv_loop_concat (chunks : list bytes) (n : node) (sk : socket_state) :
  Forall (fun chunk => chunk <> []) chunks ->
  socket n = Some sk -> sock_closed sk = false ->
  recv_loop chunks n = (Ok tt, set_inBuf (inBuf n ++ concat chunks) n).
Proof.
  intros Hc. revert n.
  induction Hc as [|chunk chunks Hne Hc IH]; intros n Hs Hopen;
    cbn [recv_loop]; unfold bind at 1; unfold live_socket at 1;
    unfold bind at 1; unfold get_state at 1; rewrite Hs, Hopen; simpl.
  - by rewrite app_nil_r, set_inBuf_same.
  - destruct chunk as [|x chunk]; [done|].
    unfold bind at 1. unfold modify at 1.
    rewrite IH by done. simpl. by rewrite <- app_assoc.
Qed.

Lemma recv_loop_live (chunks : list bytes) (n n' : node) :
  recv_loop chunks n = (Ok tt, n') ->
  exists sk, socket n = Some sk /\ sock_closed sk = false.
Proof.
  destruct chunks as [|chunk chunks]; cbn [recv_loop];
    unfold bind at 1; unfold live_socket at 1;
    unfold bind at 1; unfold get_state at 1;
    destruct (socket n) as [sk|]; try done;
    destruct (sock_closed sk) eqn:Hopen; try done; by exists sk.
Qed.

Lemma process_inbuf_split (depth : nat) :
  forall a b n n1 n2 depth2 depth',
    _process_inbuf depth (set_inBuf a n) = (Ok tt, n1) ->
    _process_inbuf depth2 (set_inBuf (inBuf n1 ++ b) n1) = (Ok tt, n2) ->
    (depth + depth2 <= depth')%nat ->
    _process_inbuf depth' (set_inBuf (a ++ b) n) = (Ok tt, n2).
Proof.
  induction depth as [|depth IH]; intros a b n n1 n2 depth2 depth' H1 H2 Hd;
    [done|].
  destruct depth' as [|depth']; [lia|].
  rewrite process_inbuf_S in H1. cbn [inBuf set_inBuf] in H1.
  destruct (_get_frame a) as [[frame|] rest] eqn:Hget.
  - rewrite process_inbuf_S. cbn [inBuf set_inBuf].
    rewrite (get_frame_app _ b _ _ Hget).
    rewrite ignores_process_frame in H1 |- *.
    destruct (_process_frame frame n) as [[[]|e] m]; [|done].
    cbn [fst snd] in H1 |- *. rewrite length_app.
    destruct (decide (Z.of_nat (length rest) > 0)) as [Hpos|Hzero].
    + rewrite decide_True by lia.
      apply (IH _ _ _ n1 _ depth2); [done|done|lia].
    + assert (rest = []) as -> by (apply length_zero_iff_nil; lia).
      injection H1 as <-. cbn [inBuf set_inBuf app] in H2 |- *.
      destruct (decide _) as [Hb|Hb].
      * apply (process_inbuf_deeper depth2); [done|lia].
      * assert (b = []) as -> by (apply length_zero_iff_nil; simpl in Hb; lia).
        destruct depth2 as [|depth2]; [done|].
        rewrite process_inbuf_S in H2. by simpl in H2.
  - pose proof (get_frame_split a) as Hc. rewrite Hget in Hc.
    destruct Hc as [-> _]. injection H1 as <-.
    apply (process_inbuf_deeper depth2); [exact H2|lia].
Qed.

(** X5. How the received bytes are cut into chunks and into calls of
    [process_recv] makes no difference: when two calls in a row return, one
    call that receives all their chunks ends in the same state, if the
    interpreter allows as many nested calls as the two took together. *)
Theorem process_recv_chunking (chunks1 chunks2 : list bytes)
    (depth1 depth2 depth : nat) (n n1 n2 : node) :
  Forall (fun chunk => chunk <> []) chunks1 ->
  Forall (fun chunk => chunk <> []) chunks2 ->
  process_recv chunks1 depth1 n = (Ok tt, n1) ->
  process_recv chunks2 depth2 n1 = (Ok tt, n2) ->
  (depth1 + depth2 <= depth)%nat ->
  process_recv (chunks1 ++ chunks2) depth n = (Ok tt, n2).
Proof.
  intros Hc1 Hc2 H1 H2 Hd.
  unfold process_recv, bind in H1, H2 |- *.
  destruct (recv_loop chunks1 n) as [[[]|e] m1] eqn:Hr1; [|done].
  destruct (recv_loop chunks2 n1) as [[[]|e] m2] eqn:Hr2; [|done].
  destruct (recv_loop_live _ _ _ Hr1) as (sk & Hs & Hopen).
  destruct (recv_loop_live _ _ _ Hr2) as (sk2 & Hs2 & Hopen2).
  rewrite (recv_loop_concat _ _ sk) in Hr1 by done.
  rewrite (recv_loop_concat _ _ sk2) in Hr2 by done.
  rewrite (recv_loop_concat _ _ sk)
    by (try apply Forall_app; done).
  injection Hr1 as <-. injection Hr2 as <-.
  rewrite concat_app, app_assoc.
  rewrite <- (set_inBuf_same n) at 1.
  change (set_inBuf ?x (set_inBuf ?y ?n)) with (set_inBuf x n).
  apply (process_inbuf_split depth1 _ _ _ n1 _ depth2); [|done|done].
  by rewrite set_inBuf_same.
Qed.

End StreamFacts.

Lemma process_inbuf_frames_witness :
  let frame :=
    Scenario.data_frame [x02] [x01] [Scenario.envelope "x" (JInt 1) false] in
  let r :=
    NetNode._process_inbuf 5
      (NetNode.set_inBuf (concat [frame] ++ [x00]) Scenario.bob_with_host) in
  let r0 :=
    for_each [frame] NetNode._process_frame Scenario.bob_with_host in
  r.1 = r0.1
  /\ exists rest,
       r.2 = NetNode.set_inBuf rest r0.2 /\ (r0.1 = Ok tt -> rest = [x00]).
Proof.
  apply (process_inbuf_frames
           [Scenario.data_frame [x02] [x01]
              [Scenario.envelope "x" (JInt 1) false]]
           [x00] 5 Scenario.bob_with_host).
  - constructor; [|constructor].
    split; vm_compute; [lia|reflexivity].
  - vm_compute. reflexivity.
  - simpl. lia.
Defined.

Lemma process_recv_chunking_witness :
  let frame :=
    Scenario.data_frame [x02] [x01] [Scenario.envelope "x" (JInt 1) false] in
  let n1 :=
    (NetNode.process_recv [take 5 frame] 5 Scenario.bob_with_host).2 in
  let n2 := (NetNode.process_recv [drop 5 frame] 5 n1).2 in
  NetNode.process_recv ([take 5 frame] ++ [drop 5 frame]) 10
    Scenario.bob_with_host
  = (Ok tt, n2).
Proof.
  intros frame n1 n2.
  apply (process_recv_chunking [take 5 frame] [drop 5 frame] 5 5 10
           Scenario.bob_with_host n1 n2).
  - constructor; [|constructor]. vm_compute. discriminate.
  - constructor; [|constructor]. vm_compute. discriminate.
  - vm_compute. reflexivity.
  - vm_compute. reflexivity.
  - lia.
Defined.

(** * The node's reading and sending methods *)

Section ReadingFacts.
Import NetNode NodeSpec.

Lemma available_stored (s t : string) (n : node) :
  available s t n = Z.of_nat (length (stored (KStr s) (KStr t) n)).
Proof.
  unfold available, stored.
  destruct (in_data n !! KStr s) as [titles|]; [|done].
  destruct (titles !! KStr t) as [q|]; [|done]. simpl.
  case_decide; [|done]. destruct q; simpl in *; lia.
Qed.

(** X6. [available] counts what arrived: envelopes with [queue] set add
    one each to the count of their sender and title, and after an envelope
    without [queue] the count is one. *)
Theorem available_counts_envelopes (s t : string) (n : node) :
  (forall messages contents,
     Forall2 (fun m c => envelope_of m = Some (KStr t, c, true))
       messages contents ->
     available s t (run (map (Put (KStr s)) messages) n)
     = available s t n + Z.of_nat (length messages))
  /\ (forall message content,
        envelope_of message = Some (KStr t, content, false) ->
        available s t (apply (Put (KStr s) message) n) = 1).
Proof.
  split.
  - intros messages contents H.
    rewrite !available_stored, stored_run.
    rewrite (fold_step_queue _ _ _ contents) by done.
    apply Forall2_length in H. rewrite length_app. lia.
  - intros message content H.
    rewrite available_stored, stored_put. unfold step. rewrite H.
    by rewrite decide_True.
Qed.

(** X7. [get_msg] without [clear] returns the oldest content and leaves the
    node as it is; with nothing stored for the sender and title it returns
    [None], whatever [clear] is, and no stored content changes. *)
Theorem get_msg_peek_or_none (s t : string) (clear : bool) (n : node) :
  match stored (KStr s) (KStr t) n with
  | x :: q => get_msg s t false n = (Ok x, n)
  | [] =>
      (get_msg s t clear n).1 = Ok JNull
      /\ forall sender title,
           stored sender title (get_msg s t clear n).2 = stored sender title n
  end.
Proof.
  destruct (stored (KStr s) (KStr t) n) as [|x q] eqn:Hq.
  - split.
    + revert Hq. unfold stored, get_msg, bind, get_state.
      destruct (in_data n !! KStr s) as [titles|]; [|done].
      by destruct (titles !! KStr t) as [[|y q']|].
    + intros sender title.
      change (get_msg s t clear n).2 with (apply (Get s t clear) n).
      rewrite stored_get. unfold step.
      destruct (decide _) as [[<- <-]|]; [|done].
      rewrite Hq. by destruct clear.
  - revert Hq. unfold stored, get_msg, bind, get_state.
    destruct (in_data n !! KStr s) as [titles|]; [|done].
    destruct (titles !! KStr t) as [[|y q']|]; simpl; try done.
    by intros [= -> _].
Qed.

(** X8. [get_all_msgs] returns everything stored for the sender and title,
    oldest first; with [clear] nothing is left of it afterwards and the
    contents of the other senders and titles stay, without [clear] the node
    stays as it is. With nothing stored it returns [None]. *)
Theorem get_all_msgs_takes_all (s t : string) (n : node) :
  match stored (KStr s) (KStr t) n with
  | x :: q =>
      get_all_msgs s t false n = (Ok (Some (x :: q)), n)
      /\ (get_all_msgs s t true n).1 = Ok (Some (x :: q))
      /\ available s t (get_all_msgs s t true n).2 = 0
      /\ forall sender title,
           ~ (KStr s = sender /\ KStr t = title) ->
           stored sender title (get_all_msgs s t true n).2
           = stored sender title n
  | [] =>
      forall clear,
        (get_all_msgs s t clear n).1 = Ok None
        /\ forall sender title,
             stored sender title (get_all_msgs s t clear n).2
             = stored sender title n
  end.
Proof.
  destruct (stored (KStr s) (KStr t) n) as [|x q] eqn:Hq.
  - intros clear. split.
    + revert Hq. unfold stored, get_all_msgs, bind, get_state.
      destruct (in_data n !! KStr s) as [titles|]; [|done].
      by destruct (titles !! KStr t) as [[|y q']|].
    + intros sender title.
      change (get_all_msgs s t clear n).2 with (apply (GetAll s t clear) n).
      rewrite stored_get_all. unfold step.
      destruct (decide _) as [[<- <-]|]; [|done].
      rewrite Hq. by destruct clear.
  - split; [|split; [|split]].
    + revert Hq. unfold stored, get_all_msgs, bind, get_state.
      destruct (in_data n !! KStr s) as [titles|]; [|done].
      destruct (titles !! KStr t) as [[|y q']|]; simpl; try done.
      by intros [= -> ->].
    + revert Hq. unfold stored, get_all_msgs, bind, get_state.
      destruct (in_data n !! KStr s) as [titles|]; [|done].
      destruct (titles !! KStr t) as [[|y q']|]; simpl; try done.
      by intros [= -> ->].
    + rewrite available_stored.
      change (get_all_msgs s t true n).2 with (apply (GetAll s t true) n).
      rewrite stored_get_all. unfold step. by rewrite decide_True.
    + intros sender title Hne.
      change (get_all_msgs s t true n).2 with (apply (GetAll s t true) n).
      rewrite stored_get_all. unfold step. by rewrite decide_False.
Qed.

Lemma assoc_get_set_eq {K A} `{EqDecision K} (k : K) (v : A)
    (d : list (K * A)) :
  assoc_get k (assoc_set k v d) = Some v.
Proof.
  induction d as [|[k' v'] d IH]; simpl.
  - by rewrite decide_True.
  - destruct (decide (k' = k)) as [->|Hne]; simpl.
    + by rewrite decide_True.
    + by rewrite decide_False.
Qed.

Lemma assoc_get_set_ne {K A} `{EqDecision K} (k k' : K) (v : A)
    (d : list (K * A)) :
  k' <> k -> assoc_get k' (assoc_set k v d) = assoc_get k' d.
Proof.
  intros Hne. induction d as [|[k0 v0] d IH]; simpl.
  - by rewrite decide_False.
  - destruct (decide (k0 = k)) as [->|Hne0]; simpl.
    + by rewrite !decide_False.
    + destruct (decide (k0 = k')); [done|apply IH].
Qed.

(** X9. [send_msg] to a name of the peer map, or to "ALL" when no peer has
    that name, returns [True] and puts the envelope behind those that wait
    for the same destination; what waits for other destinations stays, and
    nothing else of the node changes: no byte is sent yet. *)
Theorem send_msg_enqueues (n : node) (name : string)
    (title content queue : json) (dest : bytes) :
  _get_peer_addr name n = Some dest ->
  let r := send_msg name title content queue n in
  r.1 = Ok true
  /\ assoc_get dest (out_data r.2)
     = Some (default [] (assoc_get dest (out_data n))
             ++ [JDict [("title", title); ("content", content);
                        ("queue", queue)]])
  /\ (forall dest', dest' <> dest ->
                    assoc_get dest' (out_data r.2)
                    = assoc_get dest' (out_data n))
  /\ set_out_data (out_data n) r.2 = n
  /\ dest = match assoc_get (KStr name) (peers n) with
            | Some addr => addr
            | None => Net.ALL_CLIENTS
            end.
Proof.
  intros Hd. unfold send_msg, bind, get_state. rewrite Hd. simpl.
  split; [done|]. split; [apply assoc_get_set_eq|].
  split; [intros dest' Hne; by apply assoc_get_set_ne|].
  split; [by destruct n|].
  revert Hd. unfold _get_peer_addr.
  destruct (assoc_get (KStr name) (peers n)); [congruence|].
  destruct (decide _); congruence.
Qed.

End ReadingFacts.

Lemma send_msg_enqueues_witness :
  let r :=
    NetNode.send_msg "host" (JStr "x") (JInt 1) (JBool false)
      Scenario.bob_with_host in
  r.1 = Ok true
  /\ assoc_get [x01] (NetNode.out_data r.2)
     = Some [Scenario.envelope "x" (JInt 1) false].
Proof.
  destruct (send_msg_enqueues Scenario.bob_with_host "host" (JStr "x")
              (JInt 1) (JBool false) [x01]) as (H1 & H2 & _).
  - vm_compute. reflexivity.
  - split; [exact H1|exact H2].
Defined.

Lemma available_counts_envelopes_witness :
  NetNode.available "host" "x"
    (NodeSpec.run
       (map (NodeSpec.Put (KStr "host"))
          [Scenario.envelope "x" (JInt 1) true;
           Scenario.envelope "x" (JInt 2) true])
       Scenario.bob_with_host)
  = NetNode.available "host" "x" Scenario.bob_with_host + Z.of_nat 2.
Proof.
  apply (proj1 (available_counts_envelopes "host" "x" Scenario.bob_with_host)
           [Scenario.envelope "x" (JInt 1) true;
            Scenario.envelope "x" (JInt 2) true]
           [JInt 1; JInt 2]).
  repeat constructor.
Defined.

Lemma get_all_msgs_takes_all_witness :
  let n :=
    NodeSpec.apply
      (NodeSpec.Put (KStr "host") (Scenario.envelope "x" (JInt 1) true))
      Scenario.bob_with_host in
  (NetNode.get_all_msgs "host" "x" true n).1 = Ok (Some [JInt 1])
  /\ NodeSpec.stored (KStr "host") (KStr "y")
       (NetNode.get_all_msgs "host" "x" true n).2
     = NodeSpec.stored (KStr "host") (KStr "y") n.
Proof.
  intros n. pose proof (get_all_msgs_takes_all "host" "x" n) as H.
  replace (NodeSpec.stored (KStr "host") (KStr "x") n) with [JInt 1] in H
    by (vm_compute; reflexivity).
  destruct H as (_ & H2 & _ & H4). split; [exact H2|].
  apply H4. intros [_ [=]].
Defined.

(** * The node's sending path *)

Section SendingFacts.
Import Net NetNode SendSpec.

Lemma encode_fits (my_addr dest ty : bytes) (v : json) :
  fits v ->
  exists f',
    _encode_frame my_addr
      {| f_dest := dest; f_type := ty; f_data := Some v; f_meta := None |}
    = Ok (Scenario.encoded my_addr
            {| f_dest := dest; f_type := ty; f_data := Some v;
               f_meta := None |}, f').
Proof.
  intros Hfit. unfold Scenario.encoded, _encode_frame, _construct_frame,
    to_bytes. cbn [f_data f_meta f_dest f_type].
  unfold fits in Hfit.
  destruct (decide (0 <= HEADER_SIZE + Z.of_nat (length (_dumps v))
                    < 256 ^ Z.of_nat 4)) as [|Hno].
  - simpl. by eexists.
  - exfalso. apply Hno. unfold HEADER_SIZE in *. split; [lia|apply Hfit].
Qed.

Lemma assoc_get_app_fresh {A} (k : bytes) (v : A) (l1 l2 : list (bytes * A)) :
  k ∉ map fst l1 -> assoc_get k (l1 ++ (k, v) :: l2) = Some v.
Proof.
  intros Hk. induction l1 as [|[k' v'] l1 IH]; simpl.
  - by rewrite decide_True.
  - simpl in Hk. apply not_elem_of_cons in Hk as [Hne Hk].
    rewrite decide_False by done. by apply IH.
Qed.

Lemma assoc_set_app_fresh {A} (k : bytes) (v w : A)
    (l1 l2 : list (bytes * A)) :
  k ∉ map fst l1 ->
  assoc_set k w (l1 ++ (k, v) :: l2) = l1 ++ (k, w) :: l2.
Proof.
  intros Hk. induction l1 as [|[k' v'] l1 IH]; simpl.
  - by rewrite decide_True.
  - simpl in Hk. apply not_elem_of_cons in Hk as [Hne Hk].
    rewrite decide_False by done. by rewrite IH.
Qed.

Lemma cleared_keys (l : list (bytes * list json)) :
  map fst (cleared l) = map fst l.
Proof. unfold cleared. rewrite map_map. by apply map_ext. Qed.

(** The loop of [process_send] over the destinations, from any point on:
    [done] are the entries it has been through. *)
Lemma batch_loop (todo : list (bytes * list json)) :
  forall (done : list (bytes * list json)) (n : node),
    NoDup (map fst (done ++ todo)) ->
    Forall (fun p => fits (JList p.2)) todo ->
    out_data n = cleared done ++ todo ->
    for_each (map fst todo) (fun dest =>
      do n <- get_state;;
      match assoc_get dest (out_data n) with
      | Some (m :: ms) =>
          _send_data_frame dest (m :: ms);;
          modify (fun n => set_out_data (assoc_set dest [] (out_data n)) n)
      | _ => ret tt
      end)%M n
    = (Ok tt,
       set_out_data (cleared (done ++ todo))
         (set_outBuf (outBuf n ++ concat (map (batch (my_addr n)) todo)) n)).
Proof.
  induction todo as [|[dest msgs] todo IH]; intros done n Hnd Hfit Hout.
  - simpl. rewrite !app_nil_r in *. rewrite <- Hout. by destruct n.
  - assert (Hfresh : dest ∉ map fst (cleared done)).
    { rewrite cleared_keys. rewrite map_app in Hnd.
      apply list.NoDup_app in Hnd as (_ & Hd & _).
      intros Hin. apply (Hd _ Hin). simpl. apply elem_of_cons. by left. }
    apply list.Forall_cons in Hfit as [Hfit1 Hfit].
    cbn [map fst for_each]. unfold bind at 1. unfold bind at 1.
    unfold get_state at 1. rewrite Hout, assoc_get_app_fresh by done.
    assert (Hnd' : NoDup (map fst ((done ++ [(dest, msgs)]) ++ todo)))
      by (by rewrite <- app_assoc).
    assert (Hcl : cleared (done ++ [(dest, msgs)]) ++ todo
                  = cleared done ++ (dest, []) :: todo).
    { unfold cleared. rewrite map_app, <- app_assoc. done. }
    destruct msgs as [|m ms].
    + unfold ret at 1.
      rewrite (IH (done ++ [(dest, [])]) n Hnd' Hfit) by (by rewrite Hcl).
      by rewrite <- app_assoc.
    + unfold _send_data_frame, _send_frame.
      unfold bind at 1. unfold bind at 1. unfold get_state at 1.
      unfold bind at 1. unfold lift at 1.
      destruct (encode_fits (my_addr n) dest FRAME_TYPE_DATA
                  (JList (m :: ms)) Hfit1) as [f' ->].
      unfold _send_bytes, modify. cbn [fst snd out_data set_outBuf].
      rewrite Hout, assoc_set_app_fresh by done.
      rewrite (IH (done ++ [(dest, m :: ms)]) _ Hnd' Hfit)
        by (by rewrite Hcl).
      cbn [outBuf set_out_data set_outBuf my_addr concat map].
      rewrite <- !app_assoc. unfold batch at 2. cbn [fst snd].
      unfold Scenario.data_frame. by destruct n.
Qed.

Lemma send_loop_accepts (sends : list (option nat)) :
  forall (n : node) (sk : socket_state),
    socket n = Some sk -> sock_closed sk = false ->
    send_loop sends n
    = (Ok tt,
       set_socket
         (Some {| sock_closed := false;
                  sock_sent := sock_sent sk
                               ++ take (accepted sends) (outBuf n) |})
         (set_outBuf (drop (accepted sends) (outBuf n)) n)).
Proof.
  assert (Hstay : forall (n : node) (sk : socket_state) k,
            socket n = Some sk -> sock_closed sk = false ->
            (k = O \/ outBuf n = []) ->
            n = set_socket
                  (Some {| sock_closed := false;
                           sock_sent := sock_sent sk ++ take k (outBuf n) |})
                  (set_outBuf (drop k (outBuf n)) n)).
  { intros n sk k Hs Hopen Hk. destruct n, sk. simpl in *. subst.
    destruct Hk as [->| ->]; simpl.
    - by rewrite app_nil_r.
    - by rewrite take_nil, drop_nil, app_nil_r. }
  induction sends as [|[k|] sends IH]; intros n sk Hs Hopen;
    cbn [send_loop]; unfold bind at 1; unfold get_state at 1.
  - destruct (outBuf n) eqn:Hob.
    + unfold ret. f_equal. rewrite <- Hob. apply Hstay; auto.
    + unfold bind at 1. unfold live_socket, bind at 1.
      unfold get_state at 1. rewrite Hs, Hopen. unfold ret. f_equal.
      rewrite <- Hob. apply Hstay; auto.
  - destruct (outBuf n) eqn:Hob.
    + unfold ret. f_equal. rewrite <- Hob. apply Hstay; auto.
    + unfold bind at 1. unfold live_socket, bind at 1.
      unfold get_state at 1. rewrite Hs, Hopen. unfold ret at 1.
      unfold bind at 1. unfold modify at 1.
      rewrite (IH _ {| sock_closed := sock_closed sk;
                       sock_sent := sock_sent sk ++ take k (outBuf n) |})
        by done.
      cbn [outBuf set_outBuf set_socket sock_sent accepted].
      rewrite <- Hob, <- app_assoc, take_take_drop, drop_drop.
      by destruct n.
  - destruct (outBuf n) eqn:Hob.
    + unfold ret. f_equal. rewrite <- Hob. apply Hstay; auto.
    + unfold bind at 1. unfold live_socket, bind at 1.
      unfold get_state at 1. rewrite Hs, Hopen. unfold ret. f_equal.
      rewrite <- Hob. apply Hstay; auto.
Qed.

(** X10. [process_send] turns the envelopes that wait for a destination
    into one DATA frame, destination after destination in the order of
    their first use, behind what the output buffer holds already, and
    empties the waiting lists. Of these bytes the socket gets as many as it
    accepts, from the front; the others stay in the output buffer in their
    order. The time of the last transmission becomes [now]. *)
Theorem process_send_batches (now : Z) (sends : list (option nat))
    (n : node) (sk : socket_state) :
  NoDup (map fst (out_data n)) ->
  Forall (fun p => fits (JList p.2)) (out_data n) ->
  socket n = Some sk -> sock_closed sk = false ->
  let wire := outBuf n ++ concat (map (batch (my_addr n)) (out_data n)) in
  wire <> [] ->
  process_send now sends n
  = (Ok tt,
     set_socket
       (Some {| sock_closed := false;
                sock_sent := sock_sent sk ++ take (accepted sends) wire |})
       (set_outBuf (drop (accepted sends) wire)
          (set_heartBeatTime now
             (set_out_data (cleared (out_data n)) n)))).
Proof.
  intros Hnd Hfit Hs Hopen wire Hwire.
  unfold process_send. unfold bind at 1. unfold get_state at 1.
  unfold bind at 1.
  rewrite (batch_loop (out_data n) [] n) by done.
  fold wire. cbn [app]. unfold bind at 1. unfold get_state at 1.
  cbn [outBuf set_out_data set_outBuf].
  destruct wire as [|x wire'] eqn:Hw; [done|].
  unfold bind at 1. unfold modify at 1.
  rewrite (send_loop_accepts sends _ sk) by done.
  by destruct n.
Qed.

Lemma idle_loop (keys : list bytes) (n : node) :
  Forall (fun p => p.2 = []) (out_data n) ->
  for_each keys (fun dest =>
    do n <- get_state;;
    match assoc_get dest (out_data n) with
    | Some (m :: ms) =>
        _send_data_frame dest (m :: ms);;
        modify (fun n => set_out_data (assoc_set dest [] (out_data n)) n)
    | _ => ret tt
    end)%M n
  = (Ok tt, n).
Proof.
  intros Hidle. induction keys as [|dest keys IH]; [done|].
  cbn [for_each]. unfold bind at 1. unfold bind at 1. unfold get_state at 1.
  assert (Hget : forall l : list (bytes * list json),
            Forall (fun p => p.2 = []) l ->
            assoc_get dest l = None \/ assoc_get dest l = Some []).
  { intros l Hl. induction Hl as [|[k v] l Hv _ IHl]; [by left|].
    simpl in *. subst. destruct (decide (k = dest)); auto. }
  by destruct (Hget _ Hidle) as [-> | ->].
Qed.

(** X11. With nothing waiting and an empty output buffer, [process_send]
    calls no [socket.send]. When more than a second has passed since the
    last transmission it puts a HEART frame in the output buffer, where it
    stays until the next call, and notes the time; otherwise it leaves the
    node as it is. *)
Theorem process_send_idle (now : Z) (sends : list (option nat)) (n : node) :
  outBuf n = [] ->
  Forall (fun p => p.2 = []) (out_data n) ->
  process_send now sends n
  = (Ok tt,
     if decide (now > heartBeatTime n + 1 * second)
     then set_outBuf (Scenario.heart_frame (my_addr n))
            (set_heartBeatTime now n)
     else n).
Proof.
  intros Hob Hidle. unfold process_send.
  unfold bind at 1. unfold get_state at 1. unfold bind at 1.
  rewrite idle_loop by done.
  unfold bind at 1. unfold get_state at 1. rewrite Hob.
  unfold _send_heartbeat_frame, bind, get_state.
  destruct (decide _) as [_|]; [|done].
  unfold _send_frame, _send_bytes, bind, get_state, lift, modify.
  simpl. by rewrite Hob.
Qed.

End SendingFacts.

Lemma process_send_batches_witness :
  let n :=
    (NetNode.send_msg "host" (JStr "x") (JInt 1) (JBool false)
       Scenario.bob_with_host).2 in
  let sk :=
    {| NetNode.sock_closed := false;
       NetNode.sock_sent := Scenario.auth_frame Net.UNKNOWN_ADDR "bob" "g" |} in
  let wire :=
    NetNode.outBuf n
    ++ concat (map (SendSpec.batch (NetNode.my_addr n)) (NetNode.out_data n)) in
  NetNode.process_send 0 [Some 1024%nat] n
  = (Ok tt,
     NetNode.set_socket
       (Some {| NetNode.sock_closed := false;
                NetNode.sock_sent :=
                  NetNode.sock_sent sk
                  ++ take (SendSpec.accepted [Some 1024%nat]) wire |})
       (NetNode.set_outBuf (drop (SendSpec.accepted [Some 1024%nat]) wire)
          (NetNode.set_heartBeatTime 0
             (NetNode.set_out_data (SendSpec.cleared (NetNode.out_data n))
                n)))).
Proof.
  intros n sk wire.
  apply (process_send_batches 0 [Some 1024%nat] n sk).
  - by apply (bool_decide_unpack _).
  - constructor; [|constructor]. vm_compute. reflexivity.
  - vm_compute. reflexivity.
  - reflexivity.
  - vm_compute. discriminate.
Defined.

Lemma process_send_idle_witness :
  NetNode.process_send 2000 [] Scenario.bob_with_host
  = (Ok tt,
     if decide (2000 > NetNode.heartBeatTime Scenario.bob_with_host
                       + 1 * second)
     then NetNode.set_outBuf
            (Scenario.heart_frame (NetNode.my_addr Scenario.bob_with_host))
            (NetNode.set_heartBeatTime 2000 Scenario.bob_with_host)
     else Scenario.bob_with_host).
Proof.
  apply (process_send_idle 2000 [] Scenario.bob_with_host).
  - vm_compute. reflexivity.
  - vm_compute. constructor.
Defined.

(** * What a node makes of the frames it receives *)

Section DeliveryFacts.
Import Net NetNode NodeSpec SendSpec DeliverySpec StreamSpec.

(** X12. A frame with another version tag makes [_process_inbuf] raise:
    the frame is gone from the input buffer, what came behind it is still
    there, and nothing else of the node changes. A frame of a type other
    than DATA, PEERS and SYSM is dropped in the same way without an
    exception when it is the last of the buffer. *)
Theorem process_inbuf_rejects (depth : nat) (n : node) (frame rest : bytes) :
  _get_frame (inBuf n) = (Some frame, rest) ->
  (slice 4 7 frame <> VERSION ->
   _process_inbuf (S depth) n
   = (Raise (VersionError (slice 4 7 frame)), set_inBuf rest n))
  /\ (slice 4 7 frame = VERSION ->
      slice 9 10 frame <> FRAME_TYPE_DATA ->
      slice 9 10 frame <> FRAME_TYPE_PEERS ->
      slice 9 10 frame <> FRAME_TYPE_SYSM ->
      rest = [] ->
      _process_inbuf (S depth) n = (Ok tt, set_inBuf [] n)).
Proof.
  intros Hget. rewrite process_inbuf_S, Hget.
  unfold _process_frame, _decode_frame, bind, lift. split.
  - intros Hv. by rewrite decide_True.
  - intros Hv H1 H2 H3 ->. rewrite decide_False by (by intros []).
    cbn [d_type]. by rewrite !decide_False.
Qed.

Lemma store_message_ok (sender : pykey) (message : json) (n : node) :
  is_Some (envelope_of message) ->
  store_message sender message n = (Ok tt, apply (Put sender message) n).
Proof.
  intros [e He]. unfold apply. revert He.
  unfold envelope_of, store_message, bind, lift, modify.
  destruct (subscript message "title") as [title|]; [|done].
  destruct (subscript message "content") as [content|]; [|done].
  destruct (subscript message "queue") as [queue|]; [|done].
  simpl. by destruct (hash_key title).
Qed.

Lemma for_each_store_all (sender : pykey) (envelopes : list json) :
  Forall (fun m => is_Some (envelope_of m)) envelopes ->
  forall n,
    for_each envelopes (store_message sender) n
    = (Ok tt, run (map (Put sender) envelopes) n).
Proof.
  induction 1 as [|m envelopes Hm _ IH]; intros n; [done|].
  cbn [for_each]. unfold bind. rewrite store_message_ok by done.
  by rewrite IH.
Qed.

(** X13. A node that processes the DATA frame a sender made of a list of
    envelopes stores every envelope, in the order of the list, under the
    name its peer map gives for the sender's address. *)
Theorem data_frame_delivery (dest sender : bytes) (envelopes : list json)
    (n : node) :
  length dest = 1%nat -> length sender = 1%nat ->
  wf_json (JList envelopes) -> fits (JList envelopes) ->
  Forall (fun m => is_Some (envelope_of m)) envelopes ->
  _process_frame (Scenario.data_frame dest sender envelopes) n
  = (Ok tt, run (map (Put (_get_name_from_addr sender n)) envelopes) n).
Proof.
  intros Hd Hs Hwf Hfit Henv.
  destruct (decode_encoded sender
              {| f_dest := dest; f_type := FRAME_TYPE_DATA;
                 f_data := Some (JList envelopes); f_meta := None |})
    as [_ Hdec].
  { unfold valid_frame. cbn [f_dest f_type f_data f_meta]. auto 6. }
  unfold _process_frame, Scenario.data_frame, bind at 1, lift at 1.
  rewrite Hdec. cbn [d_type f_type]. rewrite decide_True by done.
  unfold _process_dataframe, bind, get_state, lift. cbn [d_data d_sender f_data].
  rewrite loads_dumps by done. cbn [iterate].
  by apply for_each_store_all.
Qed.

Lemma to_bytes_valid_addr (a : bytes) :
  ServerSpec.valid_addr a -> to_bytes 1 (from_bytes a) = Ok a.
Proof.
  intros (k & Hk & ->). rewrite from_bytes_be_bytes.
  change (256 ^ Z.of_nat 1) with 256. rewrite Z.mod_small by lia.
  unfold to_bytes. change (256 ^ Z.of_nat 1) with 256.
  by rewrite decide_True by lia.
Qed.

(** The loop of [_process_peersframe] over the entries of a PEERS frame. *)
Lemma peers_loop (entries : list (json * bytes)) :
  Forall (fun e => (exists k, hash_key e.1 = Ok k)
                   /\ ServerSpec.valid_addr e.2) entries ->
  forall n,
    for_each
      (map (fun e => JDict [("name", e.1); ("addr", JInt (from_bytes e.2))])
         entries)
      (fun peer =>
        do a <- lift (subscript peer "addr");;
        do addr <- lift (addr_to_bytes a);;
        do nm <- lift (subscript peer "name");;
        do k <- lift (hash_key nm);;
        modify (fun n => set_peers (assoc_set k addr (peers n)) n))%M n
    = (Ok tt,
       set_peers
         (fold_left (fun d kv => assoc_set kv.1 kv.2 d)
            (map (fun e => (match hash_key e.1 with
                            | Ok k => k
                            | Raise _ => KNone
                            end, e.2)) entries)
            (peers n)) n).
Proof.
  induction 1 as [|[nm a] entries [[k Hk] Ha] _ IH]; intros n.
  - simpl. by destruct n.
  - simpl in Hk, Ha. cbn [map for_each]. unfold bind at 1.
    unfold bind at 1, lift at 1. cbn [subscript assoc_get of_option].
    rewrite decide_False by done. rewrite decide_True by done.
    cbn [of_option]. unfold bind at 1, lift at 1. cbn [addr_to_bytes snd].
    rewrite to_bytes_valid_addr by done.
    unfold bind at 1, lift at 1. cbn [subscript assoc_get of_option].
    rewrite decide_True by done. cbn [of_option fst].
    unfold bind at 1, lift at 1. rewrite Hk. unfold modify at 1.
    rewrite IH. cbn [fold_left peers set_peers fst snd].
    by destruct n.
Qed.

(** X14. A node processes the PEERS frame the server makes for a group
    whose clients have names that can be keys: its peer map becomes the
    list of the names of the group with their addresses, in the order of
    the server's list, and its own address the one listed for its name. *)
Theorem peers_frame_delivery (s : NetServer.server) (g : string) (n : node)
    (nm : json) (k : pykey) (a : bytes) :
  ServerSpec.well_formed s -> g <> "" ->
  length (NetServer.my_addr s) = 1%nat ->
  (forall c, c ∈ NetServer._get_clients_by_group g s ->
             exists k, hash_key (NetServer.name (NetServer.deref s c)) = Ok k) ->
  fits (NetServer._get_peers_list g s) ->
  name n = Some nm -> hash_key nm = Ok k ->
  assoc_get k (peer_map g s) = Some a ->
  _process_frame (peers_frame g s) n
  = (Ok tt, set_my_addr a (set_peers (peer_map g s) n)).
Proof.
  intros (_ & _ & _ & Hvalid) Hg Hsrv Hnames Hfit Hname Hkey Hmine.
  set (members := NetServer._get_clients_by_group g s) in *.
  set (entries := map (fun c => (NetServer.name (NetServer.deref s c),
                                 NetServer.addr (NetServer.deref s c)))
                    members).
  assert (Hlist : NetServer._get_peers_list g s
                  = JList (map (fun e => JDict [("name", e.1);
                                                ("addr", JInt (from_bytes e.2))])
                             entries)).
  { unfold NetServer._get_peers_list, entries. fold members.
    by rewrite map_map. }
  assert (Hentries : Forall (fun e => (exists k, hash_key e.1 = Ok k)
                                      /\ ServerSpec.valid_addr e.2) entries).
  { unfold entries. apply Forall_map, list.Forall_forall. intros c Hc.
    change (c ∈ members) in Hc.
    split; [by apply Hnames|]. apply Hvalid.
    apply elem_of_clients_by_group in Hc as [Hc Hgc].
    split; [done|]. by rewrite Hgc. }
  assert (Hwf : wf_json (NetServer._get_peers_list g s)).
  { rewrite Hlist. apply wf_json_list, Forall_map.
    eapply list.Forall_impl; [apply Hentries|].
    intros [v b0] [[k0 Hk0] _]. apply wf_json_dict. split.
    - by apply (bool_decide_unpack _).
    - repeat constructor. simpl in *. by destruct v. }
  destruct (decode_encoded (NetServer.my_addr s)
              {| f_dest := ALL_CLIENTS; f_type := FRAME_TYPE_PEERS;
                 f_data := Some (NetServer._get_peers_list g s);
                 f_meta := None |})
    as [_ Hdec].
  { unfold valid_frame. cbn [f_dest f_type f_data f_meta]. auto 6. }
  unfold _process_frame, peers_frame, bind at 1, lift at 1.
  rewrite Hdec. cbn [d_type f_type].
  rewrite decide_False by done. rewrite decide_True by done.
  unfold _process_peersframe. unfold bind at 1, lift at 1.
  cbn [d_data f_data]. rewrite loads_dumps by done.
  unfold bind at 1, modify at 1. unfold bind at 1, lift at 1.
  rewrite Hlist. cbn [iterate]. unfold bind at 1.
  rewrite (peers_loop entries Hentries). cbn [peers set_peers].
  assert (Hmap : fold_left (fun d kv => assoc_set kv.1 kv.2 d)
                   (map (fun e => (match hash_key e.1 with
                                   | Ok k => k
                                   | Raise _ => KNone
                                   end, e.2)) entries) []
                 = peer_map g s).
  { unfold peer_map, dict_of_pairs, entries. fold members.
    by rewrite map_map. }
  rewrite Hmap. unfold bind, get_state, lift, modify.
  cbn [name set_peers peers]. rewrite Hname. cbn [of_option].
  rewrite Hkey, Hmine. by destruct n.
Qed.

(** X15. A node that processes the SYSM frame with which the server tells a
    client its name takes that name; nothing else of the node changes. *)
Theorem sysm_name_delivery (sender dest : bytes) (nm : string) (n : node) :
  length sender = 1%nat -> length dest = 1%nat ->
  fits (JDict [("type", JInt SYSM_TYPE_NAME); ("msg", JNull);
               ("data", JStr nm)]) ->
  _process_frame (sysm_name_frame sender dest nm) n
  = (Ok tt, set_name (Some (JStr nm)) n).
Proof.
  intros Hs Hd Hfit.
  assert (Hwf : wf_json (JDict [("type", JInt SYSM_TYPE_NAME); ("msg", JNull);
                                ("data", JStr nm)])).
  { apply wf_json_dict. split; [by apply (bool_decide_unpack _)|].
    by repeat constructor. }
  destruct (decode_encoded sender
              {| f_dest := dest; f_type := FRAME_TYPE_SYSM;
                 f_data := Some (JDict [("type", JInt SYSM_TYPE_NAME);
                                        ("msg", JNull); ("data", JStr nm)]);
                 f_meta := None |})
    as [_ Hdec].
  { unfold valid_frame. cbn [f_dest f_type f_data f_meta]. auto 6. }
  unfold _process_frame, sysm_name_frame, bind at 1, lift at 1.
  rewrite Hdec. cbn [d_type f_type].
  rewrite !decide_False by done. rewrite decide_True by done.
  unfold _process_sysmframe, bind at 1, lift at 1.
  cbn [d_data f_data]. by rewrite loads_dumps by done.
Qed.

End DeliveryFacts.

Lemma process_inbuf_rejects_witness :
  let frame := [x00; x00; x00; x0b] ++ b "019" ++ [x00; x01; x03; x00] in
  let n := NetNode.set_inBuf frame Scenario.bob_with_host in
  NetNode._process_inbuf 4 n
  = (Raise (VersionError (slice 4 7 frame)), NetNode.set_inBuf [] n).
Proof.
  intros frame n.
  apply (proj1 (process_inbuf_rejects 3 n frame [] eq_refl)).
  vm_compute. discriminate.
Defined.

Lemma data_frame_delivery_witness :
  NetNode._process_frame
    (Scenario.data_frame [x02] [x01] [Scenario.envelope "x" (JInt 1) false])
    Scenario.bob_with_host
  = (Ok tt,
     NodeSpec.run
       (map (NodeSpec.Put
               (NetNode._get_name_from_addr [x01] Scenario.bob_with_host))
          [Scenario.envelope "x" (JInt 1) false])
       Scenario.bob_with_host).
Proof.
  apply (data_frame_delivery [x02] [x01]
           [Scenario.envelope "x" (JInt 1) false] Scenario.bob_with_host).
  - reflexivity.
  - reflexivity.
  - simpl. repeat split; try done. by apply (bool_decide_unpack _).
  - vm_compute. reflexivity.
  - constructor; [|constructor]. eexists. reflexivity.
Defined.

Lemma peers_frame_delivery_witness :
  NetNode._process_frame (DeliverySpec.peers_frame "g" Scenario.two_peers)
    Scenario.bob
  = (Ok tt,
     NetNode.set_my_addr [x02]
       (NetNode.set_peers (DeliverySpec.peer_map "g" Scenario.two_peers)
          Scenario.bob)).
Proof.
  apply (peers_frame_delivery Scenario.two_peers "g" Scenario.bob
           (JStr "bob") (KStr "bob") [x02]).
  - apply well_formed_two_peers.
  - discriminate.
  - reflexivity.
  - replace (NetServer._get_clients_by_group "g" Scenario.two_peers)
      with [0; 1]%nat by (vm_compute; reflexivity).
    intros c Hc. apply elem_of_cons in Hc as [->|Hc].
    + exists (KStr "host"). vm_compute. reflexivity.
    + apply list_elem_of_singleton in Hc as ->.
      exists (KStr "bob"). vm_compute. reflexivity.
  - vm_compute. reflexivity.
  - vm_compute. reflexivity.
  - reflexivity.
  - vm_compute. reflexivity.
Defined.

Lemma sysm_name_delivery_witness :
  NetNode._process_frame
    (DeliverySpec.sysm_name_frame [x00] [xff] "Ant") Scenario.bob
  = (Ok tt, NetNode.set_name (Some (JStr "Ant")) Scenario.bob).
Proof.
  apply (sysm_name_delivery [x00] [xff] "Ant" Scenario.bob).
  - reflexivity.
  - reflexivity.
  - vm_compute. reflexivity.
Defined.

(** * More on the relay server *)

Section RelayFacts.
Import Net NetServer ServerSpec RelaySpec.

(** ** The watchdog *)

Lemma watchdog_update (c c' : nat) (w : Z) (f : client -> client) :
  keeps_watchdog f ->
  preserves (fun s => watchDog (deref s c') = w) (update c f).
Proof.
  intros Hf s Hs. unfold update, modify, deref in *. simpl.
  destruct (decide (c = c')) as [->|Hne].
  - rewrite lookup_alter_eq. destruct (heap s !! c'); simpl in *; [|done].
    by rewrite Hf.
  - by rewrite lookup_alter_ne.
Qed.

Lemma watchdog_print (c' : nat) (w : Z) level text :
  preserves (fun s => watchDog (deref s c') = w) (print level text).
Proof. intros s Hs. rewrite print_spec. simpl. by destruct (decide _). Qed.

Lemma watchdog_disconnect (c c' : nat) (w : Z) :
  preserves (fun s => watchDog (deref s c') = w) (disconnect c).
Proof.
  intros s Hs. unfold deref. by rewrite disconnect_heap.
Qed.

Ltac watchdog_step :=
  first
    [ apply watchdog_print
    | apply watchdog_disconnect
    | apply watchdog_update; by intros ?
    | preserves_step ].

Lemma watchdog_process_authframe (c c' : nat) (w : Z) d :
  preserves (fun s => watchDog (deref s c') = w) (_process_authframe c d).
Proof.
  unfold _process_authframe, assign_address, _send_sysm_name_frame,
    _send_peers_frame, _send_bytes.
  repeat watchdog_step.
Qed.

Lemma watchdog_process_dataframe (c c' : nat) (w : Z) d frame :
  preserves (fun s => watchDog (deref s c') = w) (_process_dataframe c d frame).
Proof. unfold _process_dataframe, _send_bytes. repeat watchdog_step. Qed.

(** X16. Which frames count as a sign of life. A frame that is not an AUTH
    frame, from a client that has a group and sends its own address as
    sender, sets the watchdog time of that client to [now]. Every other
    frame, an AUTH frame among them, leaves all watchdog times as they
    are, and a frame other than AUTH from a client without a group changes
    nothing at all. *)
Theorem watchdog_rule (s : server) (c : nat) (frame : bytes) (now : Z)
    (d : d_frame) :
  _decode_frame frame = Ok d ->
  is_Some (heap s !! c) ->
  (forall c',
     watchDog (deref (_process_frame frame c now s).2 c')
     = if decide (c' = c /\ d_type d <> FRAME_TYPE_AUTH
                  /\ group (deref s c) <> ""
                  /\ addr (deref s c) = d_sender d)
       then now else watchDog (deref s c'))
  /\ (d_type d <> FRAME_TYPE_AUTH -> group (deref s c) = "" ->
      _process_frame frame c now s = (Ok tt, s)).
Proof.
  intros Hd [cl Hcl]. unfold _process_frame. split.
  - intros c'. unfold bind at 1, lift at 1. rewrite Hd. cbv beta iota.
    destruct (decide (d_type d = FRAME_TYPE_AUTH)) as [Hauth|Hauth].
    + rewrite decide_False by tauto.
      by apply watchdog_process_authframe.
    + unfold bind at 1, get_state at 1.
      destruct (decide (group (deref s c) = "")) as [Hg|Hg];
        [by rewrite decide_False by tauto|].
      destruct (decide (addr (deref s c) <> d_sender d)) as [Ha|Ha].
      * rewrite decide_False by tauto. by apply watchdog_print.
      * assert (Haddr : addr (deref s c) = d_sender d)
          by (by destruct (decide (addr (deref s c) = d_sender d))).
        unfold bind at 1, update at 1, modify at 1.
        set (s1 := set_heap (alter (set_watchDog now) c (heap s)) s).
        assert (Hw : watchDog (deref s1 c')
                     = if decide (c' = c /\ d_type d <> FRAME_TYPE_AUTH
                                  /\ group (deref s c) <> ""
                                  /\ addr (deref s c) = d_sender d)
                       then now else watchDog (deref s c')).
        { destruct (decide (c' = c)) as [->|Hne].
          - rewrite decide_True by tauto. unfold s1, deref. simpl.
            by rewrite lookup_alter_eq, Hcl.
          - rewrite decide_False by tauto. unfold s1, deref. simpl.
            by rewrite lookup_alter_ne. }
        destruct (decide (d_type d = FRAME_TYPE_DATA)); [|done].
        by apply watchdog_process_dataframe.
  - intros Hauth Hg. unfold bind at 1, lift at 1. rewrite Hd. cbv beta iota.
    rewrite decide_False by done.
    unfold bind, get_state. by rewrite decide_True.
Qed.

(** ** AUTH requests that are turned down *)

(** X17. An AUTH frame for a group that is not allowed, or for a name that
    a client of the group has already, gets the sender disconnected: it
    leaves the list, its socket is closed, no client dict changes, so that
    nobody is sent anything and no name, group or address is given out. A
    client that asks again for the name and group it has is turned down in
    the same way. *)
Theorem auth_refused (s : server) (c : nat) (d : d_frame)
    (info nm g : json) :
  _loads (d_data d) = Ok info ->
  subscript info "name" = Ok nm ->
  subscript info "group" = Ok g ->
  refused s nm g ->
  let r := _process_authframe c d s in
  r.1 = Ok tt
  /\ heap r.2 = heap s
  /\ clients r.2 = list_remove c (clients s)
  /\ (c ∈ sel s -> (c ∉ sel r.2) /\ (c ∈ closed r.2))
  /\ exists text, log r.2 = if decide (verbosity s >= VERBOSITY_WARNING)
                            then log s ++ [(VERBOSITY_WARNING, text)]
                            else log s.
Proof.
  intros Hinfo Hnm Hg Href.
  assert (Hout : forall text,
    let r := (print VERBOSITY_WARNING text;; disconnect c)%M s in
    r.1 = Ok tt
    /\ heap r.2 = heap s
    /\ clients r.2 = list_remove c (clients s)
    /\ (c ∈ sel s -> (c ∉ sel r.2) /\ (c ∈ closed r.2))
    /\ exists text, log r.2 = if decide (verbosity s >= VERBOSITY_WARNING)
                              then log s ++ [(VERBOSITY_WARNING, text)]
                              else log s).
  { intros text. unfold bind. rewrite print_spec. cbv beta iota zeta.
    rewrite disconnect_spec.
    destruct (decide (verbosity s >= VERBOSITY_WARNING));
      cbn [fst snd heap clients sel closed log set_clients set_log];
      (split; [done|]; split; [by destruct (decide _)|]; split; [done|];
       split; [|exists text; by destruct (decide _)]);
      (intros Hsel; cbn [sel set_log]; rewrite decide_True by done;
       cbn [sel closed set_sockets]; split;
       [rewrite elem_of_difference, elem_of_singleton; tauto
       |apply elem_of_union; right; by apply elem_of_singleton]). }
  assert (Heq : exists text,
            _process_authframe c d s
            = (print VERBOSITY_WARNING text;; disconnect c)%M s).
  { unfold _process_authframe.
    unfold bind at 1, lift at 1. rewrite Hinfo. cbv beta iota.
    unfold bind at 1, lift at 1. rewrite Hnm. cbv beta iota.
    unfold bind at 1, lift at 1. rewrite Hg. cbv beta iota.
    unfold bind at 1, get_state at 1. cbv beta iota.
    destruct g as [| | |g| |]; try by eexists.
    destruct (decide (g ∈ groups s)) as [Hin|]; [|by eexists].
    destruct Href as [Hno|(Hname & c' & Hc' & Hgc' & Heq)]; [done|].
    rewrite Hname.
    destruct (_get_client_by_name nm g s) as [|x l] eqn:Hby; [|by eexists].
    exfalso. assert (Hx : c' ∈ _get_client_by_name nm g s).
    { unfold _get_client_by_name. apply list_elem_of_filter. by split. }
    rewrite Hby in Hx. by apply elem_of_nil in Hx. }
  destruct Heq as [text ->]. apply Hout.
Qed.

(** ** Names the server picks *)

Lemma unused_name_spec (used : list json) (nm : string) :
  negb (existsb (py_eq (JStr nm)) used) = true -> JStr nm ∉ used.
Proof.
  intros Hun Hin. apply negb_true_iff in Hun.
  assert (Hex : existsb (py_eq (JStr nm)) used = true).
  { apply existsb_exists. exists (JStr nm).
    split; [by apply list_elem_of_In|]. simpl. apply String.eqb_refl. }
  congruence.
Qed.

(** X18. The name [_get_random_name] picks is the name of no client of the
    group. It is the first name of the server's list that is free in the
    group; only when every name of the list is taken there is it a name of
    the list with a number from 1 to 254 behind it. *)
Theorem random_name_unused (s : server) (g nm : string) :
  _get_random_name g s = Some nm ->
  (forall c, c ∈ clients s -> group (deref s c) = g ->
             name (deref s c) <> JStr nm)
  /\ ((exists l1 l2,
         _RANDOM_NAMES s = l1 ++ nm :: l2
         /\ forall base, base ∈ l1 ->
              exists c, c ∈ clients s /\ group (deref s c) = g
                        /\ py_eq (JStr base) (name (deref s c)) = true)
      \/ ((forall base, base ∈ _RANDOM_NAMES s ->
             exists c, c ∈ clients s /\ group (deref s c) = g
                       /\ py_eq (JStr base) (name (deref s c)) = true)
          /\ exists base a,
               base ∈ _RANDOM_NAMES s /\ (1 <= a <= 254)%nat
               /\ nm = base +:+ dumps_int (Z.of_nat a))).
Proof.
  unfold _get_random_name.
  set (used := map (fun c => name (deref s c)) (_get_clients_by_group g s)).
  set (unused := fun name0 : string =>
                   negb (existsb (py_eq (JStr name0)) used)).
  assert (Hfree : forall x, unused x = true ->
            forall c, c ∈ clients s -> group (deref s c) = g ->
                      name (deref s c) <> JStr x).
  { intros x Hx c Hc Hg Heq. apply (unused_name_spec used x Hx).
    rewrite <- Heq. unfold used. apply list_elem_of_In, in_map_iff.
    exists c. split; [done|].
    by apply list_elem_of_In, elem_of_clients_by_group. }
  assert (Htaken : forall x, unused x = false ->
            exists c, c ∈ clients s /\ group (deref s c) = g
                      /\ py_eq (JStr x) (name (deref s c)) = true).
  { intros x Hx. apply negb_false_iff, existsb_exists in Hx
      as (u & Hu & Heq).
    unfold used in Hu. apply in_map_iff in Hu as (c & <- & Hc).
    apply list_elem_of_In, elem_of_clients_by_group in Hc as [Hc Hg].
    by exists c. }
  destruct (find unused (_RANDOM_NAMES s)) as [x|] eqn:Hpool.
  - intros [= ->]. apply find_Some_first in Hpool as (l1 & l2 & Hl & Hx & Hl1).
    split; [by apply Hfree|]. left. exists l1, l2. split; [done|].
    intros base Hbase. by apply Htaken, Hl1.
  - intros Hsuffix. pose proof (proj1 (find_None_all _ _) Hpool) as Hall.
    apply find_Some_first in Hsuffix as (l1 & l2 & Hl & Hx & _).
    split; [by apply Hfree|]. right. split.
    + intros base Hbase. by apply Htaken, Hall.
    + assert (Hin : In nm (flat_map
                (fun a => map (fun name0 => name0 +:+ dumps_int (Z.of_nat a))
                              (_RANDOM_NAMES s)) (seq 1 254))).
      { rewrite Hl. apply in_or_app. right. by left. }
      apply in_flat_map in Hin as (a & Ha & Hin).
      apply in_map_iff in Hin as (base & <- & Hbase).
      apply in_seq in Ha. exists base, a.
      split; [by apply list_elem_of_In|]. split; [lia|done].
Qed.

(** ** Timeouts *)

Lemma timeout_keeps (now : Z) (s : server) (c : nat) :
  c ∈ clients s -> now - 5 * second <= watchDog (deref s c) ->
  c ∈ clients (disconnect_if_timeout now s).2.
Proof.
  intros Hc Hw.
  assert (H : preserves (fun s' => heap s' = heap s /\ c ∈ clients s')
                (disconnect_if_timeout now)).
  { unfold disconnect_if_timeout. apply preserves_for_clients. intros c0.
    apply preserves_bind_get. intros s' [Hh Hc'].
    destruct (decide _) as [Hold|]; [|done]. unfold bind.
    rewrite disconnect_spec. cbn [fst snd].
    split; [by destruct (decide _)|]. cbn [clients set_clients].
    apply elem_of_list_remove_ne; [|done]. intros ->.
    unfold deref in *. rewrite Hh in Hold. lia. }
  by apply H.
Qed.

Lemma for_clients_from_ok {A} (body : nat -> M server (list A)) :
  (forall c s, exists xs, (body c s).1 = Ok xs) ->
  forall steps i s, exists ys, (for_clients_from steps i body s).1 = Ok ys.
Proof.
  intros Hbody steps. induction steps as [|steps IH]; intros i s.
  - by exists [].
  - cbn [for_clients_from]. unfold bind at 1, get_state at 1.
    destruct (clients s !! i) as [c|]; [|by exists []].
    unfold bind at 1. destruct (Hbody c s) as [xs Hxs].
    destruct (body c s) as [[xs'|e] s1]; [|done].
    unfold bind at 1. destruct (IH (S i) s1) as [ys Hys].
    destruct (for_clients_from steps (S i) body s1) as [[ys'|e] s2]; [|done].
    by eexists.
Qed.

(** X19. [disconnect_if_timeout] raises nothing, changes no client dict and
    adds no client to the list; a client whose watchdog time is not more
    than five seconds old stays in the list. *)
Theorem timeout_spares_the_alive (now : Z) (s : server) :
  let r := disconnect_if_timeout now s in
  (exists ips, r.1 = Ok ips)
  /\ heap r.2 = heap s
  /\ (forall c, c ∈ clients r.2 -> c ∈ clients s)
  /\ (forall c, c ∈ clients s -> now - 5 * second <= watchDog (deref s c) ->
                c ∈ clients r.2).
Proof.
  cbv zeta. split; [|split; [|split]].
  - unfold disconnect_if_timeout, for_clients, bind at 1, get_state at 1.
    apply for_clients_from_ok. intros c s'.
    unfold bind at 1, get_state at 1.
    destruct (decide _); [|by eexists]. unfold bind.
    rewrite disconnect_spec. by eexists.
  - apply disconnect_if_timeout_heap.
  - assert (H : preserves (fun s' => forall c, c ∈ clients s' -> c ∈ clients s)
                  (disconnect_if_timeout now)).
    { unfold disconnect_if_timeout. apply preserves_for_clients. intros c0.
      apply preserves_bind_get. intros s' Hs'.
      destruct (decide _) as [Hold|]; [|done]. unfold bind.
      rewrite disconnect_spec. cbn [fst snd clients set_clients].
      intros c Hc. by apply Hs', (elem_of_list_remove c0). }
    by apply H.
  - intros c. apply timeout_keeps.
Qed.

(** X20. A HEART frame from a client that has a group and sends its own
    address as sender sets the watchdog time of the client and does nothing
    else; for the five seconds that follow, [disconnect_if_timeout] leaves
    the client in the list. *)
Theorem heartbeat_keeps_alive (s : server) (c : nat) (frame : bytes)
    (now now' : Z) (d : d_frame) :
  _decode_frame frame = Ok d ->
  d_type d = FRAME_TYPE_HEART ->
  c ∈ clients s -> is_Some (heap s !! c) ->
  group (deref s c) <> "" ->
  addr (deref s c) = d_sender d ->
  now' <= now + 5 * second ->
  _process_frame frame c now s
  = (Ok tt, set_heap (alter (set_watchDog now) c (heap s)) s)
  /\ c ∈ clients (disconnect_if_timeout now'
                    (_process_frame frame c now s).2).2.
Proof.
  intros Hd Hty Hc [cl Hcl] Hg Ha Hnow.
  assert (Heq : _process_frame frame c now s
                = (Ok tt, set_heap (alter (set_watchDog now) c (heap s)) s)).
  { unfold _process_frame, bind at 1, lift at 1. rewrite Hd. cbv beta iota.
    rewrite Hty. rewrite decide_False by done.
    unfold bind at 1, get_state at 1. rewrite decide_False by done.
    rewrite decide_False by (by intros []).
    unfold bind at 1, update at 1, modify at 1.
    by rewrite decide_False. }
  split; [done|]. rewrite Heq. apply timeout_keeps; [done|].
  unfold deref. cbn [snd heap set_heap]. rewrite lookup_alter_eq, Hcl.
  simpl. lia.
Qed.

End RelayFacts.

Lemma watchdog_rule_witness :
  let d :=
    {| Net.d_version := Net.VERSION; Net.d_dest := Net.SERVER_ADDR;
       Net.d_sender := [x01]; Net.d_type := Net.FRAME_TYPE_HEART;
       Net.d_meta := [x00]; Net.d_data := b "null" |} in
  NetServer.watchDog
    (NetServer.deref
       (NetServer._process_frame (Scenario.heart_frame [x01]) 0 4000
          Scenario.two_peers).2 0)
  = if decide (0%nat = 0%nat /\ Net.d_type d <> Net.FRAME_TYPE_AUTH
               /\ NetServer.group (NetServer.deref Scenario.two_peers 0) <> ""
               /\ NetServer.addr (NetServer.deref Scenario.two_peers 0)
                  = Net.d_sender d)
    then 4000 else NetServer.watchDog (NetServer.deref Scenario.two_peers 0).
Proof.
  intros d.
  destruct (watchdog_rule Scenario.two_peers 0 (Scenario.heart_frame [x01])
              4000 d) as [H _].
  - vm_compute. reflexivity.
  - exists (NetServer.deref Scenario.two_peers 0). vm_compute. reflexivity.
  - apply H.
Defined.

Lemma auth_refused_witness :
  let r :=
    NetServer._process_authframe 0
      {| Net.d_version := Net.VERSION; Net.d_dest := Net.SERVER_ADDR;
         Net.d_sender := Net.UNKNOWN_ADDR; Net.d_type := Net.FRAME_TYPE_AUTH;
         Net.d_meta := [x00];
         Net.d_data :=
           Net._dumps (JDict [("name", JStr "host");
                              ("group", JStr "nowhere")]) |}
      Scenario.two_peers in
  r.1 = Ok tt
  /\ NetServer.heap r.2 = NetServer.heap Scenario.two_peers
  /\ NetServer.clients r.2
     = NetServer.list_remove 0 (NetServer.clients Scenario.two_peers).
Proof.
  intros r.
  destruct (auth_refused Scenario.two_peers 0
              {| Net.d_version := Net.VERSION; Net.d_dest := Net.SERVER_ADDR;
                 Net.d_sender := Net.UNKNOWN_ADDR;
                 Net.d_type := Net.FRAME_TYPE_AUTH; Net.d_meta := [x00];
                 Net.d_data :=
                   Net._dumps (JDict [("name", JStr "host");
                                      ("group", JStr "nowhere")]) |}
              (JDict [("name", JStr "host"); ("group", JStr "nowhere")])
              (JStr "host") (JStr "nowhere"))
    as (H1 & H2 & H3 & _).
  - vm_compute. reflexivity.
  - reflexivity.
  - reflexivity.
  - left.
    replace (NetServer.groups Scenario.two_peers) with ["g"]
      by (vm_compute; reflexivity).
    by apply (bool_decide_unpack _).
  - split; [exact H1|]. split; [exact H2|exact H3].
Defined.

Lemma random_name_unused_witness :
  NetServer.name (NetServer.deref Scenario.two_peers 0) <> JStr "Ant"
  /\ NetServer.name (NetServer.deref Scenario.two_peers 1) <> JStr "Ant".
Proof.
  destruct (random_name_unused Scenario.two_peers "g" "Ant") as [H _].
  - vm_compute. reflexivity.
  - replace (NetServer.clients Scenario.two_peers) with [0; 1]%nat in H
      by (vm_compute; reflexivity).
    split; apply H.
    + apply elem_of_cons. by left.
    + vm_compute. reflexivity.
    + apply elem_of_cons. right. apply elem_of_cons. by left.
    + vm_compute. reflexivity.
Defined.

Lemma timeout_spares_the_alive_witness :
  0%nat ∈ NetServer.clients
            (NetServer.disconnect_if_timeout (6 * second)
               Scenario.host_alive).2.
Proof.
  destruct (timeout_spares_the_alive (6 * second) Scenario.host_alive)
    as (_ & _ & _ & H).
  apply H.
  - replace (NetServer.clients Scenario.host_alive) with [0; 1]%nat
      by (vm_compute; reflexivity).
    apply elem_of_cons. by left.
  - vm_compute. congruence.
Defined.

Lemma heartbeat_keeps_alive_witness :
  0%nat ∈ NetServer.clients
            (NetServer.disconnect_if_timeout 6000
               (NetServer._process_frame (Scenario.heart_frame [x01]) 0 4000
                  Scenario.two_peers).2).2.
Proof.
  destruct (heartbeat_keeps_alive Scenario.two_peers 0
              (Scenario.heart_frame [x01]) 4000 6000
              {| Net.d_version := Net.VERSION; Net.d_dest := Net.SERVER_ADDR;
                 Net.d_sender := [x01]; Net.d_type := Net.FRAME_TYPE_HEART;
                 Net.d_meta := [x00]; Net.d_data := b "null" |})
    as [_ H].
  - vm_compute. reflexivity.
  - reflexivity.
  - replace (NetServer.clients Scenario.two_peers) with [0; 1]%nat
      by (vm_compute; reflexivity).
    apply elem_of_cons. by left.
  - exists (NetServer.deref Scenario.two_peers 0). vm_compute. reflexivity.
  - vm_compute. congruence.
  - vm_compute. reflexivity.
  - vm_compute. congruence.
  - exact H.
Defined.
